(** * Video presentation surface and CUDA memory copy: model and properties

    Shallow embedding of two translation units:
    - [ext/wayland/wlwindow.c]: the Wayland presentation window (a border
      surface [area_surface] with a nested [video_surface]);
    - [sys/nvcodec/gstcudamemorycopy.c]: the upload/download element that
      moves frames between system, CUDA, NVMM and GL memory.

    Wayland requests and CUDA/GStreamer calls are side effects; they are
    recorded as traces.  Calls that can fail take their outcome from an
    explicit environment, a function of the trace so far. *)

From Stdlib Require Import ZArith List Bool Lia.
From Stdlib Require Import Floats.SpecFloat.
From stdpp Require Import base list.
Import ListNotations.

Local Open Scope Z_scope.

(** ** C integers *)

Definition INT_MIN : Z := - 2 ^ 31.
Definition INT_MAX : Z := 2 ^ 31 - 1.

(** Two's complement wrap-around of a [gint]. *)
Definition wrap32 (z : Z) : Z := (z + 2 ^ 31) mod 2 ^ 32 - 2 ^ 31.

(** Wrap-around of a [guint32] and of a 64-bit [size_t] / pointer. *)
Definition wrapu32 (z : Z) : Z := z mod 2 ^ 32.
Definition wrapu64 (z : Z) : Z := z mod 2 ^ 64.

Definition int_range (z : Z) : Prop := INT_MIN <= z <= INT_MAX.

(** C division on [gint]: truncation toward zero.  Division by zero is
    undefined in C; here it yields [0], as [Z.quot] does. *)
Definition c_div (a b : Z) : Z := wrap32 (Z.quot a b).

(** [wl_fixed_from_int] of wayland-util.h: 24.8 signed fixed point. *)
Definition wl_fixed_from_int (i : Z) : Z := wrap32 (i * 256).

(** * Part I: wlwindow.c *)

(** ** Data *)

Record GstVideoRectangle := mkRect {
  rect_x : Z;
  rect_y : Z;
  rect_w : Z;
  rect_h : Z
}.

(** The fields of [GstVideoInfo] read by the two files. *)
Record GstVideoInfo := mkInfo {
  info_width : Z;
  info_height : Z;
  info_par_n : Z;
  info_par_d : Z;
  info_has_alpha : bool;
  info_n_planes : nat;
  info_stride : list Z
}.

Record GstVideoCropMeta := mkCrop {
  crop_x : Z;
  crop_y : Z;
  crop_width : Z;
  crop_height : Z
}.

(** The globals of the display that the window consults; a pointer is
    modelled by whether it is non-NULL. *)
Record GstWlDisplay := mkDisplay {
  viewporter : bool;
  alpha_compositing : bool
}.

Record GstWlWindow := mkWindow {
  display : GstWlDisplay;
  area_subsurface : bool;
  area_viewport : bool;
  video_viewport : bool;
  blend_func : bool;
  shell_surface : bool;
  render_rectangle : GstVideoRectangle;
  video_rectangle : GstVideoRectangle;
  video_width : Z;
  video_height : Z;
  src_x : Z;
  src_y : Z;
  src_width : Z;
  src_height : Z;
  scale : Z;
  fullscreen_width : Z;
  fullscreen_height : Z;
  no_border_update : bool
}.

Inductive Surface := area_surface | video_surface.

Inductive BlendingEquation :=
| ZWP_BLENDING_V1_BLENDING_EQUATION_FROMSOURCE
| ZWP_BLENDING_V1_BLENDING_EQUATION_PREMULTIPLIED.

Inductive GstVideoFormat := GST_VIDEO_FORMAT_xRGB | GST_VIDEO_FORMAT_BGRx.

(** The buffer built by [gst_wl_window_update_borders]: its video info,
    the size it was allocated with and the [gst_buffer_memset] applied. *)
Record ShmBuffer := mkShm {
  shm_format : GstVideoFormat;
  shm_width : Z;
  shm_height : Z;
  shm_alloc_size : Z;
  shm_memset_offset : Z;
  shm_memset_val : Z;
  shm_memset_size : Z
}.

Inductive GstWlBuffer :=
| frame_buffer (id : Z)
| shm_buffer (b : ShmBuffer).

(** Requests sent to the compositor, in program order. *)
Inductive WlRequest :=
| wl_subsurface_set_position (s : Surface) (px py : Z)
| wl_subsurface_set_sync
| wl_subsurface_set_desync
| wp_viewport_set_destination (s : Surface) (dw dh : Z)
| wp_viewport_set_source (sx sy sw sh : Z)
| wl_surface_damage (s : Surface) (dx dy dw dh : Z)
| wl_surface_commit (s : Surface)
| wl_surface_set_input_region (s : Surface) (rw rh : Z)
| wl_surface_set_opaque_region (s : Surface) (rw rh : Z)
| wl_surface_set_buffer_scale (s : Surface) (k : Z)
| gst_wl_buffer_attach (b : GstWlBuffer) (s : Surface)
| wl_surface_attach_null (s : Surface)
| zwp_blending_v1_set_alpha (a : Z)
| zwp_blending_v1_set_blending (e : BlendingEquation)
| wl_display_flush.

(** ** Field updates *)

Definition set_render_rectangle_field (r : GstVideoRectangle) (win : GstWlWindow) : GstWlWindow :=
  mkWindow (display win) (area_subsurface win) (area_viewport win)
    (video_viewport win) (blend_func win) (shell_surface win)
    r (video_rectangle win) (video_width win) (video_height win)
    (src_x win) (src_y win) (src_width win) (src_height win) (scale win)
    (fullscreen_width win) (fullscreen_height win) (no_border_update win).

Definition set_video_rectangle (r : GstVideoRectangle) (win : GstWlWindow) : GstWlWindow :=
  mkWindow (display win) (area_subsurface win) (area_viewport win)
    (video_viewport win) (blend_func win) (shell_surface win)
    (render_rectangle win) r (video_width win) (video_height win)
    (src_x win) (src_y win) (src_width win) (src_height win) (scale win)
    (fullscreen_width win) (fullscreen_height win) (no_border_update win).

Definition set_video_size (vw vh : Z) (win : GstWlWindow) : GstWlWindow :=
  mkWindow (display win) (area_subsurface win) (area_viewport win)
    (video_viewport win) (blend_func win) (shell_surface win)
    (render_rectangle win) (video_rectangle win) vw vh
    (src_x win) (src_y win) (src_width win) (src_height win) (scale win)
    (fullscreen_width win) (fullscreen_height win) (no_border_update win).

Definition set_src (sx sy sw sh : Z) (win : GstWlWindow) : GstWlWindow :=
  mkWindow (display win) (area_subsurface win) (area_viewport win)
    (video_viewport win) (blend_func win) (shell_surface win)
    (render_rectangle win) (video_rectangle win) (video_width win)
    (video_height win) sx sy sw sh (scale win)
    (fullscreen_width win) (fullscreen_height win) (no_border_update win).

Definition set_no_border_update (b : bool) (win : GstWlWindow) : GstWlWindow :=
  mkWindow (display win) (area_subsurface win) (area_viewport win)
    (video_viewport win) (blend_func win) (shell_surface win)
    (render_rectangle win) (video_rectangle win) (video_width win)
    (video_height win) (src_x win) (src_y win) (src_width win)
    (src_height win) (scale win)
    (fullscreen_width win) (fullscreen_height win) b.

(** ** Geometry *)

(** Modelled from the spec: [gst_video_sink_center_rect] is called by
    [gst_wl_window_resize_video_surface] but defined in libgstvideo, not
    in the files modelled here.  With scaling (the spec's letterboxing) the
    content is scaled to the largest rectangle that fits inside the
    bounding rectangle while preserving its aspect ratio, and centred.
    The library forms the two aspect ratios in [gdouble]; the model
    compares and scales them exactly, rounding the scaled side down.
    Without scaling, a branch on which no property below depends, the
    content keeps its size, clipped to the bounding rectangle, and is
    centred, as the library documents. *)
Definition gst_video_sink_center_rect (src dst : GstVideoRectangle) (scaling : bool)
  : GstVideoRectangle :=
  if scaling then
    if rect_w dst * rect_h src <? rect_w src * rect_h dst then
      (* content wider than the bounds: full width, bars above and below *)
      let rh := Z.quot (rect_w dst * rect_h src) (rect_w src) in
      mkRect (rect_x dst) (wrap32 (rect_y dst + c_div (rect_h dst - rh) 2))
             (rect_w dst) rh
    else if rect_w src * rect_h dst <? rect_w dst * rect_h src then
      (* content taller than the bounds: full height, bars left and right *)
      let rw := Z.quot (rect_h dst * rect_w src) (rect_h src) in
      mkRect (wrap32 (rect_x dst + c_div (rect_w dst - rw) 2)) (rect_y dst)
             rw (rect_h dst)
    else dst
  else
    let rw := Z.min (rect_w src) (rect_w dst) in
    let rh := Z.min (rect_h src) (rect_h dst) in
    mkRect (wrap32 (rect_x dst + c_div (rect_w dst - rw) 2))
           (wrap32 (rect_y dst + c_div (rect_h dst - rh) 2)) rw rh.

Definition gst_wl_window_is_toplevel (window : GstWlWindow) : bool :=
  shell_surface window.

Definition gst_wl_window_resize_video_surface (window : GstWlWindow) (commit : bool)
  : GstWlWindow * list WlRequest :=
  let fx := wl_fixed_from_int (c_div (src_x window) (scale window)) in
  let fy := wl_fixed_from_int (c_div (src_y window) (scale window)) in
  let fwidth := wl_fixed_from_int (c_div (src_width window) (scale window)) in
  let fheight := wl_fixed_from_int (c_div (src_height window) (scale window)) in
  let src := mkRect 0 0 (video_width window) (video_height window) in
  let dst := mkRect 0 0 (rect_w (render_rectangle window))
                        (rect_h (render_rectangle window)) in
  let res := gst_video_sink_center_rect src dst (video_viewport window) in
  (set_video_rectangle res window,
   (if video_viewport window then
      wp_viewport_set_destination video_surface (rect_w res) (rect_h res)
      :: (if negb (fwidth =? wl_fixed_from_int (-1))
          then [wp_viewport_set_source fx fy fwidth fheight] else [])
    else [])
   ++ [wl_subsurface_set_position video_surface (rect_x res) (rect_y res)]
   ++ (if commit then
         [wl_surface_damage video_surface 0 0 (rect_w res) (rect_h res);
          wl_surface_commit video_surface]
       else [])
   ++ (if gst_wl_window_is_toplevel window then
         [wl_surface_set_input_region area_surface
            (rect_w (render_rectangle window)) (rect_h (render_rectangle window))]
       else [])).

Section Window.

(** Facts of the platform and of libraries outside the two files. *)
Variable HAS_DCSS : bool.
Variable G_BYTE_ORDER_BIG_ENDIAN : bool.
Variable gst_util_uint64_scale_int_round : Z -> Z -> Z -> Z.
Variable wl_fixed_from_double : spec_float -> Z.
(** [info.size] as computed by [gst_video_info_set_format]. *)
Variable gst_video_info_size : GstVideoFormat -> Z -> Z -> Z.

Definition gst_wl_window_set_opaque (window : GstWlWindow) (info : GstVideoInfo)
  : list WlRequest :=
  if negb (info_has_alpha info) then
    if HAS_DCSS then []
    else [wl_surface_set_opaque_region video_surface
            (rect_w (render_rectangle window)) (rect_h (render_rectangle window))]
  else [].

Definition gst_wl_window_render (window : GstWlWindow) (buffer : option GstWlBuffer)
    (info : option GstVideoInfo) : GstWlWindow * list WlRequest :=
  let '(window1, t1) :=
    match info with
    | Some i =>
        let w1 := set_video_size
                    (wrap32 (gst_util_uint64_scale_int_round
                               (info_width i) (info_par_n i) (info_par_d i)))
                    (info_height i) window in
        let '(w2, t) := gst_wl_window_resize_video_surface w1 false in
        (w2, [wl_subsurface_set_sync] ++ t ++ gst_wl_window_set_opaque w2 i)
    | None => (window, [])
    end in
  (window1,
   t1
   ++ [match buffer with
       | Some b => gst_wl_buffer_attach b video_surface
       | None => wl_surface_attach_null video_surface
       end;
       wl_surface_set_buffer_scale video_surface (scale window1);
       wl_surface_damage video_surface 0 0
         (rect_w (video_rectangle window1)) (rect_h (video_rectangle window1));
       wl_surface_commit video_surface]
   ++ (match info with
       | Some _ =>
           [wl_surface_damage area_surface 0 0
              (rect_w (render_rectangle window1)) (rect_h (render_rectangle window1));
            wl_surface_commit area_surface;
            wl_subsurface_set_desync]
       | None => []
       end)
   ++ [wl_display_flush]).

Definition gst_wl_window_update_borders (window : GstWlWindow)
  : GstWlWindow * list WlRequest :=
  if no_border_update window then (window, [])
  else
    let '(width, height, window1) :=
      if viewporter (display window)
      then (1, 1, set_no_border_update true window)
      else (rect_w (render_rectangle window), rect_h (render_rectangle window), window) in
    let format := if G_BYTE_ORDER_BIG_ENDIAN
                  then GST_VIDEO_FORMAT_xRGB else GST_VIDEO_FORMAT_BGRx in
    let size := gst_video_info_size format width height in
    (window1,
     [gst_wl_buffer_attach
        (shm_buffer (mkShm format width height size 0 0 size)) area_surface]).

Definition gst_wl_window_set_render_rectangle (window : GstWlWindow) (rx ry rw rh : Z)
  : GstWlWindow * list WlRequest :=
  let w1 := set_render_rectangle_field (mkRect rx ry rw rh) window in
  let t1 := if area_subsurface w1
            then [wl_subsurface_set_position area_surface rx ry] else [] in
  let t2 := if area_viewport w1
            then [wp_viewport_set_destination area_surface rw rh] else [] in
  let '(w2, t3) := gst_wl_window_update_borders w1 in
  let '(w3, t4) :=
    if negb (video_width w2 =? 0) then
      let '(w, t) := gst_wl_window_resize_video_surface w2 true in
      (w, wl_subsurface_set_sync :: t)
    else (w2, []) in
  (w3,
   t1 ++ t2 ++ t3 ++ t4
   ++ [wl_surface_damage area_surface 0 0 rw rh; wl_surface_commit area_surface]
   ++ (if negb (video_width w3 =? 0) then [wl_subsurface_set_desync] else [])).

(** [crop] is the result of [gst_buffer_get_video_crop_meta]; the meta's
    fields are [guint] and are stored into [gint] fields. *)
Definition gst_wl_window_set_source_crop (window : GstWlWindow)
    (crop : option GstVideoCropMeta) : GstWlWindow :=
  match crop with
  | Some c =>
      set_src (wrap32 (crop_x c)) (wrap32 (crop_y c))
              (wrap32 (crop_width c)) (wrap32 (crop_height c)) window
  | None => set_src (src_x window) (src_y window) (-1) (src_height window) window
  end.

(** The comparison [alpha < 1.0] is made in [double], to which the
    [gfloat] argument is promoted without loss.  Floating-point data are
    IEEE 754 binary64 in canonical form (53-bit mantissa), on which
    [SFltb] and [SFeqb] are the IEEE comparisons; [float_one] is 1.0 and
    [float_half] is 0.5. *)
Definition float_one : spec_float := S754_finite false 4503599627370496 (-52).
Definition float_half : spec_float := S754_finite false 4503599627370496 (-53).

(** [window] is [None] for a NULL pointer. *)
Definition gst_wl_window_set_alpha (window : option GstWlWindow) (alpha : spec_float)
  : list WlRequest :=
  match window with
  | Some win =>
      if blend_func win then
        [zwp_blending_v1_set_alpha (wl_fixed_from_double alpha);
         zwp_blending_v1_set_blending
           (if SFltb alpha float_one
            then ZWP_BLENDING_V1_BLENDING_EQUATION_FROMSOURCE
            else ZWP_BLENDING_V1_BLENDING_EQUATION_PREMULTIPLIED)]
      else []
  | None => []
  end.

(** [gst_wl_window_init] on the zero-filled instance that GObject hands
    to it. *)
Definition zero_rect : GstVideoRectangle := mkRect 0 0 0 0.

Definition gst_wl_window_init (d : GstWlDisplay) : GstWlWindow :=
  mkWindow d false false false false false zero_rect zero_rect 0 0
           0 0 (-1) 0 1 (-1) (-1) false.

(** The public operations, for reasoning about a window's lifetime. *)
Inductive WindowOp :=
| OpSetRenderRectangle (rx ry rw rh : Z)
| OpRender (buffer : option GstWlBuffer) (info : option GstVideoInfo)
| OpSetSourceCrop (crop : option GstVideoCropMeta)
| OpSetAlpha (alpha : spec_float).

Definition window_step (window : GstWlWindow) (op : WindowOp)
  : GstWlWindow * list WlRequest :=
  match op with
  | OpSetRenderRectangle rx ry rw rh =>
      gst_wl_window_set_render_rectangle window rx ry rw rh
  | OpRender buffer info => gst_wl_window_render window buffer info
  | OpSetSourceCrop crop => (gst_wl_window_set_source_crop window crop, [])
  | OpSetAlpha alpha => (window, gst_wl_window_set_alpha (Some window) alpha)
  end.

Fixpoint window_run (window : GstWlWindow) (ops : list WindowOp)
  : GstWlWindow * list WlRequest :=
  match ops with
  | [] => (window, [])
  | op :: rest =>
      let '(w1, t1) := window_step window op in
      let '(w2, t2) := window_run w1 rest in
      (w2, t1 ++ t2)
  end.

End Window.


(** * Part II: gstcudamemorycopy.c *)

(** ** Data *)

Inductive GstCudaMemoryCopyMemType :=
| GST_CUDA_MEMORY_COPY_MEM_SYSTEM
| GST_CUDA_MEMORY_COPY_MEM_CUDA
| GST_CUDA_MEMORY_COPY_MEM_NVMM
| GST_CUDA_MEMORY_COPY_MEM_GL.

Definition mem_type_eqb (a b : GstCudaMemoryCopyMemType) : bool :=
  match a, b with
  | GST_CUDA_MEMORY_COPY_MEM_SYSTEM, GST_CUDA_MEMORY_COPY_MEM_SYSTEM
  | GST_CUDA_MEMORY_COPY_MEM_CUDA, GST_CUDA_MEMORY_COPY_MEM_CUDA
  | GST_CUDA_MEMORY_COPY_MEM_NVMM, GST_CUDA_MEMORY_COPY_MEM_NVMM
  | GST_CUDA_MEMORY_COPY_MEM_GL, GST_CUDA_MEMORY_COPY_MEM_GL => true
  | _, _ => false
  end.

Inductive GstFlowReturn := GST_FLOW_OK | GST_FLOW_ERROR.

Inductive CUmemorytype :=
| CU_MEMORYTYPE_HOST
| CU_MEMORYTYPE_DEVICE
| CU_MEMORYTYPE_UNIFIED.

(** The fields of the driver's 2D copy descriptor that the element
    writes; [None] is the zero left by [memset]. *)
Record CUDA_MEMCPY2D := mkCopy2D {
  srcMemoryType : option CUmemorytype;
  srcHost : Z;
  srcDevice : Z;
  srcPitch : Z;
  dstMemoryType : option CUmemorytype;
  dstHost : Z;
  dstDevice : Z;
  dstPitch : Z;
  WidthInBytes : Z;
  Height : Z
}.

Definition zero_copy2d : CUDA_MEMCPY2D :=
  mkCopy2D None 0 0 0 None 0 0 0 0 0.

Definition GST_VIDEO_MAX_PLANES : nat := 4.

Inductive NvBufSurfaceMemType :=
| NVBUF_MEM_DEFAULT
| NVBUF_MEM_CUDA_PINNED
| NVBUF_MEM_CUDA_DEVICE
| NVBUF_MEM_CUDA_UNIFIED
| NVBUF_MEM_SURFACE_ARRAY
| NVBUF_MEM_HANDLE
| NVBUF_MEM_SYSTEM.

Record NvBufSurfacePlaneParams := mkPlaneParams {
  num_planes : nat;
  width : list Z;
  height : list Z;
  pitch : list Z;
  offset : list Z;
  bytesPerPix : list Z
}.

Record NvBufSurfaceParams := mkSurfaceParams {
  dataPtr : Z;
  planeParams : NvBufSurfacePlaneParams
}.

(** [surfaceList] is [None] for a NULL pointer. *)
Record NvBufSurface := mkSurface {
  memType : NvBufSurfaceMemType;
  surfaceList : option NvBufSurfaceParams
}.

(** A plane of a mapped [GstVideoFrame]. *)
Record FramePlane := mkPlane {
  plane_data : Z;
  plane_stride : Z;
  comp_width : Z;
  comp_pstride : Z;
  comp_height : Z
}.

Inductive MemoryKind := MEM_SYSTEM | MEM_CUDA | MEM_GL_PBO | MEM_NVMM.

(** A [GstMemory]: the allocator it comes from, and whether a CUDA
    graphics resource is already attached to it as qdata. *)
Record GstMemory := mkMemory {
  mem_kind : MemoryKind;
  has_graphics_resource : bool
}.

(** A [GstBuffer]: its memories, the surface that [gst_buffer_map]
    exposes when it is an NVMM buffer, and the planes that
    [gst_video_frame_map] exposes, with [GST_MAP_CUDA] or without. *)
Record GstBuffer := mkBuffer {
  buf_id : nat;
  memories : list GstMemory;
  nvmm_surface : NvBufSurface;
  frame_planes : bool -> list FramePlane
}.

Inductive CapsFeature :=
| GST_CAPS_FEATURE_MEMORY_SYSTEM_MEMORY
| GST_CAPS_FEATURE_MEMORY_CUDA_MEMORY
| GST_CAPS_FEATURE_MEMORY_CUDA_NVMM_MEMORY
| GST_CAPS_FEATURE_MEMORY_GL_MEMORY.

Definition is_nvmm_feature (f : CapsFeature) : bool :=
  match f with GST_CAPS_FEATURE_MEMORY_CUDA_NVMM_MEMORY => true | _ => false end.

(** The features of the first structure of a [GstCaps]; [None] when
    [gst_caps_get_features] returns NULL. *)
Definition GstCaps := option (list CapsFeature).

(** The element: its own fields and the negotiated infos of its base
    class.  [gl_context] tells whether the pointer is non-NULL. *)
Record GstCudaMemoryCopy := mkSelf {
  in_nvmm : bool;
  out_nvmm : bool;
  gl_context : bool;
  in_info : GstVideoInfo;
  out_info : GstVideoInfo
}.

Record GstMapFlags := mkFlags {
  GST_MAP_READ : bool;
  GST_MAP_WRITE : bool;
  GST_MAP_CUDA : bool
}.

(** The three copy routines of the element. *)
Inductive CopyPath := PATH_SYSMEM | PATH_CUDA | PATH_GL_INTEROP.

(** Calls into GStreamer, CUDA and GL, in program order.  Buffers are
    named by [buf_id], the memories of the GL buffer and the graphics
    resources by their plane index; a call that can fail carries its
    outcome.  [enter] is a ghost event marking entry into one of the
    element's copy routines. *)
Inductive Event :=
| enter (p : CopyPath)
| gst_video_frame_map (buf : nat) (flags : GstMapFlags) (ok : bool)
| gst_video_frame_unmap (buf : nat)
| gst_video_frame_copy (dst src : nat) (ok : bool)
| gst_buffer_map (buf : nat) (ok : bool)
| gst_buffer_unmap (buf : nat)
| gst_cuda_context_push (ok : bool)
| gst_cuda_context_pop
| CuMemcpy2DAsync (plane : nat) (p : CUDA_MEMCPY2D) (ok : bool)
| CuStreamSynchronize
| CuGLGetDevices (ok : bool) (device_count : Z)
| gst_cuda_graphics_resource_new (plane : nat)
| gst_cuda_graphics_resource_free (plane : nat)
| gst_cuda_graphics_resource_register_gl_buffer (plane : nat) (ok : bool)
| gst_memory_map (plane : nat) (ok : bool)
| gst_memory_unmap (plane : nat)
| gst_mini_object_set_qdata (plane : nat)
| GST_MINI_OBJECT_FLAG_SET_need_upload (plane : nat)
| GST_MINI_OBJECT_FLAG_SET_need_download (plane : nat)
| gst_gl_memory_pbo_upload_transfer (plane : nat)
| gst_gl_memory_pbo_download_transfer (plane : nat)
| gst_cuda_graphics_resource_map (plane : nat) (read_only : bool) (ok : bool)
| CuGraphicsResourceGetMappedPointer (plane : nat) (ok : bool) (dev_ptr : Z)
| gst_cuda_graphics_resource_unmap (plane : nat).

(** The world outside the element: given the calls made so far, whether
    the next call succeeds, and the values it hands back. *)
Record Env := mkEnv {
  call_ok : list Event -> bool;
  gl_device_count : list Event -> Z;
  mapped_pointer : list Event -> Z
}.

(** ** Effects *)

(** A computation reads the calls made so far and yields its value with
    the calls it made itself; [None] is an abort on a failed [g_assert]. *)
Definition M (A : Type) : Type := list Event -> option (A * list Event).

#[global] Instance M_ret : MRet M := fun A a _ => Some (a, []).

#[global] Instance M_bind : MBind M := fun A B f m h =>
  match m h with
  | None => None
  | Some (a, t1) =>
      match f a (h ++ t1) with
      | None => None
      | Some (b, t2) => Some (b, t1 ++ t2)
      end
  end.

Definition emit (e : Event) : M unit := fun _ => Some (tt, [e]).

Definition g_assert (b : bool) : M unit :=
  fun _ => if b then Some (tt, []) else None.

(** ** Copy descriptors *)

Definition with_src_device (ty : CUmemorytype) (dev pitch_ : Z) (p : CUDA_MEMCPY2D)
  : CUDA_MEMCPY2D :=
  mkCopy2D (Some ty) (srcHost p) dev pitch_
           (dstMemoryType p) (dstHost p) (dstDevice p) (dstPitch p)
           (WidthInBytes p) (Height p).

Definition with_src_host (host pitch_ : Z) (p : CUDA_MEMCPY2D) : CUDA_MEMCPY2D :=
  mkCopy2D (Some CU_MEMORYTYPE_HOST) host (srcDevice p) pitch_
           (dstMemoryType p) (dstHost p) (dstDevice p) (dstPitch p)
           (WidthInBytes p) (Height p).

Definition with_dst_device (ty : CUmemorytype) (dev pitch_ : Z) (p : CUDA_MEMCPY2D)
  : CUDA_MEMCPY2D :=
  mkCopy2D (srcMemoryType p) (srcHost p) (srcDevice p) (srcPitch p)
           (Some ty) (dstHost p) dev pitch_
           (WidthInBytes p) (Height p).

Definition with_dst_host (host pitch_ : Z) (p : CUDA_MEMCPY2D) : CUDA_MEMCPY2D :=
  mkCopy2D (srcMemoryType p) (srcHost p) (srcDevice p) (srcPitch p)
           (Some CU_MEMORYTYPE_HOST) host (dstDevice p) pitch_
           (WidthInBytes p) (Height p).

Definition with_dims (w h : Z) (p : CUDA_MEMCPY2D) : CUDA_MEMCPY2D :=
  mkCopy2D (srcMemoryType p) (srcHost p) (srcDevice p) (srcPitch p)
           (dstMemoryType p) (dstHost p) (dstDevice p) (dstPitch p) w h.

(** Element [i] of a C array held in a list; zero outside the list. *)
Definition at_index (l : list Z) (i : nat) : Z := default 0 (l !! i).

(** [for (i = 0; i < n; i++) copy_params[i] = f i copy_params[i]]; the
    array has [GST_VIDEO_MAX_PLANES] elements and [n] does not exceed it
    for a valid video info. *)
Definition for_planes (n : nat) (f : nat -> CUDA_MEMCPY2D -> CUDA_MEMCPY2D)
    (copy_params : list CUDA_MEMCPY2D) : list CUDA_MEMCPY2D :=
  foldl (fun ps i => alter (f i) i ps) copy_params (seq 0 n).

(** The address and pitch that an NVMM surface gives plane [i]. *)
Definition nvmm_plane_address (sp : NvBufSurfaceParams) (i : nat) : Z :=
  wrapu64 (dataPtr sp + at_index (offset (planeParams sp)) i).

Definition nvmm_fill_address (ty : option CUmemorytype) (sp : NvBufSurfaceParams)
    (is_src : bool) (i : nat) (p : CUDA_MEMCPY2D) : CUDA_MEMCPY2D :=
  let addr := nvmm_plane_address sp i in
  let pt := at_index (pitch (planeParams sp)) i in
  match ty with
  | Some CU_MEMORYTYPE_HOST =>
      if is_src then with_src_host addr pt p else with_dst_host addr pt p
  | Some ty' =>
      if is_src then with_src_device ty' addr pt p else with_dst_device ty' addr pt p
  | None => p
  end.

Definition nvmm_fill_dims (sp : NvBufSurfaceParams) (i : nat) (p : CUDA_MEMCPY2D)
  : CUDA_MEMCPY2D :=
  with_dims (wrapu32 (at_index (width (planeParams sp)) i
                      * at_index (bytesPerPix (planeParams sp)) i))
            (at_index (height (planeParams sp)) i) p.

(** The CUDA memory type used for a surface's [memType]; [None] for the
    types the element rejects. *)
Definition nvmm_memory_type (t : NvBufSurfaceMemType) : option CUmemorytype :=
  match t with
  | NVBUF_MEM_DEFAULT | NVBUF_MEM_CUDA_DEVICE => Some CU_MEMORYTYPE_DEVICE
  | NVBUF_MEM_CUDA_PINNED => Some CU_MEMORYTYPE_HOST
  | NVBUF_MEM_CUDA_UNIFIED => Some CU_MEMORYTYPE_UNIFIED
  | _ => None
  end.

Definition frame_fill (planes : list FramePlane) (cuda : bool) (is_src : bool)
    (i : nat) (p : CUDA_MEMCPY2D) : CUDA_MEMCPY2D :=
  match planes !! i with
  | Some pl =>
      let data := wrapu64 (plane_data pl) in
      let stride := wrapu64 (plane_stride pl) in
      let p1 :=
        if is_src then
          if cuda then with_src_device CU_MEMORYTYPE_DEVICE data stride p
          else with_src_host data stride p
        else
          if cuda then with_dst_device CU_MEMORYTYPE_DEVICE data stride p
          else with_dst_host data stride p in
      with_dims (wrapu64 (wrap32 (comp_width pl * comp_pstride pl)))
                (wrapu64 (comp_height pl)) p1
  | None => p
  end.

(** What a call left mapped: [frame->buffer] and [map_info->data]. *)
Record MapState := mkMapState {
  frame_buffer_set : bool;
  map_info_data_set : bool
}.

Definition unmapped : MapState := mkMapState false false.

(** ** The element's routines *)

Section Element.

Variable env : Env.
(** Build configuration. *)
Variable HAVE_NVCODEC_NVMM : bool.
Variable HAVE_NVCODEC_GST_GL : bool.

(** A call whose outcome the environment decides. *)
Definition call (mk : bool -> Event) : M bool :=
  fun h => let ok := call_ok env h in Some (ok, [mk ok]).

(** [nvmm_init_once] is the result of [gst_cuda_nvmm_init_once]. *)
Definition caps_has_nvmm (caps : GstCaps) : bool :=
  match caps with
  | Some features => existsb is_nvmm_feature features
  | None => false
  end.

Definition gst_cuda_memory_copy_set_info (nvmm_init_once : bool)
    (self : GstCudaMemoryCopy) (incaps outcaps : GstCaps) : GstCudaMemoryCopy :=
  if HAVE_NVCODEC_NVMM then
    if nvmm_init_once then
      mkSelf (caps_has_nvmm incaps) (caps_has_nvmm outcaps)
             (gl_context self) (in_info self) (out_info self)
    else
      mkSelf false false (gl_context self) (in_info self) (out_info self)
  else self.

Definition gst_cuda_memory_copy_transform_sysmem (inbuf outbuf : GstBuffer) : M bool :=
  emit (enter PATH_SYSMEM);;
  in_ok ← call (gst_video_frame_map (buf_id inbuf) (mkFlags true false false));
  if negb in_ok then mret false
  else
    out_ok ← call (gst_video_frame_map (buf_id outbuf) (mkFlags false true false));
    if negb out_ok then
      emit (gst_video_frame_unmap (buf_id inbuf));;
      mret false
    else
      ret ← call (gst_video_frame_copy (buf_id outbuf) (buf_id inbuf));
      emit (gst_video_frame_unmap (buf_id outbuf));;
      emit (gst_video_frame_unmap (buf_id inbuf));;
      mret ret.

Definition gst_cuda_memory_copy_map_and_fill_copy2d (buf : GstBuffer)
    (info : GstVideoInfo) (mem_type : GstCudaMemoryCopyMemType) (is_src : bool)
    (copy_params : list CUDA_MEMCPY2D)
  : M (bool * MapState * list CUDA_MEMCPY2D) :=
  if HAVE_NVCODEC_NVMM && mem_type_eqb mem_type GST_CUDA_MEMORY_COPY_MEM_NVMM then
    mapped ← call (gst_buffer_map (buf_id buf));
    if negb mapped then mret (false, unmapped, copy_params)
    else
      let surface := nvmm_surface buf in
      match surfaceList surface with
      | None =>
          emit (gst_buffer_unmap (buf_id buf));;
          mret (false, unmapped, copy_params)
      | Some surface_params =>
          let plane_params := planeParams surface_params in
          if negb (Nat.eqb (num_planes plane_params) (info_n_planes info)) then
            emit (gst_buffer_unmap (buf_id buf));;
            mret (false, unmapped, copy_params)
          else
            match nvmm_memory_type (memType surface) with
            | None =>
                emit (gst_buffer_unmap (buf_id buf));;
                mret (false, unmapped, copy_params)
            | Some ty =>
                let n := num_planes plane_params in
                let ps1 := for_planes n
                             (nvmm_fill_address (Some ty) surface_params is_src)
                             copy_params in
                let ps2 := for_planes n (nvmm_fill_dims surface_params) ps1 in
                mret (true, mkMapState false true, ps2)
            end
      end
  else
    let cuda := mem_type_eqb mem_type GST_CUDA_MEMORY_COPY_MEM_CUDA in
    let map_flags := mkFlags is_src (negb is_src) cuda in
    mapped ← call (gst_video_frame_map (buf_id buf) map_flags);
    if negb mapped then mret (false, unmapped, copy_params)
    else
      let planes := frame_planes buf cuda in
      mret (true, mkMapState true false,
            for_planes (length planes) (frame_fill planes cuda is_src) copy_params).

Definition gst_cuda_memory_copy_unmap (buf : GstBuffer) (ms : MapState) : M unit :=
  (if frame_buffer_set ms then emit (gst_video_frame_unmap (buf_id buf))
   else mret tt);;
  (if map_info_data_set ms then emit (gst_buffer_unmap (buf_id buf))
   else mret tt).

(** The copy loop of [gst_cuda_memory_copy_transform_cuda], from plane
    [i] with [n] planes to go; [ret] is the value of the variable on
    entry. *)
Fixpoint copy_planes (copy_params : list CUDA_MEMCPY2D) (i n : nat) (ret : bool)
  : M bool :=
  match n with
  | O => mret ret
  | S n' =>
      ok ← call (CuMemcpy2DAsync i (default zero_copy2d (copy_params !! i)));
      if negb ok then mret false
      else copy_planes copy_params (S i) n' ok
  end.

Definition gst_cuda_memory_copy_transform_cuda (self : GstCudaMemoryCopy)
    (inbuf : GstBuffer) (in_type : GstCudaMemoryCopyMemType)
    (outbuf : GstBuffer) (out_type : GstCudaMemoryCopyMemType) : M bool :=
  emit (enter PATH_CUDA);;
  '(in_ok, in_state, params1) ←
    gst_cuda_memory_copy_map_and_fill_copy2d inbuf (in_info self) in_type true
      (replicate GST_VIDEO_MAX_PLANES zero_copy2d);
  if negb in_ok then mret false
  else
    '(out_ok, out_state, copy_params) ←
      gst_cuda_memory_copy_map_and_fill_copy2d outbuf (out_info self) out_type
        false params1;
    if negb out_ok then
      gst_cuda_memory_copy_unmap inbuf in_state;;
      mret false
    else
      pushed ← call gst_cuda_context_push;
      if negb pushed then
        emit gst_cuda_context_pop;;
        gst_cuda_memory_copy_unmap inbuf in_state;;
        gst_cuda_memory_copy_unmap outbuf out_state;;
        mret false
      else
        ret ← copy_planes copy_params 0 (info_n_planes (in_info self)) false;
        emit CuStreamSynchronize;;
        emit gst_cuda_context_pop;;
        gst_cuda_memory_copy_unmap inbuf in_state;;
        gst_cuda_memory_copy_unmap outbuf out_state;;
        mret ret.

Definition gst_cuda_memory_copy_ensure_gl_interop : M bool :=
  fun h =>
    let ok := call_ok env h in
    let device_count := gl_device_count env h in
    Some (ok && negb (device_count =? 0), [CuGLGetDevices ok device_count]).

Definition gst_is_cuda_memory (mem : GstMemory) : bool :=
  match mem_kind mem with MEM_CUDA => true | _ => false end.

Definition gst_is_gl_memory_pbo (mem : GstMemory) : bool :=
  match mem_kind mem with MEM_GL_PBO => true | _ => false end.

(** Returns whether the resource is non-NULL.  [mem] is [None] when
    [gst_buffer_peek_memory] finds no memory at the index. *)
Definition ensure_cuda_gl_graphics_resource (mem : option GstMemory) (i : nat)
  : M bool :=
  match mem with
  | None => mret false
  | Some m =>
      if negb (gst_is_gl_memory_pbo m) then mret false
      else if has_graphics_resource m then mret true
      else
        emit (gst_cuda_graphics_resource_new i);;
        mapped ← call (gst_memory_map i);
        if negb mapped then
          emit (gst_cuda_graphics_resource_free i);;
          mret false
        else
          registered ← call (gst_cuda_graphics_resource_register_gl_buffer i);
          if negb registered then
            emit (gst_memory_unmap i);;
            emit (gst_cuda_graphics_resource_free i);;
            mret false
          else
            emit (gst_memory_unmap i);;
            emit (gst_mini_object_set_qdata i);;
            mret true
  end.

(** First loop of [gl_copy_thread_func]: [false] stands for [goto out]. *)
Fixpoint gl_prepare_planes (gl_buf : GstBuffer) (pbo_to_cuda : bool) (i n : nat)
  : M bool :=
  match n with
  | O => mret true
  | S n' =>
      resource ← ensure_cuda_gl_graphics_resource (memories gl_buf !! i) i;
      if negb resource then mret false
      else
        (if negb pbo_to_cuda then
           emit (GST_MINI_OBJECT_FLAG_SET_need_upload i);;
           emit (GST_MINI_OBJECT_FLAG_SET_need_download i)
         else
           emit (gst_gl_memory_pbo_upload_transfer i);;
           emit (gst_gl_memory_pbo_download_transfer i));;
        gl_prepare_planes gl_buf pbo_to_cuda (S i) n'
  end.

Definition get_mapped_pointer (i : nat) : M (bool * Z) :=
  fun h =>
    let ok := call_ok env h in
    let dev_ptr := mapped_pointer env h in
    Some ((ok, dev_ptr), [CuGraphicsResourceGetMappedPointer i ok dev_ptr]).

(** Second loop of [gl_copy_thread_func]: [false] stands for [goto out]. *)
Fixpoint gl_copy_planes (self : GstCudaMemoryCopy) (pbo_to_cuda : bool)
    (copy_params : list CUDA_MEMCPY2D) (i n : nat) : M bool :=
  match n with
  | O => mret true
  | S n' =>
      cuda_resource ← call (gst_cuda_graphics_resource_map i pbo_to_cuda);
      if negb cuda_resource then mret false
      else
        '(got, dev_ptr) ← get_mapped_pointer i;
        if negb got then
          emit (gst_cuda_graphics_resource_unmap i);;
          mret false
        else
          let p := default zero_copy2d (copy_params !! i) in
          let p' :=
            if pbo_to_cuda then
              with_src_device CU_MEMORYTYPE_DEVICE dev_ptr
                (wrapu64 (at_index (info_stride (in_info self)) i)) p
            else
              with_dst_device CU_MEMORYTYPE_DEVICE dev_ptr
                (wrapu64 (at_index (info_stride (out_info self)) i)) p in
          copy_ret ← call (CuMemcpy2DAsync i p');
          emit (gst_cuda_graphics_resource_unmap i);;
          if negb copy_ret then mret false
          else gl_copy_planes self pbo_to_cuda (<[i := p']> copy_params) (S i) n'
  end.

(** Yields [data->ret]. *)
Definition gl_copy_thread_func (self : GstCudaMemoryCopy) (inbuf outbuf : GstBuffer)
    (pbo_to_cuda : bool) (cuda_mem_type : GstCudaMemoryCopyMemType) : M bool :=
  interop ← gst_cuda_memory_copy_ensure_gl_interop;
  if negb interop then mret false
  else
    let gl_buf := if pbo_to_cuda then inbuf else outbuf in
    let cuda_buf := if pbo_to_cuda then outbuf else inbuf in
    '(mapped, cuda_state, copy_params) ←
      gst_cuda_memory_copy_map_and_fill_copy2d cuda_buf
        (if pbo_to_cuda then out_info self else in_info self)
        cuda_mem_type (negb pbo_to_cuda)
        (replicate GST_VIDEO_MAX_PLANES zero_copy2d);
    if negb mapped then mret false
    else
      g_assert (Nat.leb (info_n_planes (in_info self)) (length (memories gl_buf)));;
      pushed ← call gst_cuda_context_push;
      if negb pushed then
        gst_cuda_memory_copy_unmap cuda_buf cuda_state;;
        mret false
      else
        prepared ← gl_prepare_planes gl_buf pbo_to_cuda 0
                     (info_n_planes (in_info self));
        ret ← (if negb prepared then mret false
               else gl_copy_planes self pbo_to_cuda copy_params 0
                      (info_n_planes (in_info self)));
        emit CuStreamSynchronize;;
        gst_cuda_memory_copy_unmap cuda_buf cuda_state;;
        mret ret.

(** [gst_gl_context_thread_add] runs the function on the GL thread and
    waits for it; the model calls it in place. *)
Definition gst_cuda_memory_copy_gl_interop (self : GstCudaMemoryCopy)
    (inbuf outbuf : GstBuffer) (pbo_to_cuda : bool)
    (cuda_mem_type : GstCudaMemoryCopyMemType) : M bool :=
  g_assert (mem_type_eqb cuda_mem_type GST_CUDA_MEMORY_COPY_MEM_CUDA
            || mem_type_eqb cuda_mem_type GST_CUDA_MEMORY_COPY_MEM_NVMM);;
  emit (enter PATH_GL_INTEROP);;
  gl_copy_thread_func self inbuf outbuf pbo_to_cuda cuda_mem_type.

(** The memory type chosen for one end of the transfer, and whether that
    end asks for the device copy; [nvmm] is [self->in_nvmm] or
    [self->out_nvmm]. *)
Definition classify (self : GstCudaMemoryCopy) (nvmm : bool) (mem : GstMemory)
  : GstCudaMemoryCopyMemType * bool :=
  if nvmm then (GST_CUDA_MEMORY_COPY_MEM_NVMM, true)
  else if gst_is_cuda_memory mem then (GST_CUDA_MEMORY_COPY_MEM_CUDA, true)
  else if HAVE_NVCODEC_GST_GL && gl_context self && gst_is_gl_memory_pbo mem
       then (GST_CUDA_MEMORY_COPY_MEM_GL, false)
  else (GST_CUDA_MEMORY_COPY_MEM_SYSTEM, false).

Definition flow_of (ret : bool) : GstFlowReturn :=
  if ret then GST_FLOW_OK else GST_FLOW_ERROR.

Definition gst_cuda_memory_copy_transform (self : GstCudaMemoryCopy)
    (inbuf outbuf : GstBuffer) : M GstFlowReturn :=
  match memories inbuf !! 0%nat with
  | None => mret GST_FLOW_ERROR
  | Some in_mem =>
      match memories outbuf !! 0%nat with
      | None => mret GST_FLOW_ERROR
      | Some out_mem =>
          let '(in_type, in_device) := classify self (in_nvmm self) in_mem in
          let '(out_type, out_device) := classify self (out_nvmm self) out_mem in
          let use_device_copy := in_device || out_device in
          if negb use_device_copy then
            ok ← gst_cuda_memory_copy_transform_sysmem inbuf outbuf;
            mret (flow_of ok)
          else if HAVE_NVCODEC_GST_GL
                  && mem_type_eqb in_type GST_CUDA_MEMORY_COPY_MEM_GL then
            ret ← gst_cuda_memory_copy_gl_interop self inbuf outbuf true out_type;
            ret' ← (if negb ret then
                      if mem_type_eqb out_type GST_CUDA_MEMORY_COPY_MEM_NVMM then
                        gst_cuda_memory_copy_transform_cuda self inbuf
                          GST_CUDA_MEMORY_COPY_MEM_SYSTEM outbuf out_type
                      else
                        ok ← gst_cuda_memory_copy_transform_sysmem inbuf outbuf;
                        mret (negb ok)
                    else mret ret);
            mret (flow_of ret')
          else if HAVE_NVCODEC_GST_GL
                  && mem_type_eqb out_type GST_CUDA_MEMORY_COPY_MEM_GL then
            ret ← gst_cuda_memory_copy_gl_interop self inbuf outbuf false in_type;
            ret' ← (if negb ret then
                      if mem_type_eqb in_type GST_CUDA_MEMORY_COPY_MEM_NVMM then
                        gst_cuda_memory_copy_transform_cuda self inbuf in_type
                          outbuf GST_CUDA_MEMORY_COPY_MEM_SYSTEM
                      else
                        ok ← gst_cuda_memory_copy_transform_sysmem inbuf outbuf;
                        mret (negb ok)
                    else mret ret);
            mret (flow_of ret')
          else
            ret ← gst_cuda_memory_copy_transform_cuda self inbuf in_type
                    outbuf out_type;
            ret' ← (if negb ret && negb (in_nvmm self) && negb (out_nvmm self) then
                      gst_cuda_memory_copy_transform_sysmem inbuf outbuf
                    else mret ret);
            mret (flow_of ret')
      end
  end.

End Element.

(** * Specification vocabulary for wlwindow.c *)

(** The destination rectangle the window computes for its video surface. *)
Definition letterbox_rect (window : GstWlWindow) : GstVideoRectangle :=
  video_rectangle (fst (gst_wl_window_resize_video_surface window false)).

(** [res] lies inside the bounding box of size [bw] x [bh] at the origin. *)
Definition contained_in (bw bh : Z) (res : GstVideoRectangle) : Prop :=
  0 <= rect_w res /\ 0 <= rect_h res /\
  0 <= rect_x res /\ 0 <= rect_y res /\
  rect_x res + rect_w res <= bw /\ rect_y res + rect_h res <= bh.

(** Centred up to the one pixel that integer halving can lose. *)
Definition centered_in (bw bh : Z) (res : GstVideoRectangle) : Prop :=
  rect_x res = (bw - rect_w res) / 2 /\ rect_y res = (bh - rect_h res) / 2.

(** The aspect ratio [cw : ch] is kept, the scaled side being rounded down
    to a whole pixel. *)
Definition aspect_within_rounding (cw ch : Z) (res : GstVideoRectangle) : Prop :=
  Z.abs (rect_w res * ch - rect_h res * cw) < Z.max cw ch.

(** The claim's reading: on each axis one edge of the box is touched. *)
Definition touches_edge_on_each_axis (bw bh : Z) (res : GstVideoRectangle) : Prop :=
  (rect_x res = 0 \/ rect_x res + rect_w res = bw) /\
  (rect_y res = 0 \/ rect_y res + rect_h res = bh).

(** What the code gives: on one axis both edges of the box are touched. *)
Definition spans_one_axis (bw bh : Z) (res : GstVideoRectangle) : Prop :=
  (rect_x res = 0 /\ rect_w res = bw) \/ (rect_y res = 0 /\ rect_h res = bh).

(** A window with content [vw] x [vh], render rectangle [bw] x [bh] at the
    origin, scale [k], no crop, and viewports present or not. *)
Definition sample_window (viewport : bool) (vw vh bw bh k : Z) : GstWlWindow :=
  mkWindow (mkDisplay viewport false) false viewport viewport false false
           (mkRect 0 0 bw bh) zero_rect vw vh 0 0 (-1) 0 k (-1) (-1) false.

Inductive Channel := chX | chR | chG | chB.

(** Component order in memory of the two GStreamer formats. *)
Definition format_bytes (f : GstVideoFormat) : list Channel :=
  match f with
  | GST_VIDEO_FORMAT_xRGB => [chX; chR; chG; chB]
  | GST_VIDEO_FORMAT_BGRx => [chB; chG; chR; chX]
  end.

(** A pixel read as a 32-bit word of the host, most significant byte
    first; XRGB8888 is the word x:R:G:B. *)
Definition host_word (big_endian : bool) (bytes : list Channel) : list Channel :=
  if big_endian then bytes else rev bytes.

Definition is_xrgb8888 (big_endian : bool) (f : GstVideoFormat) : Prop :=
  host_word big_endian (format_bytes f) = [chX; chR; chG; chB].

(** The [gst_buffer_memset] covers the whole allocation with zeros. *)
Definition zero_filled (b : ShmBuffer) : Prop :=
  shm_memset_offset b = 0 /\ shm_memset_val b = 0 /\
  shm_memset_size b = shm_alloc_size b.

(** The border filler buffer for a render rectangle [rw] x [rh]: 1x1 with
    a viewporter [vp], of the rectangle's size without. *)
Definition border_buffer_ok (big_endian vp : bool) (rw rh : Z) (b : GstWlBuffer) : Prop :=
  exists s, b = shm_buffer s /\ is_xrgb8888 big_endian (shm_format s) /\
    zero_filled s /\
    (if vp then shm_width s = 1 /\ shm_height s = 1
     else shm_width s = rw /\ shm_height s = rh).

Definition is_border_attach (r : WlRequest) : bool :=
  match r with
  | gst_wl_buffer_attach _ area_surface => true
  | _ => false
  end.

Definition border_attaches (t : list WlRequest) : list WlRequest :=
  List.filter is_border_attach t.



(** Sample instances of the library functions, for concrete runs. *)
Definition sample_scale_int_round (val num denom : Z) : Z :=
  (val * num + denom / 2) / denom.

Definition sample_info_size (f : GstVideoFormat) (width height : Z) : Z :=
  4 * width * height.

Definition sample_fixed_from_double (d : spec_float) : Z :=
  match d with
  | S754_finite false m e => Z.shiftl (Z.pos m) (e + 8)
  | S754_finite true m e => - Z.shiftl (Z.pos m) (e + 8)
  | _ => 0
  end.

(** A fresh window on a display with alpha compositing. *)
Definition blending_window : GstWlWindow :=
  mkWindow (mkDisplay false true) false false false true false
           zero_rect zero_rect 0 0 0 0 (-1) 0 1 (-1) (-1) false.

(** * Specification vocabulary for gstcudamemorycopy.c *)

(** A mapping held on a buffer: of its video frame, or of the buffer. *)
Inductive Mapping := FrameMapping (buf : nat) | BufferMapping (buf : nat).

#[global] Instance Mapping_eq_dec : EqDecision Mapping.
Proof. solve_decision. Defined.

Fixpoint remove_first (m : Mapping) (l : list Mapping) : list Mapping :=
  match l with
  | [] => []
  | m' :: l' => if decide (m = m') then l' else m' :: remove_first m l'
  end.

(** The mappings still held after the calls [t], [acc] being held before:
    a successful map adds one, an unmap releases one of its buffer. *)
Fixpoint outstanding (t : list Event) (acc : list Mapping) : list Mapping :=
  match t with
  | [] => acc
  | gst_video_frame_map b _ true :: t' => outstanding t' (FrameMapping b :: acc)
  | gst_video_frame_unmap b :: t' => outstanding t' (remove_first (FrameMapping b) acc)
  | gst_buffer_map b true :: t' => outstanding t' (BufferMapping b :: acc)
  | gst_buffer_unmap b :: t' => outstanding t' (remove_first (BufferMapping b) acc)
  | _ :: t' => outstanding t' acc
  end.

Definition maps_released (t : list Event) : Prop := outstanding t [] = [].

(** Every successful push of the CUDA context is followed by a pop. *)
Definition ctx_released (t : list Event) : Prop :=
  forall pre post,
    t = pre ++ gst_cuda_context_push true :: post ->
    In gst_cuda_context_pop post.

Definition is_failed_copy (e : Event) : bool :=
  match e with
  | CuMemcpy2DAsync _ _ false => true
  | _ => false
  end.

(** Whether one end of a device copy goes through the NVMM surface. *)
Definition uses_surface (have_nvmm : bool) (ty : GstCudaMemoryCopyMemType) : bool :=
  have_nvmm && mem_type_eqb ty GST_CUDA_MEMORY_COPY_MEM_NVMM.

(** The successful map of one end of a device copy, what it leaves
    mapped, and the calls that release it. *)
Definition acquire_event (have_nvmm : bool) (buf : GstBuffer)
    (ty : GstCudaMemoryCopyMemType) (is_src : bool) : Event :=
  if uses_surface have_nvmm ty then gst_buffer_map (buf_id buf) true
  else gst_video_frame_map (buf_id buf)
         (mkFlags is_src (negb is_src)
            (mem_type_eqb ty GST_CUDA_MEMORY_COPY_MEM_CUDA)) true.

Definition state_of (have_nvmm : bool) (ty : GstCudaMemoryCopyMemType) : MapState :=
  if uses_surface have_nvmm ty then mkMapState false true else mkMapState true false.

Definition release_events (have_nvmm : bool) (buf : GstBuffer)
    (ty : GstCudaMemoryCopyMemType) : list Event :=
  if uses_surface have_nvmm ty then [gst_buffer_unmap (buf_id buf)]
  else [gst_video_frame_unmap (buf_id buf)].

(** The traces of a map that fails. *)
Definition failed_map_trace (buf : GstBuffer) (t : list Event) : Prop :=
  t = [gst_buffer_map (buf_id buf) false] \/
  t = [gst_buffer_map (buf_id buf) true; gst_buffer_unmap (buf_id buf)] \/
  exists flags, t = [gst_video_frame_map (buf_id buf) flags false].

(** The transfer runs [gst_cuda_memory_copy_transform_sysmem] and nothing
    else. *)
Definition proceeds_on_sysmem_path (env : Env) (have_nvmm have_gl : bool)
    (self : GstCudaMemoryCopy) (inbuf outbuf : GstBuffer) : Prop :=
  forall h,
    gst_cuda_memory_copy_transform env have_nvmm have_gl self inbuf outbuf h
    = (ok ← gst_cuda_memory_copy_transform_sysmem env inbuf outbuf;
       mret (flow_of ok)) h.

(** A buffer carries the NVMM or GL tag while its subsystem is not
    available to the element: NVMM memory with [self->in_nvmm] (or
    [out_nvmm]) left [FALSE], or a GL PBO without a GL context. *)
Definition tagged_uninitialized (self : GstCudaMemoryCopy) (nvmm : bool)
    (mem : GstMemory) : Prop :=
  (mem_kind mem = MEM_NVMM /\ nvmm = false) \/
  (mem_kind mem = MEM_GL_PBO /\ gl_context self = false).

(** The source side of a descriptor comes from plane [i] of the surface:
    its pitch, and its address in the field that the memory type reads. *)
Definition src_from_surface (sp : NvBufSurfaceParams) (i : nat) (p : CUDA_MEMCPY2D)
  : Prop :=
  srcPitch p = at_index (pitch (planeParams sp)) i /\
  match srcMemoryType p with
  | Some CU_MEMORYTYPE_HOST => srcHost p = nvmm_plane_address sp i
  | Some _ => srcDevice p = nvmm_plane_address sp i
  | None => False
  end.

Definition dst_from_surface (sp : NvBufSurfaceParams) (i : nat) (p : CUDA_MEMCPY2D)
  : Prop :=
  dstPitch p = at_index (pitch (planeParams sp)) i /\
  match dstMemoryType p with
  | Some CU_MEMORYTYPE_HOST => dstHost p = nvmm_plane_address sp i
  | Some _ => dstDevice p = nvmm_plane_address sp i
  | None => False
  end.

Definition dims_from_surface (sp : NvBufSurfaceParams) (i : nat) (p : CUDA_MEMCPY2D)
  : Prop :=
  WidthInBytes p = wrapu32 (at_index (width (planeParams sp)) i
                            * at_index (bytesPerPix (planeParams sp)) i) /\
  Height p = at_index (height (planeParams sp)) i.

(** ** Sample data *)

Definition env_all_ok : Env := mkEnv (fun _ => true) (fun _ => 1) (fun _ => 4096).

(** No CUDA device is attached to the GL context; every other call
    succeeds. *)
Definition env_no_gl_device : Env :=
  mkEnv (fun _ => true) (fun _ => 0) (fun _ => 4096).

(** The copy of the second plane fails: a copy is refused when the call
    before it was the successful copy of plane 0. *)
Definition env_second_copy_fails : Env :=
  mkEnv (fun h => match last h with
                  | Some (CuMemcpy2DAsync O _ true) => false
                  | _ => true
                  end)
        (fun _ => 1) (fun _ => 4096).

Definition sample_info (n : nat) : GstVideoInfo :=
  mkInfo 64 48 1 1 false n (replicate n 64).

Definition sample_planes (w : Z) (n : nat) (cuda : bool) : list FramePlane :=
  replicate n (mkPlane (if cuda then 8192 else 4096) w w 1 48).

Definition no_surface : NvBufSurface := mkSurface NVBUF_MEM_DEFAULT None.

Definition sample_buffer (id : nat) (kind : MemoryKind) (n : nat) : GstBuffer :=
  mkBuffer id (replicate n (mkMemory kind false)) no_surface (sample_planes 64 n).

(** An NVMM buffer whose surface has [n] planes of 100 bytes by 50 rows,
    pitch 128. *)
Definition sample_surface (n : nat) : NvBufSurface :=
  mkSurface NVBUF_MEM_CUDA_DEVICE
    (Some (mkSurfaceParams 65536
             (mkPlaneParams n (replicate n 100) (replicate n 50)
                (replicate n 128) (map (fun i => Z.of_nat i * 6400) (seq 0 n))
                (replicate n 1)))).

Definition sample_nvmm_buffer (id : nat) (n : nat) : GstBuffer :=
  mkBuffer id [mkMemory MEM_NVMM false] (sample_surface n) (sample_planes 64 n).

Definition sample_self (nvmm_in nvmm_out gl : bool) (n : nat) : GstCudaMemoryCopy :=
  mkSelf nvmm_in nvmm_out gl (sample_info n) (sample_info n).

(** ** Specifications of computations *)

(** [m], run after the calls [h], returns, and its value and trace
    satisfy [Q]. *)
Definition returns {A} (m : M A) (h : list Event) (Q : A -> list Event -> Prop) : Prop :=
  exists a t, m h = Some (a, t) /\ Q a t.

(** If [m], run after the calls [h], returns (it may abort instead), its
    value and trace satisfy [Q]. *)
Definition yields {A} (m : M A) (h : list Event) (Q : A -> list Event -> Prop) : Prop :=
  forall a t, m h = Some (a, t) -> Q a t.

(** The descriptors that a successful map of [buf] leaves in the array. *)
Definition filled_by (have_nvmm : bool) (buf : GstBuffer) (info : GstVideoInfo)
    (ty : GstCudaMemoryCopyMemType) (is_src : bool)
    (cp cp' : list CUDA_MEMCPY2D) : Prop :=
  if uses_surface have_nvmm ty then
    exists sp mt,
      surfaceList (nvmm_surface buf) = Some sp /\
      num_planes (planeParams sp) = info_n_planes info /\
      nvmm_memory_type (memType (nvmm_surface buf)) = Some mt /\
      cp' = for_planes (num_planes (planeParams sp)) (nvmm_fill_dims sp)
              (for_planes (num_planes (planeParams sp))
                 (nvmm_fill_address (Some mt) sp is_src) cp)
  else
    let cuda := mem_type_eqb ty GST_CUDA_MEMORY_COPY_MEM_CUDA in
    cp' = for_planes (length (frame_planes buf cuda))
            (frame_fill (frame_planes buf cuda) cuda is_src) cp.

(** A call of the copy loop on the array [cp]. *)
Definition copy_of (cp : list CUDA_MEMCPY2D) (e : Event) : Prop :=
  exists k ok, e = CuMemcpy2DAsync k (default zero_copy2d (cp !! k)) ok.

(** The calls of the copy loop: successful copies, then perhaps one
    failed copy, on which the loop stops with [FALSE]. *)
Definition copy_loop_trace (cp : list CUDA_MEMCPY2D) (r : bool) (t : list Event) : Prop :=
  Forall (copy_of cp) t /\
  (Forall (fun e => is_failed_copy e = false) t \/
   (r = false /\ exists s k p,
       t = s ++ [CuMemcpy2DAsync k p false] /\
       Forall (fun e => is_failed_copy e = false) s)).

(** The traces of [gst_cuda_memory_copy_transform_cuda]: the three early
    exits, and the run through the copy loop. *)
Definition cuda_copy_trace (have_nvmm : bool) (self : GstCudaMemoryCopy)
    (inbuf : GstBuffer) (in_type : GstCudaMemoryCopyMemType)
    (outbuf : GstBuffer) (out_type : GstCudaMemoryCopyMemType)
    (r : bool) (t : list Event) : Prop :=
  let acq_in := acquire_event have_nvmm inbuf in_type true in
  let acq_out := acquire_event have_nvmm outbuf out_type false in
  let rel_in := release_events have_nvmm inbuf in_type in
  let rel_out := release_events have_nvmm outbuf out_type in
  (r = false /\ exists f, failed_map_trace inbuf f /\ t = enter PATH_CUDA :: f) \/
  (r = false /\ exists f, failed_map_trace outbuf f /\
                  t = enter PATH_CUDA :: acq_in :: f ++ rel_in) \/
  (r = false /\
   t = [enter PATH_CUDA; acq_in; acq_out;
        gst_cuda_context_push false; gst_cuda_context_pop] ++ rel_in ++ rel_out) \/
  (exists cp1 cp copies,
     filled_by have_nvmm inbuf (in_info self) in_type true
       (replicate GST_VIDEO_MAX_PLANES zero_copy2d) cp1 /\
     filled_by have_nvmm outbuf (out_info self) out_type false cp1 cp /\
     copy_loop_trace cp r copies /\
     t = [enter PATH_CUDA; acq_in; acq_out; gst_cuda_context_push true]
         ++ copies
         ++ [CuStreamSynchronize; gst_cuda_context_pop] ++ rel_in ++ rel_out).

(** The mapping that a successful map of one end of a device copy holds. *)
Definition mapping_of (have_nvmm : bool) (buf : GstBuffer)
    (ty : GstCudaMemoryCopyMemType) : Mapping :=
  if uses_surface have_nvmm ty then BufferMapping (buf_id buf)
  else FrameMapping (buf_id buf).

Definition is_pushed (e : Event) : bool :=
  match e with
  | gst_cuda_context_push true => true
  | _ => false
  end.

(** Maps and unmaps of frames and buffers. *)
Definition is_map_event (e : Event) : bool :=
  match e with
  | gst_video_frame_map _ _ _ | gst_video_frame_unmap _
  | gst_buffer_map _ _ | gst_buffer_unmap _ => true
  | _ => false
  end.

(** What the descriptor [p] of plane [i] owes to the surface of an NVMM
    buffer [buf] ([nv] tells whether the buffer is handled as NVMM): the
    address and pitch of its side and, when [with_dims], the extent. *)
Definition side_from_surface (nv : bool) (buf : GstBuffer) (is_src with_dims : bool)
    (i : nat) (p : CUDA_MEMCPY2D) : Prop :=
  nv = true ->
  forall sp, surfaceList (nvmm_surface buf) = Some sp ->
    (i < num_planes (planeParams sp))%nat -> (i < GST_VIDEO_MAX_PLANES)%nat ->
    (if is_src then src_from_surface sp i p else dst_from_surface sp i p) /\
    (with_dims = true -> dims_from_surface sp i p).

(** The descriptors handed to [CuMemcpy2DAsync] satisfy [D], and the
    staged copy is not entered. *)
Definition device_event (D : nat -> CUDA_MEMCPY2D -> Prop) (e : Event) : Prop :=
  match e with
  | CuMemcpy2DAsync i p _ => D i p
  | enter PATH_SYSMEM => False
  | _ => True
  end.

(** Descriptors of a transfer: the source side comes from the surface of
    an NVMM input, the destination side and the extent from the surface
    of an NVMM output. *)
Definition nvmm_descriptor (nv_in nv_out : bool) (inbuf outbuf : GstBuffer)
    (i : nat) (p : CUDA_MEMCPY2D) : Prop :=
  side_from_surface nv_in inbuf true false i p /\
  side_from_surface nv_out outbuf false true i p.

(** The plane count of the buffer's surface differs from the info's. *)
Definition plane_count_mismatch (buf : GstBuffer) (info : GstVideoInfo) : Prop :=
  exists sp, surfaceList (nvmm_surface buf) = Some sp /\
             num_planes (planeParams sp) <> info_n_planes info.

Definition same_src (p q : CUDA_MEMCPY2D) : Prop :=
  srcMemoryType p = srcMemoryType q /\ srcHost p = srcHost q /\
  srcDevice p = srcDevice q /\ srcPitch p = srcPitch q.

Definition same_dst (p q : CUDA_MEMCPY2D) : Prop :=
  dstMemoryType p = dstMemoryType q /\ dstHost p = dstHost q /\
  dstDevice p = dstDevice q /\ dstPitch p = dstPitch q.

Definition same_dims (p q : CUDA_MEMCPY2D) : Prop :=
  WidthInBytes p = WidthInBytes q /\ Height p = Height q.

(** Whatever was called before, if [m] returns then every call it made
    satisfies [P] and its value satisfies [R]. *)
Definition emits {A} (P : Event -> Prop) (m : M A) (R : A -> Prop) : Prop :=
  forall h, yields m h (fun a t => Forall P t /\ R a).

(** The descriptor the interop copy passes for a plane, [p] being the one
    prepared by the map of the CUDA-side buffer. *)
Definition gl_descriptor (pbo_to_cuda : bool) (dev_ptr stride : Z)
    (p : CUDA_MEMCPY2D) : CUDA_MEMCPY2D :=
  if pbo_to_cuda then with_src_device CU_MEMORYTYPE_DEVICE dev_ptr stride p
  else with_dst_device CU_MEMORYTYPE_DEVICE dev_ptr stride p.

Definition is_enter_sysmem (e : Event) : bool :=
  match e with
  | enter PATH_SYSMEM => true
  | _ => false
  end.

(** How many times the staged copy was attempted. *)
Definition staged_attempts (t : list Event) : nat :=
  length (List.filter is_enter_sysmem t).

(** The transfer starts with the direct device copy between the given
    memory types and falls back to the staged copy if that fails and no
    NVMM buffer is involved. *)
Definition proceeds_on_device_path (env : Env) (have_nvmm have_gl : bool)
    (self : GstCudaMemoryCopy) (inbuf : GstBuffer)
    (in_type : GstCudaMemoryCopyMemType) (outbuf : GstBuffer)
    (out_type : GstCudaMemoryCopyMemType) : Prop :=
  forall h,
    gst_cuda_memory_copy_transform env have_nvmm have_gl self inbuf outbuf h
    = (ret ← gst_cuda_memory_copy_transform_cuda env have_nvmm self inbuf in_type
               outbuf out_type;
       ret' ← (if negb ret && negb (in_nvmm self) && negb (out_nvmm self)
               then gst_cuda_memory_copy_transform_sysmem env inbuf outbuf
               else mret ret);
       mret (flow_of ret')) h.

(** Sample transfers. *)
Definition gl_to_cuda_self : GstCudaMemoryCopy := sample_self false false true 1.
Definition gl_input : GstBuffer := sample_buffer 1 MEM_GL_PBO 1.
Definition cuda_output : GstBuffer := sample_buffer 2 MEM_CUDA 1.

Definition no_gl_self : GstCudaMemoryCopy := sample_self false false false 1.

Definition nvmm_in_self : GstCudaMemoryCopy := sample_self true false false 1.
Definition nvmm_input : GstBuffer := sample_nvmm_buffer 1 1.

Definition nvmm_out_self : GstCudaMemoryCopy := sample_self false true false 1.
Definition cuda_input : GstBuffer := sample_buffer 1 MEM_CUDA 1.
Definition nvmm_output : GstBuffer := sample_nvmm_buffer 2 1.

(** [m] returns whatever was called before: it does not abort. *)
Definition total {A} (m : M A) : Prop :=
  forall h, returns m h (fun _ _ => True).
(** * Further vocabulary for wlwindow.c *)

Section WindowEvents.

Variable HAS_DCSS : bool.
Variable G_BYTE_ORDER_BIG_ENDIAN : bool.
Variable gst_util_uint64_scale_int_round : Z -> Z -> Z -> Z.
Variable wl_fixed_from_double : spec_float -> Z.
Variable gst_video_info_size : GstVideoFormat -> Z -> Z -> Z.

(** The [configure] handler of the shell surface listener; [edges] is
    only logged. *)
Definition handle_configure (window : GstWlWindow) (width height : Z)
  : GstWlWindow * list WlRequest :=
  if (width =? 0) || (height =? 0) then (window, [])
  else gst_wl_window_set_render_rectangle G_BYTE_ORDER_BIG_ENDIAN
         gst_video_info_size window 0 0 width height.

(** What happens to a window during its life: a call of a public
    operation, or a [configure] event of the compositor. *)
Inductive WindowEvent :=
| EvOp (op : WindowOp)
| EvConfigure (width height : Z).

Definition event_step (window : GstWlWindow) (ev : WindowEvent)
  : GstWlWindow * list WlRequest :=
  match ev with
  | EvOp op =>
      window_step HAS_DCSS G_BYTE_ORDER_BIG_ENDIAN gst_util_uint64_scale_int_round
        wl_fixed_from_double gst_video_info_size window op
  | EvConfigure width height => handle_configure window width height
  end.

Fixpoint event_run (window : GstWlWindow) (evs : list WindowEvent)
  : GstWlWindow * list WlRequest :=
  match evs with
  | [] => (window, [])
  | ev :: rest =>
      let '(w1, t1) := event_step window ev in
      let '(w2, t2) := event_run w1 rest in
      (w2, t1 ++ t2)
  end.

End WindowEvents.

(** ** The video subsurface *)

(** The mode of the video subsurface as the requests leave it:
    desynchronised, synchronised, or synchronised with a new position
    that the parent has not committed yet. *)
Inductive SubsurfaceMode := Desync | Sync | SyncMoved.

(** One request; [None] when it breaks the discipline: a position set
    while desynchronised, or a return to desynchronised mode before the
    parent committed the position. *)
Definition mode_step (m : SubsurfaceMode) (r : WlRequest) : option SubsurfaceMode :=
  match r with
  | wl_subsurface_set_sync => Some (match m with Desync => Sync | _ => m end)
  | wl_subsurface_set_position video_surface _ _ =>
      match m with Desync => None | _ => Some SyncMoved end
  | wl_surface_commit area_surface =>
      Some (match m with SyncMoved => Sync | _ => m end)
  | wl_subsurface_set_desync =>
      match m with SyncMoved => None | _ => Some Desync end
  | _ => Some m
  end.

Fixpoint mode_run (m : SubsurfaceMode) (t : list WlRequest) : option SubsurfaceMode :=
  match t with
  | [] => Some m
  | r :: t' =>
      match mode_step m r with
      | Some m' => mode_run m' t'
      | None => None
      end
  end.

(** The requests that leave the mode as it is, whatever it is. *)
Definition mode_neutral (r : WlRequest) : bool :=
  match r with
  | wl_subsurface_set_sync | wl_subsurface_set_desync
  | wl_subsurface_set_position video_surface _ _
  | wl_surface_commit area_surface => false
  | _ => true
  end.

(** ** Objects of the window *)

(** The request is sent on an object that [w] holds; the input region of
    the area is set for a toplevel window only. *)
Definition request_allowed (w : GstWlWindow) (r : WlRequest) : bool :=
  match r with
  | wl_subsurface_set_position area_surface _ _ => area_subsurface w
  | wp_viewport_set_destination area_surface _ _ => area_viewport w
  | wp_viewport_set_destination video_surface _ _ => video_viewport w
  | wp_viewport_set_source _ _ _ _ => video_viewport w
  | zwp_blending_v1_set_alpha _ | zwp_blending_v1_set_blending _ => blend_func w
  | wl_surface_set_input_region area_surface _ _ => gst_wl_window_is_toplevel w
  | _ => true
  end.

(** The fields that the window gets when it is made. *)
Definition same_objects (w w' : GstWlWindow) : Prop :=
  display w' = display w /\
  area_subsurface w' = area_subsurface w /\
  area_viewport w' = area_viewport w /\
  video_viewport w' = video_viewport w /\
  blend_func w' = blend_func w /\
  shell_surface w' = shell_surface w /\
  scale w' = scale w /\
  fullscreen_width w' = fullscreen_width w /\
  fullscreen_height w' = fullscreen_height w.

(** ** The video rectangle *)

(** Once the size of the video is known, the stored video rectangle is
    the one computed from that size and the current render rectangle. *)
Definition video_rectangle_inv (w : GstWlWindow) : Prop :=
  video_width w <> 0 ->
  video_rectangle w
  = gst_video_sink_center_rect
      (mkRect 0 0 (video_width w) (video_height w))
      (mkRect 0 0 (rect_w (render_rectangle w)) (rect_h (render_rectangle w)))
      (video_viewport w).

(** ** Rendering *)

Definition is_video_attach (r : WlRequest) : bool :=
  match r with
  | gst_wl_buffer_attach _ video_surface | wl_surface_attach_null video_surface => true
  | _ => false
  end.

Definition is_video_commit (r : WlRequest) : bool :=
  match r with
  | wl_surface_commit video_surface => true
  | _ => false
  end.

Fixpoint count_requests (f : WlRequest -> bool) (t : list WlRequest) : nat :=
  match t with
  | [] => O
  | r :: t' => if f r then S (count_requests f t') else count_requests f t'
  end.

(** * Further vocabulary for gstcudamemorycopy.c *)

(** The successful copy of plane [k] from the array [cp]. *)
Definition plane_copied (cp : list CUDA_MEMCPY2D) (k : nat) : Event :=
  CuMemcpy2DAsync k (default zero_copy2d (cp !! k)) true.

(** The successful copies of the [n] planes from plane [i] on, in order. *)
Definition copied_planes (cp : list CUDA_MEMCPY2D) (i n : nat) : list Event :=
  map (plane_copied cp) (seq i n).

(** The calls of the copy loop over planes [i .. i+n-1], with the value
    it leaves in [ret] ([ret0] on entry): all planes copied, or the
    planes before plane [i+k] copied and the copy of that one failed. *)
Definition copy_loop_outcome (cp : list CUDA_MEMCPY2D) (i n : nat) (ret0 r : bool)
    (t : list Event) : Prop :=
  (t = copied_planes cp i n /\ r = match n with O => ret0 | S _ => true end) \/
  (r = false /\ exists k, (k < n)%nat /\
     t = copied_planes cp i k
         ++ [CuMemcpy2DAsync (i + k)%nat
               (default zero_copy2d (cp !! (i + k)%nat)) false]).

(** The traces of [gst_cuda_memory_copy_transform_cuda], with the copy
    loop spelled out. *)
Definition cuda_copy_outcome (have_nvmm : bool) (self : GstCudaMemoryCopy)
    (inbuf : GstBuffer) (in_type : GstCudaMemoryCopyMemType)
    (outbuf : GstBuffer) (out_type : GstCudaMemoryCopyMemType)
    (r : bool) (t : list Event) : Prop :=
  let acq_in := acquire_event have_nvmm inbuf in_type true in
  let acq_out := acquire_event have_nvmm outbuf out_type false in
  let rel_in := release_events have_nvmm inbuf in_type in
  let rel_out := release_events have_nvmm outbuf out_type in
  (r = false /\ exists f, failed_map_trace inbuf f /\ t = enter PATH_CUDA :: f) \/
  (r = false /\ exists f, failed_map_trace outbuf f /\
                  t = enter PATH_CUDA :: acq_in :: f ++ rel_in) \/
  (r = false /\
   t = [enter PATH_CUDA; acq_in; acq_out;
        gst_cuda_context_push false; gst_cuda_context_pop] ++ rel_in ++ rel_out) \/
  (exists cp copies,
     copy_loop_outcome cp 0 (info_n_planes (in_info self)) false r copies /\
     t = [enter PATH_CUDA; acq_in; acq_out; gst_cuda_context_push true]
         ++ copies
         ++ [CuStreamSynchronize; gst_cuda_context_pop] ++ rel_in ++ rel_out).

Definition is_copy_event (e : Event) : bool :=
  match e with
  | CuMemcpy2DAsync _ _ _ => true
  | _ => false
  end.


(** A trace that leaves the frame and buffer mappings as it found them. *)
Definition maps_balanced (t : list Event) : Prop :=
  forall acc, outstanding t acc = acc.

(** The calls that the two loops of the interop copy make. *)
Definition is_gl_call (e : Event) : bool :=
  match e with
  | CuMemcpy2DAsync _ _ _
  | gst_cuda_graphics_resource_new _ | gst_cuda_graphics_resource_free _
  | gst_cuda_graphics_resource_register_gl_buffer _ _
  | gst_memory_map _ _ | gst_memory_unmap _
  | gst_mini_object_set_qdata _
  | GST_MINI_OBJECT_FLAG_SET_need_upload _
  | GST_MINI_OBJECT_FLAG_SET_need_download _
  | gst_gl_memory_pbo_upload_transfer _ | gst_gl_memory_pbo_download_transfer _
  | gst_cuda_graphics_resource_map _ _ _
  | CuGraphicsResourceGetMappedPointer _ _ _
  | gst_cuda_graphics_resource_unmap _ => true
  | _ => false
  end.

Fixpoint remove_first_nat (i : nat) (l : list nat) : list nat :=
  match l with
  | [] => []
  | j :: l' => if Nat.eqb i j then l' else j :: remove_first_nat i l'
  end.

(** The graphics resources still mapped into the device's address space
    after the calls [t], by plane. *)
Fixpoint mapped_resources (t : list Event) (acc : list nat) : list nat :=
  match t with
  | [] => acc
  | gst_cuda_graphics_resource_map i _ true :: t' => mapped_resources t' (i :: acc)
  | gst_cuda_graphics_resource_unmap i :: t' =>
      mapped_resources t' (remove_first_nat i acc)
  | _ :: t' => mapped_resources t' acc
  end.

(** The GL memories still mapped after the calls [t], by plane. *)
Fixpoint mapped_memories (t : list Event) (acc : list nat) : list nat :=
  match t with
  | [] => acc
  | gst_memory_map i true :: t' => mapped_memories t' (i :: acc)
  | gst_memory_unmap i :: t' => mapped_memories t' (remove_first_nat i acc)
  | _ :: t' => mapped_memories t' acc
  end.

(** What the loops of the interop copy keep: they make only their own
    calls and leave no graphics resource and no GL memory mapped. *)
Definition gl_body_ok (t : list Event) : Prop :=
  Forall (fun e => is_gl_call e = true) t /\
  (forall acc, mapped_resources t acc = acc) /\
  (forall acc, mapped_memories t acc = acc).

(** The traces of [ensure_cuda_gl_graphics_resource] for plane [i], with
    whether it yields a resource. *)
Definition ensure_resource_outcome (mem : option GstMemory) (i : nat) (r : bool)
    (t : list Event) : Prop :=
  (r = false /\ t = [] /\
   match mem with Some m => gst_is_gl_memory_pbo m = false | None => True end) \/
  (r = true /\ t = [] /\
   exists m, mem = Some m /\ gst_is_gl_memory_pbo m = true /\
             has_graphics_resource m = true) \/
  ((exists m, mem = Some m /\ gst_is_gl_memory_pbo m = true /\
              has_graphics_resource m = false) /\
   ((r = false /\
     t = [gst_cuda_graphics_resource_new i; gst_memory_map i false;
          gst_cuda_graphics_resource_free i]) \/
    (r = false /\
     t = [gst_cuda_graphics_resource_new i; gst_memory_map i true;
          gst_cuda_graphics_resource_register_gl_buffer i false;
          gst_memory_unmap i; gst_cuda_graphics_resource_free i]) \/
    (r = true /\
     t = [gst_cuda_graphics_resource_new i; gst_memory_map i true;
          gst_cuda_graphics_resource_register_gl_buffer i true;
          gst_memory_unmap i; gst_mini_object_set_qdata i]))).

(** The traces of [gst_cuda_memory_copy_gl_interop], [ok] and [count]
    being what [CuGLGetDevices] answers: the GL context has no CUDA
    device; the CUDA-side buffer cannot be mapped; the CUDA context cannot
    be pushed; or the two loops run, [body] being their calls. *)
Definition gl_interop_shape (have_nvmm : bool) (self : GstCudaMemoryCopy)
    (inbuf outbuf : GstBuffer) (pbo_to_cuda : bool)
    (cuda_mem_type : GstCudaMemoryCopyMemType) (ok : bool) (count : Z)
    (r : bool) (t : list Event) : Prop :=
  let cuda_buf := if pbo_to_cuda then outbuf else inbuf in
  let acq := acquire_event have_nvmm cuda_buf cuda_mem_type (negb pbo_to_cuda) in
  let rel := release_events have_nvmm cuda_buf cuda_mem_type in
  (r = false /\ (ok && negb (count =? 0) = false) /\
   t = [enter PATH_GL_INTEROP; CuGLGetDevices ok count]) \/
  (r = false /\ exists f, failed_map_trace cuda_buf f /\
     t = enter PATH_GL_INTEROP :: CuGLGetDevices ok count :: f) \/
  (r = false /\
   t = [enter PATH_GL_INTEROP; CuGLGetDevices ok count; acq;
        gst_cuda_context_push false] ++ rel) \/
  (exists body,
     ok && negb (count =? 0) = true /\
     gl_body_ok body /\
     (r = true ->
      forall k, (k < info_n_planes (in_info self))%nat ->
                exists p, In (CuMemcpy2DAsync k p true) body) /\
     t = [enter PATH_GL_INTEROP; CuGLGetDevices ok count; acq;
          gst_cuda_context_push true]
         ++ body ++ [CuStreamSynchronize] ++ rel).

Definition gl_interop_outcome (have_nvmm : bool) (self : GstCudaMemoryCopy)
    (inbuf outbuf : GstBuffer) (pbo_to_cuda : bool)
    (cuda_mem_type : GstCudaMemoryCopyMemType) (r : bool) (t : list Event) : Prop :=
  exists ok count,
    gl_interop_shape have_nvmm self inbuf outbuf pbo_to_cuda cuda_mem_type
      ok count r t.

(** The calls that map or unmap a graphics resource or a GL memory. *)
Definition touches_gl_mapping (e : Event) : bool :=
  match e with
  | gst_cuda_graphics_resource_map _ _ _ | gst_cuda_graphics_resource_unmap _
  | gst_memory_map _ _ | gst_memory_unmap _ => true
  | _ => false
  end.

(** A trace that leaves every mapping as it found it: of frames and
    buffers, of graphics resources and of GL memories. *)
Definition all_balanced (t : list Event) : Prop :=
  maps_balanced t /\
  (forall acc, mapped_resources t acc = acc) /\
  (forall acc, mapped_memories t acc = acc).

(** The staged copy copied the frame. *)
Definition frame_copied (inbuf outbuf : GstBuffer) (t : list Event) : Prop :=
  In (gst_video_frame_copy (buf_id outbuf) (buf_id inbuf) true) t.

(** There is a plane, and the copy of each of the [n] planes was enqueued
    with success. *)
Definition planes_copied (n : nat) (t : list Event) : Prop :=
  (0 < n)%nat /\
  forall k, (k < n)%nat -> exists p, In (CuMemcpy2DAsync k p true) t.

(** The calls of the direct device copy. *)
Definition is_device_path_event (e : Event) : bool :=
  match e with
  | enter PATH_CUDA
  | gst_video_frame_map _ _ _ | gst_video_frame_unmap _
  | gst_buffer_map _ _ | gst_buffer_unmap _
  | gst_cuda_context_push _ | gst_cuda_context_pop
  | CuMemcpy2DAsync _ _ _ | CuStreamSynchronize => true
  | _ => false
  end.

Fixpoint count_calls (f : Event -> bool) (t : list Event) : nat :=
  match t with
  | [] => O
  | e :: t' => if f e then S (count_calls f t') else count_calls f t'
  end.

Definition is_context_push (e : Event) : bool :=
  match e with gst_cuda_context_push _ => true | _ => false end.

Definition is_context_pop (e : Event) : bool :=
  match e with gst_cuda_context_pop => true | _ => false end.

(** The calls that reach the NvBufSurface of a buffer. *)
Definition is_surface_event (e : Event) : bool :=
  match e with
  | gst_buffer_map _ _ | gst_buffer_unmap _ => true
  | _ => false
  end.

(** A surface is reached only in a build with NVMM, and only that of a
    buffer whose end of the element is flagged as NVMM. *)
Definition surface_access_ok (have_nvmm nv_in nv_out : bool)
    (inbuf outbuf : GstBuffer) (e : Event) : Prop :=
  match e with
  | gst_buffer_map id _ | gst_buffer_unmap id =>
      have_nvmm = true /\
      ((nv_in = true /\ id = buf_id inbuf) \/ (nv_out = true /\ id = buf_id outbuf))
  | _ => True
  end.

(** [P] admits the surface calls on [buf] if its end goes through the
    surface. *)
Definition surface_side (P : Event -> Prop) (have_nvmm : bool) (buf : GstBuffer)
    (ty : GstCudaMemoryCopyMemType) : Prop :=
  uses_surface have_nvmm ty = true ->
  forall ok, P (gst_buffer_map (buf_id buf) ok) /\ P (gst_buffer_unmap (buf_id buf)).
(** * Properties of wlwindow.c *)

(** ** Integer helpers *)

Lemma wrap32_id (z : Z) : int_range z -> wrap32 z = z.
Proof.
  unfold int_range, INT_MIN, INT_MAX, wrap32. intros Hz.
  rewrite Z.mod_small; lia.
Qed.

Lemma c_div_2_nonneg (a : Z) : 0 <= a <= INT_MAX -> c_div a 2 = a / 2.
Proof.
  intros Ha. unfold c_div.
  rewrite Z.quot_div_nonneg by lia.
  apply wrap32_id. unfold int_range, INT_MIN, INT_MAX in *.
  assert (0 <= a / 2) by (apply Z.div_pos; lia).
  assert (a / 2 <= a) by (apply Z.div_le_upper_bound; lia).
  lia.
Qed.

Lemma center_offset (a : Z) :
  0 <= a <= INT_MAX -> wrap32 (0 + c_div a 2) = a / 2.
Proof.
  intros Ha. rewrite c_div_2_nonneg by exact Ha. simpl.
  apply wrap32_id. unfold int_range, INT_MIN, INT_MAX in *.
  assert (0 <= a / 2) by (apply Z.div_pos; lia).
  assert (a / 2 <= a) by (apply Z.div_le_upper_bound; lia).
  lia.
Qed.

(** ** Letterboxing geometry *)

(** C2, as stated, fails: a 1920x1080 frame in a 1280x1280 box is placed
    at (0, 280) with size 1280x720 and touches neither the top nor the
    bottom edge. *)
Lemma letterbox_touches_each_axis_counterexample :
  letterbox_rect (sample_window true 1920 1080 1280 1280 1) = mkRect 0 280 1280 720 /\
  ~ (contained_in 1280 1280 (letterbox_rect (sample_window true 1920 1080 1280 1280 1)) /\
     centered_in 1280 1280 (letterbox_rect (sample_window true 1920 1080 1280 1280 1)) /\
     aspect_within_rounding 1920 1080 (letterbox_rect (sample_window true 1920 1080 1280 1280 1)) /\
     touches_edge_on_each_axis 1280 1280
       (letterbox_rect (sample_window true 1920 1080 1280 1280 1))).
Proof.
  assert (E : letterbox_rect (sample_window true 1920 1080 1280 1280 1)
              = mkRect 0 280 1280 720) by (vm_compute; reflexivity).
  split; [exact E|]. rewrite E.
  unfold touches_edge_on_each_axis. simpl.
  intros (_ & _ & _ & _ & [H | H]); lia.
Qed.

(** C2 (amended): with a video viewport, positive content and box sizes,
    the destination rectangle lies inside the box, is centred, keeps the
    content's aspect ratio up to rounding, and spans the box on one axis. *)
Theorem letterbox_geometry (window : GstWlWindow) :
  video_viewport window = true ->
  0 < video_width window -> 0 < video_height window ->
  0 < rect_w (render_rectangle window) <= INT_MAX ->
  0 < rect_h (render_rectangle window) <= INT_MAX ->
  let bw := rect_w (render_rectangle window) in
  let bh := rect_h (render_rectangle window) in
  let res := letterbox_rect window in
  contained_in bw bh res /\
  centered_in bw bh res /\
  aspect_within_rounding (video_width window) (video_height window) res /\
  spans_one_axis bw bh res.
Proof.
  intros Hvp Hcw Hch Hbw Hbh. cbv zeta.
  unfold letterbox_rect, gst_wl_window_resize_video_surface. simpl.
  rewrite Hvp. unfold gst_video_sink_center_rect. simpl.
  set (cw := video_width window) in *. set (ch := video_height window) in *.
  set (bw := rect_w (render_rectangle window)) in *.
  set (bh := rect_h (render_rectangle window)) in *.
  destruct (Z.ltb_spec (bw * ch) (cw * bh)) as [Hwide | Hnw].
  - (* full width *)
    rewrite Z.quot_div_nonneg by nia.
    set (rh := bw * ch / cw).
    assert (Hrh : rh * cw <= bw * ch < (rh + 1) * cw).
    { unfold rh. pose proof (Z.div_mod (bw * ch) cw ltac:(lia)).
      pose proof (Z.mod_pos_bound (bw * ch) cw ltac:(lia)). nia. }
    assert (Hrh0 : 0 <= rh) by (apply Z.div_pos; nia).
    assert (Hrhb : rh <= bh) by nia.
    rewrite center_offset by lia.
    assert (0 <= (bh - rh) / 2) by (apply Z.div_pos; lia).
    assert (2 * ((bh - rh) / 2) <= bh - rh)
      by (apply Z.mul_div_le; lia).
    unfold contained_in, centered_in, aspect_within_rounding, spans_one_axis; simpl.
    split; [lia|]. split; [split; [rewrite Z.sub_diag; reflexivity | reflexivity]|].
    split; [apply Z.abs_lt; lia | left; lia].
  - destruct (Z.ltb_spec (cw * bh) (bw * ch)) as [Htall | Heq].
    + (* full height *)
      rewrite Z.quot_div_nonneg by nia.
      set (rw := bh * cw / ch).
      assert (Hrw : rw * ch <= bh * cw < (rw + 1) * ch).
      { unfold rw. pose proof (Z.div_mod (bh * cw) ch ltac:(lia)).
        pose proof (Z.mod_pos_bound (bh * cw) ch ltac:(lia)). nia. }
      assert (Hrw0 : 0 <= rw) by (apply Z.div_pos; nia).
      assert (Hrwb : rw <= bw) by nia.
      rewrite center_offset by lia.
      assert (0 <= (bw - rw) / 2) by (apply Z.div_pos; lia).
      assert (2 * ((bw - rw) / 2) <= bw - rw)
        by (apply Z.mul_div_le; lia).
      unfold contained_in, centered_in, aspect_within_rounding, spans_one_axis; simpl.
      split; [lia|]. split; [split; [reflexivity | rewrite Z.sub_diag; reflexivity]|].
      split; [apply Z.abs_lt; lia | right; lia].
    + (* same aspect ratio: the box itself *)
      unfold contained_in, centered_in, aspect_within_rounding, spans_one_axis; simpl.
      rewrite !Z.sub_diag. simpl.
      split; [lia|]. split; [split; reflexivity|].
      split; [apply Z.abs_lt; nia | left; lia].
Qed.

Lemma letterbox_geometry_witness :
  let window := sample_window true 1920 1080 1280 1280 1 in
  contained_in 1280 1280 (letterbox_rect window) /\
  centered_in 1280 1280 (letterbox_rect window) /\
  aspect_within_rounding 1920 1080 (letterbox_rect window) /\
  spans_one_axis 1280 1280 (letterbox_rect window).
Proof.
  apply (letterbox_geometry (sample_window true 1920 1080 1280 1280 1));
    simpl; unfold INT_MAX; lia || reflexivity.
Defined.

Section WindowProperties.

Variable HAS_DCSS : bool.
Variable G_BYTE_ORDER_BIG_ENDIAN : bool.
Variable gst_util_uint64_scale_int_round : Z -> Z -> Z -> Z.
Variable wl_fixed_from_double : spec_float -> Z.
Variable gst_video_info_size : GstVideoFormat -> Z -> Z -> Z.

Local Abbreviation set_alpha := (gst_wl_window_set_alpha wl_fixed_from_double).
Local Abbreviation update_borders :=
  (gst_wl_window_update_borders G_BYTE_ORDER_BIG_ENDIAN gst_video_info_size).
Local Abbreviation set_render_rectangle :=
  (gst_wl_window_set_render_rectangle G_BYTE_ORDER_BIG_ENDIAN gst_video_info_size).
Local Abbreviation step :=
  (window_step HAS_DCSS G_BYTE_ORDER_BIG_ENDIAN gst_util_uint64_scale_int_round
     wl_fixed_from_double gst_video_info_size).
Local Abbreviation run :=
  (window_run HAS_DCSS G_BYTE_ORDER_BIG_ENDIAN gst_util_uint64_scale_int_round
     wl_fixed_from_double gst_video_info_size).

(** ** Alpha *)

Lemma SFeqb_not_SFltb (a b : spec_float) : SFeqb a b = true -> SFltb a b = false.
Proof.
  unfold SFeqb, SFltb. destruct (SFcompare a b) as [[ | | ]|]; congruence.
Qed.

(** C7: on a window that holds a blending object (one is created exactly
    when the display offers alpha compositing), [set_alpha] records the
    coefficient and then selects the from-source equation for a value
    below 1.0 and the premultiplied equation for the value 1.0. *)
Theorem set_alpha_selects_equation (window : GstWlWindow) (alpha : spec_float) :
  blend_func window = true ->
  (SFltb alpha float_one = true ->
   set_alpha (Some window) alpha =
     [zwp_blending_v1_set_alpha (wl_fixed_from_double alpha);
      zwp_blending_v1_set_blending ZWP_BLENDING_V1_BLENDING_EQUATION_FROMSOURCE]) /\
  (SFeqb alpha float_one = true ->
   set_alpha (Some window) alpha =
     [zwp_blending_v1_set_alpha (wl_fixed_from_double alpha);
      zwp_blending_v1_set_blending ZWP_BLENDING_V1_BLENDING_EQUATION_PREMULTIPLIED]).
Proof.
  intros Hb. unfold gst_wl_window_set_alpha. rewrite Hb. split; intros H.
  - rewrite H. reflexivity.
  - rewrite (SFeqb_not_SFltb _ _ H). reflexivity.
Qed.

(** ** Source crop *)

(** Resetting the crop writes the sentinel and touches nothing else. *)
Lemma set_source_crop_none_fields (window : GstWlWindow) :
  gst_wl_window_set_source_crop window None =
  set_src (src_x window) (src_y window) (-1) (src_height window) window.
Proof. reflexivity. Qed.

(** With a scale of one the sentinel suppresses the source viewport. *)
Lemma source_crop_reset_scale_one (window : GstWlWindow) (commit : bool) :
  scale window = 1 ->
  forall sx sy sw sh,
    ~ In (wp_viewport_set_source sx sy sw sh)
         (snd (gst_wl_window_resize_video_surface
                 (gst_wl_window_set_source_crop window None) commit)).
Proof.
  intros Hs sx sy sw sh. unfold gst_wl_window_resize_video_surface. simpl.
  rewrite Hs.
  replace (wl_fixed_from_int (c_div (-1) 1) =? wl_fixed_from_int (-1)) with true
    by (vm_compute; reflexivity).
  simpl. rewrite !in_app_iff.
  unfold gst_wl_window_is_toplevel.
  destruct (video_viewport window), commit, (shell_surface window);
    simpl; intuition discriminate.
Qed.

(** With any larger scale the division turns the sentinel into zero, and
    a source viewport of width zero is set. *)
Lemma source_crop_reset_larger_scale (window : GstWlWindow) (commit : bool) :
  video_viewport window = true -> 2 <= scale window <= INT_MAX ->
  exists sx sy sh,
    In (wp_viewport_set_source sx sy 0 sh)
       (snd (gst_wl_window_resize_video_surface
               (gst_wl_window_set_source_crop window None) commit)).
Proof.
  intros Hv Hs. unfold gst_wl_window_resize_video_surface. simpl. rewrite Hv.
  assert (Hq : c_div (-1) (scale window) = 0).
  { unfold c_div. change (-1) with (- (1)).
    rewrite Z.quot_opp_l by lia. rewrite Z.quot_small by lia. reflexivity. }
  rewrite Hq. simpl. eexists _, _, _. right. left. reflexivity.
Qed.


(** ** Border buffer *)




Lemma border_attaches_app t1 t2 :
  border_attaches (t1 ++ t2) = border_attaches t1 ++ border_attaches t2.
Proof. apply List.filter_app. Qed.

Lemma resize_no_border_attach window commit :
  border_attaches (snd (gst_wl_window_resize_video_surface window commit)) = [].
Proof.
  unfold gst_wl_window_resize_video_surface. simpl.
  unfold gst_wl_window_is_toplevel.
  destruct (video_viewport window), commit, (shell_surface window);
    simpl; try reflexivity;
    destruct (negb (wl_fixed_from_int (c_div (src_width window) (scale window))
                    =? wl_fixed_from_int (-1))); reflexivity.
Qed.

Lemma resize_fields window commit :
  let w' := fst (gst_wl_window_resize_video_surface window commit) in
  display w' = display window /\ no_border_update w' = no_border_update window /\
  video_width w' = video_width window /\
  render_rectangle w' = render_rectangle window.
Proof. simpl. repeat split. Qed.

Lemma format_is_xrgb8888 :
  is_xrgb8888 G_BYTE_ORDER_BIG_ENDIAN (if G_BYTE_ORDER_BIG_ENDIAN
               then GST_VIDEO_FORMAT_xRGB else GST_VIDEO_FORMAT_BGRx).
Proof. unfold is_xrgb8888. destruct G_BYTE_ORDER_BIG_ENDIAN; reflexivity. Qed.

(** What [gst_wl_window_update_borders] does, by the flag. *)
Lemma update_borders_skip window :
  no_border_update window = true -> update_borders window = (window, []).
Proof. intros H. unfold gst_wl_window_update_borders. rewrite H. reflexivity. Qed.

Lemma update_borders_attach window :
  no_border_update window = false ->
  exists b,
    snd (update_borders window) = [gst_wl_buffer_attach b area_surface] /\
    border_buffer_ok G_BYTE_ORDER_BIG_ENDIAN (viewporter (display window))
      (rect_w (render_rectangle window)) (rect_h (render_rectangle window)) b /\
    no_border_update (fst (update_borders window)) = viewporter (display window) /\
    display (fst (update_borders window)) = display window /\
    video_width (fst (update_borders window)) = video_width window /\
    render_rectangle (fst (update_borders window)) = render_rectangle window.
Proof.
  intros H. unfold gst_wl_window_update_borders. rewrite H.
  destruct (viewporter (display window)) eqn:Hv; simpl.
  - eexists. split; [reflexivity|]. rewrite ?Hv.
    repeat split; try reflexivity.
    eexists. split; [reflexivity|]. simpl.
    split; [apply format_is_xrgb8888|]. repeat split.
  - eexists. split; [reflexivity|]. rewrite ?Hv, ?H.
    repeat split; try reflexivity.
    eexists. split; [reflexivity|]. simpl.
    split; [apply format_is_xrgb8888|]. repeat split.
Qed.

(** [gst_wl_window_set_render_rectangle] attaches to the border surface
    what [gst_wl_window_update_borders] attaches, and keeps its flag. *)
Lemma set_render_rectangle_borders window rx ry rw rh :
  let w1 := set_render_rectangle_field (mkRect rx ry rw rh) window in
  let r := set_render_rectangle window rx ry rw rh in
  border_attaches (snd r) = border_attaches (snd (update_borders w1)) /\
  no_border_update (fst r) = no_border_update (fst (update_borders w1)) /\
  display (fst r) = display (fst (update_borders w1)).
Proof.
  cbv zeta. unfold gst_wl_window_set_render_rectangle.
  destruct (update_borders _) as [w2 t3] eqn:E.
  pose proof (resize_no_border_attach w2 true) as Hr.
  pose proof (resize_fields w2 true) as (Hd & Hn & Hw & _).
  destruct (gst_wl_window_resize_video_surface w2 true) as [w t].
  cbn [fst snd] in *.
  destruct (negb (video_width w2 =? 0)) eqn:Hv; cbn [fst snd].
  - rewrite !border_attaches_app. cbn [border_attaches List.filter is_border_attach].
    fold (border_attaches t). rewrite Hr, Hw, Hv.
    destruct (area_subsurface _), (area_viewport _); cbn; rewrite ?app_nil_r; auto.
  - rewrite Hv. rewrite !border_attaches_app.
    destruct (area_subsurface _), (area_viewport _); cbn; rewrite ?app_nil_r; auto.
Qed.

Lemma render_borders window buffer info :
  let r := gst_wl_window_render HAS_DCSS gst_util_uint64_scale_int_round
             window buffer info in
  border_attaches (snd r) = [] /\
  no_border_update (fst r) = no_border_update window /\
  display (fst r) = display window.
Proof.
  cbv zeta. unfold gst_wl_window_render.
  destruct info as [i|].
  - match goal with
    | |- context [gst_wl_window_resize_video_surface ?w0 false] =>
        pose proof (resize_no_border_attach w0 false) as Hr;
        pose proof (resize_fields w0 false) as (Hd & Hn & _);
        destruct (gst_wl_window_resize_video_surface w0 false) as [w t]
    end.
    cbn [fst snd] in *. rewrite !border_attaches_app, Hr.
    unfold gst_wl_window_set_opaque.
    destruct buffer, (info_has_alpha i), HAS_DCSS; cbn; auto.
  - destruct buffer; cbn; auto.
Qed.

(** A step never clears the flag, and attaches no border buffer once it
    is set. *)
Lemma step_borders window op :
  let r := step window op in
  display (fst r) = display window /\
  (no_border_update window = true ->
   no_border_update (fst r) = true /\ border_attaches (snd r) = []) /\
  (no_border_update window = false ->
   (border_attaches (snd r) = [] /\ no_border_update (fst r) = false) \/
   (exists b, border_attaches (snd r) = [gst_wl_buffer_attach b area_surface] /\
      no_border_update (fst r) = viewporter (display window) /\
      match op with
      | OpSetRenderRectangle _ _ rw rh =>
          border_buffer_ok G_BYTE_ORDER_BIG_ENDIAN (viewporter (display window)) rw rh b
      | _ => False
      end)).
Proof.
  cbv zeta. destruct op as [rx ry rw rh | buffer info | crop | alpha];
    unfold window_step.
  - destruct (set_render_rectangle_borders window rx ry rw rh) as (Ha & Hf & Hd).
    rewrite Ha, Hf, Hd. clear Ha Hf Hd.
    set (w1 := set_render_rectangle_field (mkRect rx ry rw rh) window).
    split; [|split]; intros.
    + destruct (no_border_update w1) eqn:Hn.
      * rewrite (update_borders_skip w1 Hn). reflexivity.
      * destruct (update_borders_attach w1 Hn) as (b & _ & _ & _ & Hd & _).
        rewrite Hd. reflexivity.
    + rewrite (update_borders_skip w1) by assumption. auto.
    + right. destruct (update_borders_attach w1) as (b & Ht & Hok & Hf & _);
        [assumption|].
      exists b. rewrite Ht, Hf. auto.
  - destruct (render_borders window buffer info) as (Ha & Hf & Hd).
    rewrite Ha, Hf, Hd. split; [reflexivity|]. split; intros H; [auto | left; auto].
  - simpl. split; [destruct crop; reflexivity|].
    split; intros H; [|left]; destruct crop; simpl; auto.
  - simpl. split; [reflexivity|].
    assert (border_attaches (set_alpha (Some window) alpha) = []).
    { unfold gst_wl_window_set_alpha. destruct (blend_func window); reflexivity. }
    split; intros; [auto | left; auto].
Qed.





Lemma run_attach_count window ops :
  (no_border_update window = true ->
   border_attaches (snd (run window ops)) = []) /\
  (viewporter (display window) = true ->
   (length (border_attaches (snd (run window ops))) <= 1)%nat).
Proof.
  revert window. induction ops as [|op ops IH]; intros window; simpl;
    [split; intros; simpl; auto|].
  pose proof (step_borders window op) as (Hd & Ht & Hf). cbv zeta in *.
  destruct (step window op) as [w1 t1]. simpl in *.
  destruct (IH w1) as (IH1 & IH2).
  destruct (run w1 ops) as [w2 t2]. simpl in *.
  rewrite border_attaches_app. split.
  - intros Hn. destruct (Ht Hn) as (Hn1 & ->). simpl. auto.
  - intros Hv. rewrite length_app.
    destruct (no_border_update window) eqn:Hn.
    + destruct (Ht eq_refl) as (Hn1 & ->). rewrite (IH1 Hn1). simpl. lia.
    + destruct (Hf eq_refl) as [(-> & _) | (b & -> & Hn1 & _)].
      * simpl. apply IH2. congruence.
      * rewrite Hv in Hn1. rewrite (IH1 Hn1). simpl. lia.
Qed.

(** C10: on a display with a viewporter the border buffer is built at
    most once in a window's life.  The first [set_render_rectangle] sets
    the flag (attaching the 1x1 buffer if none was attached before); the
    flag is never cleared; and while it is set no operation attaches a
    border buffer, the border surface being resized through its viewport
    alone. *)
Theorem border_update_at_most_once (window0 : GstWlWindow) (ops : list WindowOp) :
  viewporter (display window0) = true ->
  (length (border_attaches (snd (run window0 ops))) <= 1)%nat /\
  (forall rx ry rw rh,
     let r := set_render_rectangle window0 rx ry rw rh in
     no_border_update (fst r) = true /\
     (no_border_update window0 = false ->
      exists b, border_attaches (snd r) = [gst_wl_buffer_attach b area_surface] /\
                border_buffer_ok G_BYTE_ORDER_BIG_ENDIAN true rw rh b)) /\
  (forall window op,
     no_border_update window = true ->
     no_border_update (fst (step window op)) = true /\
     border_attaches (snd (step window op)) = []) /\
  (forall window rx ry rw rh,
     no_border_update window = true -> area_viewport window = true ->
     In (wp_viewport_set_destination area_surface rw rh)
        (snd (set_render_rectangle window rx ry rw rh))).
Proof.
  intros Hv. split; [apply run_attach_count; exact Hv|].
  split; [|split].
  - intros rx ry rw rh. cbv zeta.
    pose proof (step_borders window0 (OpSetRenderRectangle rx ry rw rh))
      as (_ & Ht & Hf).
    cbv zeta in Ht, Hf. unfold window_step in Ht, Hf.
    destruct (no_border_update window0) eqn:Hn.
    + destruct (Ht eq_refl) as (Hn1 & _). split; [exact Hn1 | discriminate].
    + destruct (Hf eq_refl) as [(Hnone & _) | (b & Hone & Hn1 & Hok)].
      * exfalso.
        destruct (set_render_rectangle_borders window0 rx ry rw rh) as (Ha & _).
        rewrite Ha in Hnone.
        destruct (update_borders_attach
                    (set_render_rectangle_field (mkRect rx ry rw rh) window0) Hn)
          as (b & Hb & _).
        rewrite Hb in Hnone. discriminate.
      * rewrite Hv in Hn1, Hok. split; [exact Hn1|]. intros _. exists b. auto.
  - intros window op Hn. apply (step_borders window op). exact Hn.
  - intros window rx ry rw rh Hn Ha.
    unfold gst_wl_window_set_render_rectangle.
    rewrite update_borders_skip by exact Hn. simpl. rewrite Ha.
    destruct (negb (video_width window =? 0)); simpl;
      rewrite !in_app_iff; simpl; auto.
Qed.

End WindowProperties.

(** ** Instances *)

Lemma set_alpha_selects_equation_witness :
  gst_wl_window_set_alpha sample_fixed_from_double
    (Some blending_window) float_half
  = [zwp_blending_v1_set_alpha 128;
     zwp_blending_v1_set_blending ZWP_BLENDING_V1_BLENDING_EQUATION_FROMSOURCE].
Proof.
  apply (set_alpha_selects_equation sample_fixed_from_double
           blending_window float_half); reflexivity.
Defined.


Lemma border_update_at_most_once_witness :
  (length (border_attaches
             (snd (window_run false false sample_scale_int_round sample_fixed_from_double
                     sample_info_size (gst_wl_window_init (mkDisplay true false))
                     [OpSetRenderRectangle 0 0 640 480;
                      OpSetRenderRectangle 0 0 1280 720]))) <= 1)%nat.
Proof.
  apply (border_update_at_most_once false false sample_scale_int_round
           sample_fixed_from_double sample_info_size
           (gst_wl_window_init (mkDisplay true false))
           [OpSetRenderRectangle 0 0 640 480; OpSetRenderRectangle 0 0 1280 720]).
  reflexivity.
Defined.

(** * Properties of gstcudamemorycopy.c *)

(** ** Reasoning about computations *)

Lemma returns_ret {A} (a : A) h (Q : A -> list Event -> Prop) :
  Q a [] -> returns (mret a) h Q.
Proof. intros H. exists a, []. split; [reflexivity | exact H]. Qed.

Lemma returns_bind {A B} (m : M A) (f : A -> M B) h (Q : B -> list Event -> Prop) :
  returns m h (fun a t1 => returns (f a) (h ++ t1) (fun b t2 => Q b (t1 ++ t2))) ->
  returns (m ≫= f) h Q.
Proof.
  intros (a & t1 & Hm & b & t2 & Hf & HQ). exists b, (t1 ++ t2).
  split; [|exact HQ]. unfold mbind, M_bind. rewrite Hm, Hf. reflexivity.
Qed.

Lemma returns_emit e h (Q : unit -> list Event -> Prop) :
  Q tt [e] -> returns (emit e) h Q.
Proof. intros H. exists tt, [e]. split; [reflexivity | exact H]. Qed.

Lemma returns_call env mk h (Q : bool -> list Event -> Prop) :
  (forall ok, call_ok env h = ok -> Q ok [mk ok]) -> returns (call env mk) h Q.
Proof. intros H. eexists _, _. split; [reflexivity | apply H; reflexivity]. Qed.

Lemma returns_weaken {A} (m : M A) h (Q Q' : A -> list Event -> Prop) :
  returns m h Q -> (forall a t, Q a t -> Q' a t) -> returns m h Q'.
Proof. intros (a & t & Hm & HQ) H. exists a, t. auto. Qed.

Lemma returns_yields {A} (m : M A) h (Q : A -> list Event -> Prop) :
  returns m h Q -> yields m h Q.
Proof. intros (a & t & Hm & HQ) a' t' Hm'. congruence. Qed.

Lemma yields_ret {A} (a : A) h (Q : A -> list Event -> Prop) :
  Q a [] -> yields (mret a) h Q.
Proof. intros H a' t' E. inversion E. subst. exact H. Qed.

Lemma yields_bind {A B} (m : M A) (f : A -> M B) h (Q : B -> list Event -> Prop) :
  yields m h (fun a t1 => yields (f a) (h ++ t1) (fun b t2 => Q b (t1 ++ t2))) ->
  yields (m ≫= f) h Q.
Proof.
  intros H b t E. unfold mbind, M_bind in E.
  destruct (m h) as [[a t1]|] eqn:Hm; [|discriminate].
  destruct (f a (h ++ t1)) as [[b' t2]|] eqn:Hf; [|discriminate].
  inversion E. subst. exact (H a t1 Hm b t2 Hf).
Qed.

Lemma yields_weaken {A} (m : M A) h (Q Q' : A -> list Event -> Prop) :
  yields m h Q -> (forall a t, Q a t -> Q' a t) -> yields m h Q'.
Proof. intros H HQ a t E. auto. Qed.

Lemma yields_assert b h (Q : unit -> list Event -> Prop) :
  (b = true -> Q tt []) -> yields (g_assert b) h Q.
Proof.
  intros H a t E. unfold g_assert in E. destruct b; [|discriminate].
  inversion E. subst. auto.
Qed.

(** One step of a computation whose next action is known. *)
Ltac step :=
  lazymatch goal with
  | |- returns (mret _) _ _ => apply returns_ret
  | |- returns (emit _) _ _ => apply returns_emit
  | |- returns (call _ _) _ _ => apply returns_call; intros [|] ?
  | |- returns (_ ≫= _) _ _ => apply returns_bind
  | |- returns (if negb true then _ else _) _ _ => cbn [negb]
  | |- returns (if negb false then _ else _) _ _ => cbn [negb]
  | |- returns ((fun _ => _) _) _ _ => cbv beta
  | |- yields (mret _) _ _ => apply yields_ret
  | |- yields (emit _) _ _ => apply returns_yields, returns_emit
  | |- yields (call _ _) _ _ => apply returns_yields, returns_call; intros [|] ?
  | |- yields (g_assert _) _ _ => apply yields_assert; intros ?
  | |- yields (_ ≫= _) _ _ => apply yields_bind
  | |- yields (if negb true then _ else _) _ _ => cbn [negb]
  | |- yields (if negb false then _ else _) _ _ => cbn [negb]
  | |- yields ((fun _ => _) _) _ _ => cbv beta
  end.

Ltac solve_released :=
  cbn; repeat (case_decide; cbn; try congruence); try reflexivity.

(** ** The staged copy *)

Lemma transform_sysmem_returns env inbuf outbuf h :
  returns (gst_cuda_memory_copy_transform_sysmem env inbuf outbuf) h
    (fun ret t =>
       maps_released t /\
       ((ret = false /\
         t = [enter PATH_SYSMEM;
              gst_video_frame_map (buf_id inbuf) (mkFlags true false false) false]) \/
        (ret = false /\
         t = [enter PATH_SYSMEM;
              gst_video_frame_map (buf_id inbuf) (mkFlags true false false) true;
              gst_video_frame_map (buf_id outbuf) (mkFlags false true false) false;
              gst_video_frame_unmap (buf_id inbuf)]) \/
        (t = [enter PATH_SYSMEM;
              gst_video_frame_map (buf_id inbuf) (mkFlags true false false) true;
              gst_video_frame_map (buf_id outbuf) (mkFlags false true false) true;
              gst_video_frame_copy (buf_id outbuf) (buf_id inbuf) ret;
              gst_video_frame_unmap (buf_id outbuf);
              gst_video_frame_unmap (buf_id inbuf)]))).
Proof.
  unfold gst_cuda_memory_copy_transform_sysmem, maps_released.
  repeat step; (split; [solve_released | auto]).
Qed.


(** ** Mapping one end of a device copy *)

Lemma map_and_fill_returns env have_nvmm buf info ty is_src cp h :
  returns (gst_cuda_memory_copy_map_and_fill_copy2d env have_nvmm buf info ty is_src cp)
    h (fun '(ok, ms, cp') t =>
         (ok = true /\ ms = state_of have_nvmm ty /\
          t = [acquire_event have_nvmm buf ty is_src] /\
          filled_by have_nvmm buf info ty is_src cp cp') \/
         (ok = false /\ ms = unmapped /\ cp' = cp /\ failed_map_trace buf t)).
Proof.
  unfold gst_cuda_memory_copy_map_and_fill_copy2d, state_of, acquire_event,
    filled_by, failed_map_trace, uses_surface.
  destruct (have_nvmm && mem_type_eqb ty GST_CUDA_MEMORY_COPY_MEM_NVMM).
  - step. step.
    + step.
      destruct (surfaceList (nvmm_surface buf)) as [sp|] eqn:Hs.
      * destruct (Nat.eqb_spec (num_planes (planeParams sp)) (info_n_planes info))
          as [Hn|Hn]; cbn [negb].
        -- destruct (nvmm_memory_type (memType (nvmm_surface buf))) as [mt|] eqn:Hm.
           ++ step. cbn. left. repeat split. exists sp, mt. auto.
           ++ repeat step. cbn. right. auto 10.
        -- repeat step. cbn. right. auto 10.
      * repeat step. cbn. right. auto 10.
    + repeat step. cbn. right. auto 10.
  - step. step.
    + repeat step. cbn. left. auto.
    + repeat step. cbn. right. repeat split; eauto.
Qed.

Lemma unmap_returns buf have_nvmm ty h :
  returns (gst_cuda_memory_copy_unmap buf (state_of have_nvmm ty)) h
    (fun _ t => t = release_events have_nvmm buf ty).
Proof.
  unfold gst_cuda_memory_copy_unmap, state_of, release_events.
  destruct (uses_surface have_nvmm ty); cbn; repeat step; reflexivity.
Qed.

Lemma copy_planes_returns env cp i n ret h :
  returns (copy_planes env cp i n ret) h (fun r t => copy_loop_trace cp r t).
Proof.
  revert i ret h. induction n as [|n IH]; intros i ret h; cbn [copy_planes].
  - step. split; [constructor | left; constructor].
  - step. step.
    + step. eapply returns_weaken; [apply IH|].
      intros r t (Hall & Hshape). split.
      * constructor; [eexists _, _; reflexivity | exact Hall].
      * destruct Hshape as [Hok | (-> & s & k & p & -> & Hs)].
        -- left. constructor; [reflexivity | exact Hok].
        -- right. split; [reflexivity|].
           exists (CuMemcpy2DAsync i (default zero_copy2d (cp !! i)) true :: s), k, p.
           split; [reflexivity|]. constructor; [reflexivity | exact Hs].
    + repeat step. split.
      * constructor; [eexists _, _; reflexivity | constructor].
      * right. split; [reflexivity|]. exists [], i, (default zero_copy2d (cp !! i)).
        split; [reflexivity | constructor].
Qed.

Lemma transform_cuda_returns env have_nvmm self inbuf in_type outbuf out_type h :
  returns (gst_cuda_memory_copy_transform_cuda env have_nvmm self inbuf in_type
             outbuf out_type) h
    (cuda_copy_trace have_nvmm self inbuf in_type outbuf out_type).
Proof.
  unfold gst_cuda_memory_copy_transform_cuda, cuda_copy_trace.
  step. step. step.
  eapply returns_weaken; [apply map_and_fill_returns|].
  intros [[ok1 ms1] cp1] t1
    [(-> & -> & -> & Hf1) | (-> & -> & -> & Hfail1)]; cbn [negb].
  2: { step. left. split; [reflexivity|]. exists t1. rewrite app_nil_r. auto. }
  step.
  eapply returns_weaken; [apply map_and_fill_returns|].
  intros [[ok2 ms2] cp2] t2
    [(-> & -> & -> & Hf2) | (-> & -> & -> & Hfail2)]; cbn [negb].
  2: { step. eapply returns_weaken; [apply unmap_returns|].
       intros _ t ->. step. right. left. split; [reflexivity|].
       exists t2. split; [exact Hfail2|]. cbn. rewrite app_nil_r. reflexivity. }
  step. step.
  - (* context pushed *)
    step. step. eapply returns_weaken; [apply copy_planes_returns|].
    intros r copies Hloop. repeat step.
    eapply returns_weaken; [apply unmap_returns|]. intros _ ? ->.
    step. eapply returns_weaken; [apply unmap_returns|]. intros _ ? ->.
    step. right. right. right. exists cp1, cp2, copies.
    split; [exact Hf1|]. split; [exact Hf2|]. split; [exact Hloop|].
    cbn. rewrite !app_nil_r. reflexivity.
  - (* push failed *)
    repeat step.
    eapply returns_weaken; [apply unmap_returns|]. intros _ ? ->.
    step. eapply returns_weaken; [apply unmap_returns|]. intros _ ? ->.
    step. right. right. left. split; [reflexivity|].
    cbn. rewrite !app_nil_r. reflexivity.
Qed.

(** ** Traces *)

Lemma split_unique {A} (f : A -> bool) (l1 : list A) x l2 pre y post :
  l1 ++ x :: l2 = pre ++ y :: post ->
  Forall (fun e => f e = false) l1 -> Forall (fun e => f e = false) l2 ->
  f y = true ->
  pre = l1 /\ y = x /\ post = l2.
Proof.
  revert pre. induction l1 as [|a l1 IH]; intros pre E H1 H2 Hy.
  - destruct pre as [|e pre]; cbn in E.
    + inversion E. auto.
    + inversion E. subst. exfalso.
      rewrite Forall_forall in H2.
      specialize (H2 y). rewrite H2 in Hy; [discriminate|].
      apply list_elem_of_In, in_or_app. right. left. reflexivity.
  - inversion H1 as [|? ? Ha H1']. subst. destruct pre as [|e pre]; cbn in E.
    + inversion E. subst. congruence.
    + inversion E. subst.
      destruct (IH pre H3 H1' H2 Hy) as (-> & -> & ->). auto.
Qed.

Lemma no_occurrence {A} (f : A -> bool) (t : list A) pre y post :
  Forall (fun e => f e = false) t -> t = pre ++ y :: post -> f y = true -> False.
Proof.
  intros H -> Hy. rewrite Forall_forall in H. specialize (H y).
  rewrite H in Hy; [discriminate|].
  apply list_elem_of_In, in_or_app. right. left. reflexivity.
Qed.

Lemma map_events_are_not {f : Event -> bool} (t : list Event) :
  (forall e, is_map_event e = true -> f e = false) ->
  Forall (fun e => is_map_event e = true) t -> Forall (fun e => f e = false) t.
Proof. intros Hf H. eapply Forall_impl; [exact H | exact Hf]. Qed.

Lemma map_event_not_pushed e : is_map_event e = true -> is_pushed e = false.
Proof. destruct e; cbn; congruence. Qed.

Lemma map_event_not_failed_copy e : is_map_event e = true -> is_failed_copy e = false.
Proof. destruct e; cbn; congruence. Qed.

Lemma acquire_is_map_event have_nvmm buf ty is_src :
  is_map_event (acquire_event have_nvmm buf ty is_src) = true.
Proof. unfold acquire_event. destruct (uses_surface _ _); reflexivity. Qed.

Lemma release_is_map_event have_nvmm buf ty :
  Forall (fun e => is_map_event e = true) (release_events have_nvmm buf ty).
Proof.
  unfold release_events. destruct (uses_surface _ _); repeat constructor.
Qed.

Lemma failed_map_is_map_event buf f :
  failed_map_trace buf f -> Forall (fun e => is_map_event e = true) f.
Proof. intros [-> | [-> | (fl & ->)]]; repeat constructor. Qed.

Lemma copies_not_pushed cp t :
  Forall (copy_of cp) t -> Forall (fun e => is_pushed e = false) t.
Proof.
  intros H. eapply Forall_impl; [exact H|]. intros e (k & ok & ->). reflexivity.
Qed.

Lemma outstanding_app t1 t2 acc :
  outstanding (t1 ++ t2) acc = outstanding t2 (outstanding t1 acc).
Proof.
  revert acc. induction t1 as [|e t1 IH]; intros acc; [reflexivity|].
  destruct e; cbn; try apply IH; destruct ok; apply IH.
Qed.

Lemma outstanding_skip e t acc :
  is_map_event e = false -> outstanding (e :: t) acc = outstanding t acc.
Proof. destruct e; cbn; congruence. Qed.

Lemma outstanding_copies cp t acc :
  Forall (copy_of cp) t -> outstanding t acc = acc.
Proof.
  intros H. revert acc. induction H as [|e t (k & ok & ->) _ IH]; intros acc;
    [reflexivity | apply IH].
Qed.

Lemma outstanding_failed_map buf f acc :
  failed_map_trace buf f -> outstanding f acc = acc.
Proof.
  intros [-> | [-> | (fl & ->)]]; cbn; try reflexivity.
  case_decide; congruence.
Qed.

Lemma outstanding_acquire have_nvmm buf ty is_src t acc :
  outstanding (acquire_event have_nvmm buf ty is_src :: t) acc
  = outstanding t (mapping_of have_nvmm buf ty :: acc).
Proof.
  unfold acquire_event, mapping_of. destruct (uses_surface _ _); reflexivity.
Qed.

Lemma outstanding_release have_nvmm buf ty acc :
  outstanding (release_events have_nvmm buf ty) acc
  = remove_first (mapping_of have_nvmm buf ty) acc.
Proof.
  unfold release_events, mapping_of. destruct (uses_surface _ _); reflexivity.
Qed.

Lemma remove_two (a b : Mapping) : remove_first b (remove_first a [b; a]) = [].
Proof. cbn. repeat (case_decide; cbn); congruence. Qed.

Lemma remove_head (a : Mapping) l : remove_first a (a :: l) = l.
Proof. cbn. case_decide; congruence. Qed.

(** ** The direct device copy *)

Lemma cuda_copy_trace_released have_nvmm self inbuf in_type outbuf out_type r t :
  cuda_copy_trace have_nvmm self inbuf in_type outbuf out_type r t ->
  maps_released t.
Proof.
  unfold cuda_copy_trace, maps_released.
  intros [(_ & f & Hf & ->) | [(_ & f & Hf & ->) | [(_ & ->) |
    (cp1 & cp & copies & _ & _ & (Hc & _) & ->)]]].
  - rewrite outstanding_skip by reflexivity.
    apply (outstanding_failed_map _ _ _ Hf).
  - rewrite outstanding_skip by reflexivity.
    rewrite outstanding_acquire, outstanding_app.
    rewrite (outstanding_failed_map _ _ _ Hf), outstanding_release.
    apply remove_head.
  - cbn [app]. rewrite outstanding_skip by reflexivity.
    rewrite !outstanding_acquire. rewrite !outstanding_skip by reflexivity.
    rewrite outstanding_app, !outstanding_release. apply remove_two.
  - cbn [app]. rewrite outstanding_skip by reflexivity.
    rewrite !outstanding_acquire. rewrite outstanding_skip by reflexivity.
    rewrite outstanding_app, (outstanding_copies _ _ _ Hc).
    rewrite !outstanding_skip by reflexivity.
    rewrite outstanding_app, !outstanding_release. apply remove_two.
Qed.

Lemma cuda_copy_trace_ctx have_nvmm self inbuf in_type outbuf out_type r t :
  cuda_copy_trace have_nvmm self inbuf in_type outbuf out_type r t ->
  ctx_released t.
Proof.
  unfold cuda_copy_trace, ctx_released.
  intros [(_ & f & Hf & ->) | [(_ & f & Hf & ->) | [(_ & ->) |
    (cp1 & cp & copies & _ & _ & (Hc & _) & ->)]]] pre post E.
  - exfalso. eapply (no_occurrence is_pushed); [|exact E|reflexivity].
    constructor; [reflexivity|].
    apply (map_events_are_not _ map_event_not_pushed).
    apply (failed_map_is_map_event _ _ Hf).
  - exfalso. eapply (no_occurrence is_pushed); [|exact E|reflexivity].
    constructor; [reflexivity|].
    constructor; [apply map_event_not_pushed, acquire_is_map_event|].
    apply (map_events_are_not _ map_event_not_pushed).
    apply Forall_app. split;
      [apply (failed_map_is_map_event _ _ Hf) | apply release_is_map_event].
  - exfalso. eapply (no_occurrence is_pushed); [|exact E|reflexivity].
    cbn [app].
    constructor; [reflexivity|].
    constructor; [apply map_event_not_pushed, acquire_is_map_event|].
    constructor; [apply map_event_not_pushed, acquire_is_map_event|].
    constructor; [reflexivity|]. constructor; [reflexivity|].
    apply (map_events_are_not _ map_event_not_pushed).
    apply Forall_app. split; apply release_is_map_event.
  - change ([enter PATH_CUDA; acquire_event have_nvmm inbuf in_type true;
             acquire_event have_nvmm outbuf out_type false;
             gst_cuda_context_push true] ++ copies ++
            [CuStreamSynchronize; gst_cuda_context_pop] ++
            release_events have_nvmm inbuf in_type ++
            release_events have_nvmm outbuf out_type)
      with ([enter PATH_CUDA; acquire_event have_nvmm inbuf in_type true;
             acquire_event have_nvmm outbuf out_type false] ++
            gst_cuda_context_push true ::
            (copies ++ [CuStreamSynchronize; gst_cuda_context_pop] ++
             release_events have_nvmm inbuf in_type ++
             release_events have_nvmm outbuf out_type)) in E.
    apply (split_unique is_pushed) in E as (_ & _ & ->).
    + apply in_or_app. right. right. left. reflexivity.
    + constructor; [reflexivity|].
      constructor; [apply map_event_not_pushed, acquire_is_map_event|].
      constructor; [apply map_event_not_pushed, acquire_is_map_event|].
      constructor.
    + apply Forall_app. split; [apply (copies_not_pushed _ _ Hc)|].
      cbn [app]. constructor; [reflexivity|]. constructor; [reflexivity|].
      apply (map_events_are_not _ map_event_not_pushed).
      apply Forall_app. split; apply release_is_map_event.
    + reflexivity.
Qed.

Lemma cuda_copy_trace_failure have_nvmm self inbuf in_type outbuf out_type r t :
  cuda_copy_trace have_nvmm self inbuf in_type outbuf out_type r t ->
  forall pre k p post,
    t = pre ++ CuMemcpy2DAsync k p false :: post ->
    r = false /\
    Forall (fun e => is_failed_copy e = false) pre /\
    post = [CuStreamSynchronize; gst_cuda_context_pop]
           ++ release_events have_nvmm inbuf in_type
           ++ release_events have_nvmm outbuf out_type.
Proof.
  unfold cuda_copy_trace.
  intros [(_ & f & Hf & ->) | [(_ & f & Hf & ->) | [(_ & ->) |
    (cp1 & cp & copies & _ & _ & (Hc & Hshape) & ->)]]] pre k p post E.
  - exfalso. eapply (no_occurrence is_failed_copy); [|exact E|reflexivity].
    constructor; [reflexivity|].
    apply (map_events_are_not _ map_event_not_failed_copy).
    apply (failed_map_is_map_event _ _ Hf).
  - exfalso. eapply (no_occurrence is_failed_copy); [|exact E|reflexivity].
    constructor; [reflexivity|].
    constructor; [apply map_event_not_failed_copy, acquire_is_map_event|].
    apply (map_events_are_not _ map_event_not_failed_copy).
    apply Forall_app. split;
      [apply (failed_map_is_map_event _ _ Hf) | apply release_is_map_event].
  - exfalso. eapply (no_occurrence is_failed_copy); [|exact E|reflexivity].
    cbn [app].
    constructor; [reflexivity|].
    constructor; [apply map_event_not_failed_copy, acquire_is_map_event|].
    constructor; [apply map_event_not_failed_copy, acquire_is_map_event|].
    constructor; [reflexivity|]. constructor; [reflexivity|].
    apply (map_events_are_not _ map_event_not_failed_copy).
    apply Forall_app. split; apply release_is_map_event.
  - assert (Hhead : Forall (fun e => is_failed_copy e = false)
                      [enter PATH_CUDA; acquire_event have_nvmm inbuf in_type true;
                       acquire_event have_nvmm outbuf out_type false;
                       gst_cuda_context_push true]).
    { constructor; [reflexivity|].
      constructor; [apply map_event_not_failed_copy, acquire_is_map_event|].
      constructor; [apply map_event_not_failed_copy, acquire_is_map_event|].
      constructor; [reflexivity | constructor]. }
    assert (Htail : Forall (fun e => is_failed_copy e = false)
                      ([CuStreamSynchronize; gst_cuda_context_pop] ++
                       release_events have_nvmm inbuf in_type ++
                       release_events have_nvmm outbuf out_type)).
    { cbn [app]. constructor; [reflexivity|]. constructor; [reflexivity|].
      apply (map_events_are_not _ map_event_not_failed_copy).
      apply Forall_app. split; apply release_is_map_event. }
    destruct Hshape as [Hok | (-> & s & k' & p' & -> & Hs)].
    + exfalso. eapply (no_occurrence is_failed_copy); [|exact E|reflexivity].
      apply Forall_app. split; [exact Hhead|].
      apply Forall_app. split; [exact Hok | exact Htail].
    + assert (E' : ([enter PATH_CUDA; acquire_event have_nvmm inbuf in_type true;
                      acquire_event have_nvmm outbuf out_type false;
                      gst_cuda_context_push true] ++ s)
                   ++ CuMemcpy2DAsync k' p' false
                      :: ([CuStreamSynchronize; gst_cuda_context_pop] ++
                          release_events have_nvmm inbuf in_type ++
                          release_events have_nvmm outbuf out_type)
                   = pre ++ CuMemcpy2DAsync k p false :: post).
      { rewrite <- E. rewrite <- !app_assoc. reflexivity. }
      clear E.
      apply (split_unique is_failed_copy) in E' as (-> & _ & ->).
      * split; [reflexivity|]. split; [|reflexivity].
        apply Forall_app. split; [exact Hhead | exact Hs].
      * apply Forall_app. split; [exact Hhead | exact Hs].
      * exact Htail.
      * reflexivity.
Qed.

(** C5: the direct device copy always returns.  When the copy of a plane
    fails, it returns failure, that copy is the only failed one and the
    last one enqueued, and after it the stream is synchronized, the
    context popped and both buffers unmapped.  On every path, each
    successful map is followed by its unmap and a successful context push
    by a pop. *)
Theorem transform_cuda_plane_failure (env : Env) (have_nvmm : bool)
    (self : GstCudaMemoryCopy) (inbuf : GstBuffer)
    (in_type : GstCudaMemoryCopyMemType) (outbuf : GstBuffer)
    (out_type : GstCudaMemoryCopyMemType) (h : list Event) :
  exists ret t,
    gst_cuda_memory_copy_transform_cuda env have_nvmm self inbuf in_type
      outbuf out_type h = Some (ret, t) /\
    maps_released t /\
    ctx_released t /\
    (forall pre k p post,
       t = pre ++ CuMemcpy2DAsync k p false :: post ->
       ret = false /\
       Forall (fun e => is_failed_copy e = false) pre /\
       post = [CuStreamSynchronize; gst_cuda_context_pop]
              ++ release_events have_nvmm inbuf in_type
              ++ release_events have_nvmm outbuf out_type).
Proof.
  destruct (transform_cuda_returns env have_nvmm self inbuf in_type outbuf
              out_type h) as (ret & t & Hrun & Hshape).
  exists ret, t. split; [exact Hrun|].
  split; [eapply cuda_copy_trace_released; exact Hshape|].
  split; [eapply cuda_copy_trace_ctx; exact Hshape|].
  eapply cuda_copy_trace_failure; exact Hshape.
Qed.

Lemma transform_cuda_plane_failure_witness :
  exists ret t,
    gst_cuda_memory_copy_transform_cuda env_second_copy_fails true
      (sample_self false false false 2) (sample_buffer 1 MEM_CUDA 2)
      GST_CUDA_MEMORY_COPY_MEM_CUDA (sample_buffer 2 MEM_CUDA 2)
      GST_CUDA_MEMORY_COPY_MEM_CUDA [] = Some (ret, t) /\
    ret = false /\
    exists pre k p,
      t = pre ++ CuMemcpy2DAsync k p false
                 :: [CuStreamSynchronize; gst_cuda_context_pop;
                     gst_video_frame_unmap 1; gst_video_frame_unmap 2].
Proof.
  destruct (transform_cuda_plane_failure env_second_copy_fails true
              (sample_self false false false 2) (sample_buffer 1 MEM_CUDA 2)
              GST_CUDA_MEMORY_COPY_MEM_CUDA (sample_buffer 2 MEM_CUDA 2)
              GST_CUDA_MEMORY_COPY_MEM_CUDA [])
    as (ret & t & E & _ & _ & Hfail).
  exists ret, t. split; [exact E|].
  vm_compute in E.
  match type of E with
  | Some (_, [?e0; ?e1; ?e2; ?e3; ?e4; CuMemcpy2DAsync ?k ?p false; ?e6; ?e7; ?e8; ?e9])
    = _ =>
      destruct (Hfail [e0; e1; e2; e3; e4] k p [e6; e7; e8; e9]) as (Hr & _ & Hpost);
        [inversion E; reflexivity|];
      split; [exact Hr|];
      exists [e0; e1; e2; e3; e4], k, p; inversion E; reflexivity
  end.
Defined.

(** ** Copy descriptors *)

Lemma for_planes_S n f cp :
  for_planes (S n) f cp = alter (f n) n (for_planes n f cp).
Proof. unfold for_planes. rewrite seq_S, foldl_app. reflexivity. Qed.

Lemma for_planes_lookup n f cp i :
  for_planes n f cp !! i
  = if decide (i < n)%nat then f i <$> cp !! i else cp !! i.
Proof.
  induction n as [|n IH].
  - case_decide; [lia | reflexivity].
  - rewrite for_planes_S. destruct (decide (n = i)) as [->|Hne].
    + rewrite list_lookup_alter_eq, IH.
      repeat case_decide; try lia. reflexivity.
    + rewrite list_lookup_alter_ne by exact Hne. rewrite IH.
      repeat case_decide; try lia; reflexivity.
Qed.

Lemma for_planes_length n f cp : length (for_planes n f cp) = length cp.
Proof.
  induction n as [|n IH]; [reflexivity|].
  rewrite for_planes_S, length_alter. exact IH.
Qed.

Lemma filled_by_length have_nvmm buf info ty is_src cp cp' :
  filled_by have_nvmm buf info ty is_src cp cp' -> length cp' = length cp.
Proof.
  unfold filled_by. destruct (uses_surface have_nvmm ty).
  - intros (sp & mt & _ & _ & _ & ->). rewrite !for_planes_length. reflexivity.
  - cbv zeta. intros ->. apply for_planes_length.
Qed.

(** A map through the surface writes the surface's plane layout. *)
Lemma filled_by_side have_nvmm buf info ty is_src cp cp' i :
  filled_by have_nvmm buf info ty is_src cp cp' ->
  (i < length cp)%nat ->
  forall sp, uses_surface have_nvmm ty = true ->
    surfaceList (nvmm_surface buf) = Some sp ->
    (i < num_planes (planeParams sp))%nat ->
    (if is_src then src_from_surface sp i (default zero_copy2d (cp' !! i))
     else dst_from_surface sp i (default zero_copy2d (cp' !! i))) /\
    dims_from_surface sp i (default zero_copy2d (cp' !! i)).
Proof.
  unfold filled_by. intros Hf Hi sp Hnv Hsp Hn. rewrite Hnv in Hf.
  destruct Hf as (sp' & mt & Hsp' & _ & _ & ->).
  assert (sp' = sp) by congruence. subst sp'.
  rewrite !for_planes_lookup. case_decide; [|lia].
  destruct (lookup_lt_is_Some_2 cp i Hi) as (p0 & ->). cbn.
  unfold src_from_surface, dst_from_surface, dims_from_surface.
  destruct mt, is_src; cbn; auto.
Qed.

(** Mapping the destination leaves the source side untouched. *)
Lemma filled_by_dst_same_src have_nvmm buf info ty cp cp' i :
  filled_by have_nvmm buf info ty false cp cp' ->
  same_src (default zero_copy2d (cp' !! i)) (default zero_copy2d (cp !! i)).
Proof.
  unfold filled_by, same_src. destruct (uses_surface have_nvmm ty).
  - intros (sp & mt & _ & _ & _ & ->).
    rewrite !for_planes_lookup. case_decide; [|auto].
    destruct (cp !! i) as [p0|]; cbn; [|auto]. destruct mt; cbn; auto.
  - cbv zeta. intros ->. rewrite for_planes_lookup. case_decide; [|auto].
    destruct (cp !! i) as [p0|]; cbn; [|auto].
    unfold frame_fill. destruct (_ !! i); [|auto].
    destruct (mem_type_eqb ty _); cbn; auto.
Qed.

Lemma same_src_from_surface sp i p q :
  same_src p q -> src_from_surface sp i q -> src_from_surface sp i p.
Proof.
  unfold same_src, src_from_surface. intros (-> & -> & -> & ->). auto.
Qed.

Lemma same_dst_from_surface sp i p q :
  same_dst p q -> dst_from_surface sp i q -> dst_from_surface sp i p.
Proof.
  unfold same_dst, dst_from_surface. intros (-> & -> & -> & ->). auto.
Qed.

Lemma same_dims_from_surface sp i p q :
  same_dims p q -> dims_from_surface sp i q -> dims_from_surface sp i p.
Proof.
  unfold same_dims, dims_from_surface. intros (-> & ->). auto.
Qed.

Lemma device_event_map_event D e : is_map_event e = true -> device_event D e.
Proof. destruct e; cbn; try congruence; auto. Qed.

(** The descriptors of the direct device copy. *)
Lemma cuda_copy_trace_descriptors have_nvmm self inbuf in_type outbuf out_type r t :
  cuda_copy_trace have_nvmm self inbuf in_type outbuf out_type r t ->
  Forall (device_event (nvmm_descriptor (uses_surface have_nvmm in_type)
                          (uses_surface have_nvmm out_type) inbuf outbuf)) t.
Proof.
  set (D := nvmm_descriptor _ _ inbuf outbuf).
  assert (Hmaps : forall l, Forall (fun e => is_map_event e = true) l ->
            Forall (device_event D) l).
  { intros l Hl. eapply Forall_impl; [exact Hl|].
    intros e He. apply device_event_map_event, He. }
  unfold cuda_copy_trace.
  intros [(_ & f & Hf & ->) | [(_ & f & Hf & ->) | [(_ & ->) |
    (cp1 & cp & copies & Hf1 & Hf2 & (Hc & _) & ->)]]].
  - constructor; [exact I|]. apply Hmaps, (failed_map_is_map_event _ _ Hf).
  - constructor; [exact I|].
    constructor; [apply device_event_map_event, acquire_is_map_event|].
    apply Hmaps, Forall_app. split;
      [apply (failed_map_is_map_event _ _ Hf) | apply release_is_map_event].
  - cbn [app]. constructor; [exact I|].
    constructor; [apply device_event_map_event, acquire_is_map_event|].
    constructor; [apply device_event_map_event, acquire_is_map_event|].
    constructor; [exact I|]. constructor; [exact I|].
    apply Hmaps, Forall_app. split; apply release_is_map_event.
  - cbn [app]. constructor; [exact I|].
    constructor; [apply device_event_map_event, acquire_is_map_event|].
    constructor; [apply device_event_map_event, acquire_is_map_event|].
    constructor; [exact I|].
    apply Forall_app. split.
    + eapply Forall_impl; [exact Hc|]. intros e (k & ok & ->). cbn.
      pose proof (filled_by_length _ _ _ _ _ _ _ Hf1) as Hl1.
      rewrite length_replicate in Hl1. unfold D, nvmm_descriptor. split.
      * intros Hnv sp Hsp Hk Hk4. split; [|discriminate].
        eapply same_src_from_surface;
          [apply (filled_by_dst_same_src _ _ _ _ _ _ k Hf2)|].
        apply (filled_by_side _ _ _ _ _ _ _ k Hf1); auto;
          try (rewrite length_replicate; exact Hk4).
      * intros Hnv sp Hsp Hk Hk4.
        destruct (filled_by_side _ _ _ _ _ _ _ k Hf2) with (sp := sp); auto;
          try (rewrite Hl1; exact Hk4).
    + constructor; [exact I|]. constructor; [exact I|].
      apply Hmaps, Forall_app. split; apply release_is_map_event.
Qed.

(** ** Calls made by a computation *)

Lemma emits_ret {A} P (a : A) (R : A -> Prop) : R a -> emits P (mret a) R.
Proof. intros H h. apply yields_ret. split; [constructor | exact H]. Qed.

Lemma emits_bind {A B} P (m : M A) (f : A -> M B) (R : A -> Prop) (R' : B -> Prop) :
  emits P m R -> (forall a, R a -> emits P (f a) R') -> emits P (m ≫= f) R'.
Proof.
  intros Hm Hf h. apply yields_bind.
  eapply yields_weaken; [apply Hm|]. intros a t1 (Ht1 & Ha).
  eapply yields_weaken; [apply (Hf a Ha)|]. intros b t2 (Ht2 & Hb).
  split; [apply Forall_app; auto | exact Hb].
Qed.

Lemma emits_emit P e : P e -> emits P (emit e) (fun _ => True).
Proof.
  intros H h. apply returns_yields, returns_emit.
  split; [repeat constructor; exact H | exact I].
Qed.

Lemma emits_call P env mk :
  (forall ok, P (mk ok)) -> emits P (call env mk) (fun _ => True).
Proof.
  intros H h. apply returns_yields, returns_call. intros ok _.
  split; [repeat constructor; apply H | exact I].
Qed.

Lemma emits_assert P b : emits P (g_assert b) (fun _ => b = true).
Proof. intros h. apply yields_assert. intros ->. split; [constructor | reflexivity]. Qed.

Lemma emits_weaken {A} (P P' : Event -> Prop) (m : M A) (R R' : A -> Prop) :
  emits P m R -> (forall e, P e -> P' e) -> (forall a, R a -> R' a) ->
  emits P' m R'.
Proof.
  intros H HP HR h. eapply yields_weaken; [apply H|].
  intros a t (Ht & Ha). split; [|auto].
  eapply Forall_impl; [exact Ht | exact HP].
Qed.

(** One step for calls that satisfy [P] outright. *)
Ltac estep :=
  lazymatch goal with
  | |- emits _ (mret _) _ => apply emits_ret; try exact I
  | |- emits _ (emit _) _ => apply emits_emit; try exact I
  | |- emits _ (call _ _) _ => apply emits_call; intros ?; try exact I
  | |- emits _ (emit _ ≫= _) _ =>
      eapply emits_bind; [apply emits_emit; try exact I | intros _ _]
  | |- emits _ (call _ _ ≫= _) _ =>
      eapply emits_bind; [apply emits_call; intros ?; try exact I | intros [|] _]
  | |- emits _ (if negb true then _ else _) _ => cbn [negb]
  | |- emits _ (if negb false then _ else _) _ => cbn [negb]
  end.

Section Interop.

Variable env : Env.
Variable have_nvmm : bool.
Variable D : nat -> CUDA_MEMCPY2D -> Prop.

Lemma map_and_fill_emits buf info ty is_src cp :
  emits (device_event D)
    (gst_cuda_memory_copy_map_and_fill_copy2d env have_nvmm buf info ty is_src cp)
    (fun '(ok, ms, cp') =>
       ok = true -> ms = state_of have_nvmm ty /\
                    filled_by have_nvmm buf info ty is_src cp cp').
Proof.
  intros h. eapply yields_weaken;
    [apply returns_yields, map_and_fill_returns|].
  intros [[ok ms] cp'] t
    [(-> & -> & -> & Hf) | (-> & -> & -> & Hfail)].
  - split; [|auto]. constructor; [|constructor].
    apply device_event_map_event, acquire_is_map_event.
  - split; [|discriminate]. eapply Forall_impl;
      [apply (failed_map_is_map_event _ _ Hfail)|].
    intros e. apply device_event_map_event.
Qed.

Lemma unmap_emits buf ty :
  emits (device_event D)
    (gst_cuda_memory_copy_unmap buf (state_of have_nvmm ty)) (fun _ => True).
Proof.
  intros h. eapply yields_weaken; [apply returns_yields, unmap_returns|].
  intros _ t ->. split; [|exact I]. eapply Forall_impl;
    [apply release_is_map_event|].
  intros e. apply device_event_map_event.
Qed.

Lemma ensure_gl_interop_emits :
  emits (device_event D) (gst_cuda_memory_copy_ensure_gl_interop env)
    (fun _ => True).
Proof.
  intros h a t E. unfold gst_cuda_memory_copy_ensure_gl_interop in E.
  inversion E. subst. split; [repeat constructor | exact I].
Qed.

Lemma ensure_resource_emits mem i :
  emits (device_event D) (ensure_cuda_gl_graphics_resource env mem i)
    (fun _ => True).
Proof.
  unfold ensure_cuda_gl_graphics_resource. destruct mem as [m|]; [|estep].
  destruct (negb (gst_is_gl_memory_pbo m)); [estep|].
  destruct (has_graphics_resource m); [estep|].
  repeat estep.
Qed.

Lemma gl_prepare_planes_emits gl_buf pbo_to_cuda i n :
  emits (device_event D) (gl_prepare_planes env gl_buf pbo_to_cuda i n)
    (fun _ => True).
Proof.
  revert i. induction n as [|n IH]; intros i; cbn [gl_prepare_planes]; [estep|].
  eapply emits_bind; [apply ensure_resource_emits|]. intros [|] _; cbn [negb];
    [|estep].
  eapply emits_bind; [|intros _ _; apply IH].
  destruct pbo_to_cuda; cbn [negb]; repeat estep.
Qed.

Lemma get_mapped_pointer_emits i :
  emits (device_event D) (get_mapped_pointer env i) (fun _ => True).
Proof.
  intros h a t E. unfold get_mapped_pointer in E.
  inversion E. subst. split; [repeat constructor | exact I].
Qed.

(** The interop copy loop passes descriptors that differ from the
    prepared ones on the GL side only. *)
Lemma gl_copy_planes_emits self pbo_to_cuda cp i n :
  (forall k dev stride, (i <= k)%nat ->
     D k (gl_descriptor pbo_to_cuda dev stride (default zero_copy2d (cp !! k)))) ->
  emits (device_event D) (gl_copy_planes env self pbo_to_cuda cp i n)
    (fun _ => True).
Proof.
  revert cp i. induction n as [|n IH]; intros cp i HD; cbn [gl_copy_planes];
    [estep|].
  estep; estep; [|estep].
  eapply emits_bind; [apply get_mapped_pointer_emits|].
  intros [got dev_ptr] _. destruct got; cbn [negb]; [|repeat estep].
  eapply emits_bind.
  { apply emits_call. intros ok. cbn.
    specialize (HD i dev_ptr). unfold gl_descriptor in HD.
    destruct pbo_to_cuda; apply HD; lia. }
  intros [|] _; estep; estep; [|estep].
  apply IH. intros k dev stride Hk.
  rewrite list_lookup_insert_ne by lia. apply HD. lia.
Qed.

Lemma gl_copy_thread_func_emits (self : GstCudaMemoryCopy)
    (inbuf outbuf : GstBuffer) (pbo_to_cuda : bool)
    (cuda_mem_type : GstCudaMemoryCopyMemType) :
  (forall i p, side_from_surface (uses_surface have_nvmm cuda_mem_type)
                 (if pbo_to_cuda then outbuf else inbuf) (negb pbo_to_cuda) true i p ->
               D i p) ->
  emits (device_event D)
    (gl_copy_thread_func env have_nvmm self inbuf outbuf pbo_to_cuda cuda_mem_type)
    (fun _ => True).
Proof.
  intros HD. unfold gl_copy_thread_func.
  eapply emits_bind; [apply ensure_gl_interop_emits|].
  intros [|] _; cbn [negb]; [|estep].
  eapply emits_bind; [apply map_and_fill_emits|].
  intros [[[|] ms] cp] Hmap; cbn [negb]; [|estep].
  destruct (Hmap eq_refl) as (-> & Hf). clear Hmap.
  eapply emits_bind; [apply emits_assert|]. intros _ _.
  estep; [|eapply emits_bind; [apply unmap_emits | intros _ _; estep]].
  eapply emits_bind; [apply gl_prepare_planes_emits|]. intros prepared _.
  eapply emits_bind with (R := fun _ => True).
  { destruct prepared; cbn [negb]; [|estep].
    apply gl_copy_planes_emits. intros k dev stride _. apply HD.
    intros Hnv sp Hsp Hk Hk4.
    pose proof (filled_by_side _ _ _ _ _ _ _ k Hf)  as Hside.
    rewrite length_replicate in Hside.
    specialize (Hside Hk4 sp Hnv Hsp Hk).
    destruct Hside as (Haddr & Hdims). unfold gl_descriptor.
    destruct pbo_to_cuda; cbn [negb] in *; (split; [|intros _]).
    - eapply same_dst_from_surface; [|exact Haddr]. repeat split.
    - eapply same_dims_from_surface; [|exact Hdims]. repeat split.
    - eapply same_src_from_surface; [|exact Haddr]. repeat split.
    - eapply same_dims_from_surface; [|exact Hdims]. repeat split. }
  intros ret _. estep.
  eapply emits_bind; [apply unmap_emits | intros _ _; estep].
Qed.

Lemma gl_interop_emits (self : GstCudaMemoryCopy)
    (inbuf outbuf : GstBuffer) (pbo_to_cuda : bool)
    (cuda_mem_type : GstCudaMemoryCopyMemType) :
  (forall i p, side_from_surface (uses_surface have_nvmm cuda_mem_type)
                 (if pbo_to_cuda then outbuf else inbuf) (negb pbo_to_cuda) true i p ->
               D i p) ->
  emits (device_event D)
    (gst_cuda_memory_copy_gl_interop env have_nvmm self inbuf outbuf pbo_to_cuda
       cuda_mem_type)
    (fun _ => True).
Proof.
  intros HD. unfold gst_cuda_memory_copy_gl_interop.
  eapply emits_bind; [apply emits_assert|]. intros _ _.
  estep. apply gl_copy_thread_func_emits. exact HD.
Qed.

Lemma transform_cuda_emits self inbuf in_type outbuf out_type :
  (forall i p, nvmm_descriptor (uses_surface have_nvmm in_type)
                 (uses_surface have_nvmm out_type) inbuf outbuf i p -> D i p) ->
  emits (device_event D)
    (gst_cuda_memory_copy_transform_cuda env have_nvmm self inbuf in_type
       outbuf out_type)
    (fun _ => True).
Proof.
  intros HD h. eapply yields_weaken;
    [apply returns_yields, transform_cuda_returns|].
  intros r t Hshape. split; [|exact I].
  eapply Forall_impl; [apply (cuda_copy_trace_descriptors _ _ _ _ _ _ _ _ Hshape)|].
  intros [] He; cbn in *; auto.
Qed.

End Interop.

(** ** Plane count mismatch *)

Lemma map_and_fill_mismatch env buf info ty is_src cp h :
  uses_surface true ty = true -> plane_count_mismatch buf info ->
  returns (gst_cuda_memory_copy_map_and_fill_copy2d env true buf info ty is_src cp)
    h (fun '(ok, ms, cp') t => ok = false /\ ms = unmapped).
Proof.
  intros Hnv (sp & Hsp & Hne).
  eapply returns_weaken; [apply map_and_fill_returns|].
  intros [[ok ms] cp'] t [(_ & _ & _ & Hf) | (-> & -> & _)]; [|auto].
  exfalso. unfold filled_by in Hf. rewrite Hnv in Hf.
  destruct Hf as (sp' & mt & Hsp' & Hn & _). congruence.
Qed.

Lemma transform_cuda_mismatch env self inbuf in_type outbuf out_type h :
  (uses_surface true in_type = true /\ plane_count_mismatch inbuf (in_info self)) \/
  (uses_surface true out_type = true /\ plane_count_mismatch outbuf (out_info self)) ->
  returns (gst_cuda_memory_copy_transform_cuda env true self inbuf in_type
             outbuf out_type) h (fun r _ => r = false).
Proof.
  intros Hmis. eapply returns_weaken; [apply transform_cuda_returns|].
  intros r t [(-> & _) | [(-> & _) | [(-> & _) |
    (cp1 & cp & copies & Hf1 & Hf2 & _)]]]; try reflexivity.
  exfalso. unfold filled_by in Hf1, Hf2.
  destruct Hmis as [(Hnv & sp & Hsp & Hne) | (Hnv & sp & Hsp & Hne)].
  - rewrite Hnv in Hf1. destruct Hf1 as (sp' & mt & Hsp' & Hn & _). congruence.
  - rewrite Hnv in Hf2. destruct Hf2 as (sp' & mt & Hsp' & Hn & _). congruence.
Qed.

Lemma ensure_gl_interop_returns env h (Q : bool -> list Event -> Prop) :
  (forall ok t, Q ok t) -> returns (gst_cuda_memory_copy_ensure_gl_interop env) h Q.
Proof. intros H. eexists _, _. split; [reflexivity | apply H]. Qed.

Lemma gl_interop_mismatch env (self : GstCudaMemoryCopy) (inbuf outbuf : GstBuffer)
    (pbo_to_cuda : bool) h :
  plane_count_mismatch (if pbo_to_cuda then outbuf else inbuf)
    (if pbo_to_cuda then out_info self else in_info self) ->
  returns (gst_cuda_memory_copy_gl_interop env true self inbuf outbuf pbo_to_cuda
             GST_CUDA_MEMORY_COPY_MEM_NVMM) h (fun r _ => r = false).
Proof.
  intros Hmis. unfold gst_cuda_memory_copy_gl_interop, gl_copy_thread_func.
  step. { exists tt, []. split; [reflexivity|]. step. step. step.
  apply ensure_gl_interop_returns. intros [|] t; cbn [negb]; [|step; reflexivity].
  step. eapply returns_weaken;
    [apply map_and_fill_mismatch; [reflexivity | exact Hmis]|].
  intros [[ok ms] cp] t' (-> & _). cbn [negb]. step. reflexivity. }
Qed.

Lemma sysmem_returns env inbuf outbuf h :
  returns (gst_cuda_memory_copy_transform_sysmem env inbuf outbuf) h
    (fun _ _ => True).
Proof.
  eapply returns_weaken; [apply transform_sysmem_returns | auto].
Qed.

(** ** The transform *)

Lemma nvmm_descriptor_weaken (nv_in nv_out nv_in' nv_out' : bool) inbuf outbuf i p :
  (nv_in' = true -> nv_in = true) -> (nv_out' = true -> nv_out = true) ->
  nvmm_descriptor nv_in nv_out inbuf outbuf i p ->
  nvmm_descriptor nv_in' nv_out' inbuf outbuf i p.
Proof.
  intros H1 H2 (Hi & Ho). split; intros Hnv; [apply Hi | apply Ho]; auto.
Qed.

Lemma side_in_descriptor nv inbuf outbuf i p :
  side_from_surface nv inbuf true true i p ->
  nvmm_descriptor nv false inbuf outbuf i p.
Proof.
  intros H. split; [|intros Hf; discriminate].
  intros Hnv sp Hsp Hk Hk4. destruct (H Hnv sp Hsp Hk Hk4) as (Ha & _).
  split; [exact Ha | discriminate].
Qed.

Lemma side_out_descriptor nv inbuf outbuf i p :
  side_from_surface nv outbuf false true i p ->
  nvmm_descriptor false nv inbuf outbuf i p.
Proof. intros H. split; [intros Hf; discriminate | exact H]. Qed.

Ltac transform_step :=
  first
    [ estep
    | eapply emits_bind;
      [ apply transform_cuda_emits; intros ? ? ?;
        eapply nvmm_descriptor_weaken; [| |eassumption]; cbn; auto
      | intros ? _ ]
    | eapply emits_bind;
      [ apply gl_interop_emits; intros ? ? ?;
        first [ eapply nvmm_descriptor_weaken;
                [| |apply side_in_descriptor; eassumption]; cbn; auto
              | eapply nvmm_descriptor_weaken;
                [| |apply side_out_descriptor; eassumption]; cbn; auto ]
      | intros ? _ ]
    | progress (rewrite ?andb_false_r; cbn [andb negb mem_type_eqb])
    | lazymatch goal with
      | |- emits _ ((if negb ?r then _ else _) ≫= _) _ => destruct r
      | |- emits _ (_ ≫= _) _ =>
          eapply emits_bind with (R := fun _ => True); [|intros ? _]
      end ].

(** With an NVMM buffer at either end, every copy descriptor takes that
    end from the buffer's surface and the staged copy is never entered. *)
Lemma transform_nvmm_emits env have_gl self inbuf outbuf :
  in_nvmm self = true \/ out_nvmm self = true ->
  emits (device_event (nvmm_descriptor (in_nvmm self) (out_nvmm self) inbuf outbuf))
    (gst_cuda_memory_copy_transform env true have_gl self inbuf outbuf)
    (fun _ => True).
Proof.
  intros Hnv. unfold gst_cuda_memory_copy_transform.
  destruct (memories inbuf !! 0%nat) as [in_mem|]; [|estep].
  destruct (memories outbuf !! 0%nat) as [out_mem|]; [|estep].
  unfold classify.
  destruct (in_nvmm self) eqn:Hin, (out_nvmm self) eqn:Hout;
    [| | |destruct Hnv; discriminate].
  - cbn. repeat transform_step.
  - destruct have_gl, (gl_context self), (gst_is_cuda_memory out_mem),
      (gst_is_gl_memory_pbo out_mem); cbn; repeat transform_step.
  - destruct have_gl, (gl_context self), (gst_is_cuda_memory in_mem),
      (gst_is_gl_memory_pbo in_mem); cbn; repeat transform_step.
Qed.

Ltac mismatch_step Hm :=
  first
    [ reflexivity
    | step
    | eapply returns_weaken;
      [ apply transform_cuda_mismatch; cbn;
        first [ left; split; [reflexivity | exact Hm]
              | right; split; [reflexivity | exact Hm] ]
      | intros ? ? -> ]
    | eapply returns_weaken;
      [ apply gl_interop_mismatch; exact Hm | intros ? ? -> ]
    | progress (rewrite ?andb_false_r; cbn [andb negb mem_type_eqb]) ].

(** A plane count that differs from the negotiated one fails the frame. *)
Lemma transform_mismatch_error env have_gl self inbuf outbuf h :
  (in_nvmm self = true /\ plane_count_mismatch inbuf (in_info self)) \/
  (out_nvmm self = true /\ plane_count_mismatch outbuf (out_info self)) ->
  returns (gst_cuda_memory_copy_transform env true have_gl self inbuf outbuf) h
    (fun r _ => r = GST_FLOW_ERROR).
Proof.
  intros Hmis. unfold gst_cuda_memory_copy_transform.
  destruct (memories inbuf !! 0%nat) as [in_mem|]; [|step; reflexivity].
  destruct (memories outbuf !! 0%nat) as [out_mem|]; [|step; reflexivity].
  unfold classify.
  destruct Hmis as [(Hnv & Hm) | (Hnv & Hm)]; rewrite Hnv.
  - destruct (out_nvmm self), have_gl, (gl_context self),
      (gst_is_cuda_memory out_mem), (gst_is_gl_memory_pbo out_mem);
      cbn; repeat mismatch_step Hm.
  - destruct (in_nvmm self), have_gl, (gl_context self),
      (gst_is_cuda_memory in_mem), (gst_is_gl_memory_pbo in_mem);
      cbn; repeat mismatch_step Hm.
Qed.

Lemma bind_some {A B} (m : M A) (f : A -> M B) h a t1 :
  m h = Some (a, t1) ->
  (m ≫= f) h = match f a (h ++ t1) with
               | None => None
               | Some (b, t2) => Some (b, t1 ++ t2)
               end.
Proof. intros H. unfold mbind, M_bind. rewrite H. reflexivity. Qed.

Lemma bind_some_ret {A B} (m : M A) (g : A -> B) h a t :
  m h = Some (a, t) -> (m ≫= fun x => mret (g x)) h = Some (g a, t).
Proof.
  intros H. rewrite (bind_some _ _ _ _ _ H). cbn. rewrite app_nil_r. reflexivity.
Qed.

Lemma staged_attempts_app t1 t2 :
  staged_attempts (t1 ++ t2) = (staged_attempts t1 + staged_attempts t2)%nat.
Proof. unfold staged_attempts. rewrite List.filter_app, length_app. reflexivity. Qed.

Lemma device_events_no_staged D t :
  Forall (device_event D) t -> staged_attempts t = 0%nat.
Proof.
  induction 1 as [|e t He _ IH]; [reflexivity|].
  unfold staged_attempts in *. cbn.
  destruct e as [[]| | | | | | | | | | | | | | | | | | | | | | |];
    cbn in *; try exact IH. contradiction.
Qed.

Lemma sysmem_one_attempt env inbuf outbuf h ok t :
  gst_cuda_memory_copy_transform_sysmem env inbuf outbuf h = Some (ok, t) ->
  staged_attempts t = 1%nat.
Proof.
  intros E.
  destruct (returns_yields _ _ _ (transform_sysmem_returns env inbuf outbuf h)
              ok t E) as (_ & [(_ & ->) | [(_ & ->) | ->]]); reflexivity.
Qed.

(** ** Interop fallback *)

(** C1, on the code: between a GL buffer and a CUDA buffer, when the
    interop copy fails the staged copy is attempted exactly once, but the
    transform then reports the opposite of its outcome: an error when the
    staged copy succeeded, success when it failed. *)
Theorem gl_fallback_result_inverted (env : Env) (have_nvmm : bool)
    (self : GstCudaMemoryCopy) (inbuf outbuf : GstBuffer) (pbo_to_cuda : bool)
    (gl_mem cuda_mem : GstMemory) (h t1 t2 : list Event) (ok : bool) :
  memories (if pbo_to_cuda then inbuf else outbuf) !! 0%nat = Some gl_mem ->
  memories (if pbo_to_cuda then outbuf else inbuf) !! 0%nat = Some cuda_mem ->
  in_nvmm self = false -> out_nvmm self = false -> gl_context self = true ->
  mem_kind gl_mem = MEM_GL_PBO -> mem_kind cuda_mem = MEM_CUDA ->
  gst_cuda_memory_copy_gl_interop env have_nvmm self inbuf outbuf pbo_to_cuda
    GST_CUDA_MEMORY_COPY_MEM_CUDA h = Some (false, t1) ->
  gst_cuda_memory_copy_transform_sysmem env inbuf outbuf (h ++ t1) = Some (ok, t2) ->
  gst_cuda_memory_copy_transform env have_nvmm true self inbuf outbuf h
    = Some (if ok then GST_FLOW_ERROR else GST_FLOW_OK, t1 ++ t2) /\
  staged_attempts (t1 ++ t2) = 1%nat.
Proof.
  intros Hgl Hcuda Hin Hout Hctx Hkg Hkc Hinterop Hsys. split.
  - unfold gst_cuda_memory_copy_transform, classify, gst_is_cuda_memory,
      gst_is_gl_memory_pbo.
    destruct pbo_to_cuda; rewrite Hgl, Hcuda, Hin, Hout, Hctx, Hkg, Hkc;
      cbn [andb orb negb mem_type_eqb];
      rewrite (bind_some _ _ _ _ _ Hinterop); cbn [negb mem_type_eqb];
      rewrite (bind_some_ret _ flow_of _ _ _ (bind_some_ret _ negb _ _ _ Hsys));
      destruct ok; reflexivity.
  - rewrite staged_attempts_app.
    rewrite (sysmem_one_attempt _ _ _ _ _ _ Hsys).
    assert (Hnone : staged_attempts t1 = 0%nat); [|rewrite Hnone; reflexivity].
    apply (device_events_no_staged (fun _ _ => True)).
    eapply (gl_interop_emits env have_nvmm (fun _ _ => True)); [auto | exact Hinterop].
Qed.

Lemma gl_fallback_result_inverted_witness :
  gst_cuda_memory_copy_transform env_no_gl_device true true gl_to_cuda_self
    gl_input cuda_output []
  = Some (GST_FLOW_ERROR,
          [enter PATH_GL_INTEROP; CuGLGetDevices true 0]
          ++ [enter PATH_SYSMEM;
              gst_video_frame_map 1 (mkFlags true false false) true;
              gst_video_frame_map 2 (mkFlags false true false) true;
              gst_video_frame_copy 2 1 true;
              gst_video_frame_unmap 2; gst_video_frame_unmap 1]).
Proof.
  apply (gl_fallback_result_inverted env_no_gl_device true gl_to_cuda_self
           gl_input cuda_output true (mkMemory MEM_GL_PBO false)
           (mkMemory MEM_CUDA false) []
           [enter PATH_GL_INTEROP; CuGLGetDevices true 0]
           [enter PATH_SYSMEM;
            gst_video_frame_map 1 (mkFlags true false false) true;
            gst_video_frame_map 2 (mkFlags false true false) true;
            gst_video_frame_copy 2 1 true;
            gst_video_frame_unmap 2; gst_video_frame_unmap 1] true);
    reflexivity.
Defined.

(** ** Classification of tagged buffers *)

(** C3, as stated, fails: a GL buffer met without a GL context is
    classified as system memory, but with a CUDA buffer at the other end
    the transfer takes the direct device copy, not the staged one. *)
Lemma tagged_uninitialized_counterexample :
  tagged_uninitialized no_gl_self (in_nvmm no_gl_self) (mkMemory MEM_GL_PBO false) /\
  memories gl_input !! 0%nat = Some (mkMemory MEM_GL_PBO false) /\
  ~ (fst (classify true no_gl_self (in_nvmm no_gl_self) (mkMemory MEM_GL_PBO false))
       = GST_CUDA_MEMORY_COPY_MEM_SYSTEM /\
     proceeds_on_sysmem_path env_all_ok true true no_gl_self gl_input cuda_output).
Proof.
  split; [right; split; reflexivity|]. split; [reflexivity|].
  intros (_ & H). specialize (H []). vm_compute in H. discriminate H.
Qed.

Lemma classify_tagged_uninitialized have_gl self nvmm mem :
  tagged_uninitialized self nvmm mem -> nvmm = false ->
  classify have_gl self nvmm mem = (GST_CUDA_MEMORY_COPY_MEM_SYSTEM, false).
Proof.
  intros [(Hk & _) | (Hk & Hctx)] ->;
    unfold classify, gst_is_cuda_memory, gst_is_gl_memory_pbo; rewrite Hk;
    [|rewrite Hctx]; rewrite ?andb_false_r; reflexivity.
Qed.

(** C3 (amended): an end whose buffer carries the NVMM or GL tag while
    the subsystem is not available (the NVMM init check failed, so that
    [set_info] left the NVMM flag unset, or there is no GL context) is
    classified as system memory.  The transfer takes the staged copy when
    the other end asks for no device copy either, and otherwise the direct
    device copy with this end as system memory. *)
Theorem tagged_uninitialized_is_system (env : Env) (have_nvmm have_gl : bool)
    (self : GstCudaMemoryCopy) (inbuf outbuf : GstBuffer)
    (in_mem out_mem : GstMemory) :
  memories inbuf !! 0%nat = Some in_mem ->
  memories outbuf !! 0%nat = Some out_mem ->
  (forall self0 incaps outcaps,
     have_nvmm = true ->
     in_nvmm (gst_cuda_memory_copy_set_info have_nvmm false self0 incaps outcaps)
       = false /\
     out_nvmm (gst_cuda_memory_copy_set_info have_nvmm false self0 incaps outcaps)
       = false) /\
  (in_nvmm self = false -> tagged_uninitialized self (in_nvmm self) in_mem ->
   let out_class := classify have_gl self (out_nvmm self) out_mem in
   classify have_gl self (in_nvmm self) in_mem
     = (GST_CUDA_MEMORY_COPY_MEM_SYSTEM, false) /\
   (snd out_class = false ->
    proceeds_on_sysmem_path env have_nvmm have_gl self inbuf outbuf) /\
   (snd out_class = true ->
    proceeds_on_device_path env have_nvmm have_gl self inbuf
      GST_CUDA_MEMORY_COPY_MEM_SYSTEM outbuf (fst out_class))) /\
  (out_nvmm self = false -> tagged_uninitialized self (out_nvmm self) out_mem ->
   let in_class := classify have_gl self (in_nvmm self) in_mem in
   classify have_gl self (out_nvmm self) out_mem
     = (GST_CUDA_MEMORY_COPY_MEM_SYSTEM, false) /\
   (snd in_class = false ->
    proceeds_on_sysmem_path env have_nvmm have_gl self inbuf outbuf) /\
   (snd in_class = true ->
    proceeds_on_device_path env have_nvmm have_gl self inbuf (fst in_class)
      outbuf GST_CUDA_MEMORY_COPY_MEM_SYSTEM)).
Proof.
  intros Hi Ho. split; [|split].
  - intros self0 incaps outcaps ->. split; reflexivity.
  - intros Hflag Htag. cbv zeta.
    pose proof (classify_tagged_uninitialized have_gl self _ in_mem Htag Hflag)
      as Hc.
    split; [exact Hc|].
    unfold proceeds_on_sysmem_path, proceeds_on_device_path,
      gst_cuda_memory_copy_transform.
    rewrite Hi, Ho, Hc.
    destruct (classify have_gl self (out_nvmm self) out_mem) as [out_type out_dev]
      eqn:Hoc.
    cbn [fst snd]. split; intros -> h; cbn [orb negb]; [reflexivity|].
    rewrite andb_false_r.
    assert (Hnogl : have_gl && mem_type_eqb out_type GST_CUDA_MEMORY_COPY_MEM_GL
                    = false).
    { unfold classify in Hoc.
      destruct (out_nvmm self); [inversion Hoc; apply andb_false_r|].
      destruct (gst_is_cuda_memory out_mem); [inversion Hoc; apply andb_false_r|].
      destruct (have_gl && gl_context self && gst_is_gl_memory_pbo out_mem);
        inversion Hoc. }
    rewrite Hnogl. reflexivity.
  - intros Hflag Htag. cbv zeta.
    pose proof (classify_tagged_uninitialized have_gl self _ out_mem Htag Hflag)
      as Hc.
    split; [exact Hc|].
    unfold proceeds_on_sysmem_path, proceeds_on_device_path,
      gst_cuda_memory_copy_transform.
    rewrite Hi, Ho, Hc.
    destruct (classify have_gl self (in_nvmm self) in_mem) as [in_type in_dev]
      eqn:Hic.
    cbn [fst snd]. split; intros -> h; cbn [orb negb]; [reflexivity|].
    rewrite andb_false_r.
    assert (Hnogl : have_gl && mem_type_eqb in_type GST_CUDA_MEMORY_COPY_MEM_GL
                    = false).
    { unfold classify in Hic.
      destruct (in_nvmm self); [inversion Hic; apply andb_false_r|].
      destruct (gst_is_cuda_memory in_mem); [inversion Hic; apply andb_false_r|].
      destruct (have_gl && gl_context self && gst_is_gl_memory_pbo in_mem);
        inversion Hic. }
    rewrite Hnogl. reflexivity.
Qed.

Lemma tagged_uninitialized_is_system_witness :
  classify true no_gl_self (in_nvmm no_gl_self) (mkMemory MEM_GL_PBO false)
    = (GST_CUDA_MEMORY_COPY_MEM_SYSTEM, false) /\
  proceeds_on_device_path env_all_ok true true no_gl_self gl_input
    GST_CUDA_MEMORY_COPY_MEM_SYSTEM cuda_output GST_CUDA_MEMORY_COPY_MEM_CUDA.
Proof.
  destruct (tagged_uninitialized_is_system env_all_ok true true no_gl_self
              gl_input cuda_output (mkMemory MEM_GL_PBO false)
              (mkMemory MEM_CUDA false) eq_refl eq_refl) as (_ & Hin & _).
  destruct (Hin eq_refl (or_intror (conj eq_refl eq_refl))) as (Hc & _ & Hdev).
  split; [exact Hc | exact (Hdev eq_refl)].
Defined.

(** ** Termination without abort *)

Lemma total_ret {A} (a : A) : total (mret a).
Proof. intros h. apply returns_ret. exact I. Qed.

Lemma total_bind {A B} (m : M A) (f : A -> M B) :
  total m -> (forall a, total (f a)) -> total (m ≫= f).
Proof.
  intros Hm Hf h. apply returns_bind.
  eapply returns_weaken; [apply Hm|]. intros a t _.
  eapply returns_weaken; [apply Hf|]. auto.
Qed.

Lemma total_emit e : total (emit e).
Proof. intros h. apply returns_emit. exact I. Qed.

Lemma total_call env mk : total (call env mk).
Proof. intros h. apply returns_call. auto. Qed.

Lemma total_assert : total (g_assert true).
Proof. intros h. exists tt, []. auto. Qed.

Lemma total_of_returns {A} (m : M A) (Q : A -> list Event -> Prop) :
  (forall h, returns m h Q) -> total m.
Proof. intros H h. eapply returns_weaken; [apply H | auto]. Qed.

Ltac total_step :=
  first
    [ apply total_ret | apply total_emit | apply total_call | apply total_assert
    | apply total_bind; [|intros ?]
    | lazymatch goal with
      | |- total (if ?b then _ else _) => destruct b
      | |- total (match ?o with Some _ => _ | None => _ end) => destruct o
      | |- total (let '(_, _) := ?p in _) => destruct p
      end ].

Lemma ensure_gl_interop_total env : total (gst_cuda_memory_copy_ensure_gl_interop env).
Proof. intros h. eexists _, _. split; [reflexivity | exact I]. Qed.

Lemma get_mapped_pointer_total env i : total (get_mapped_pointer env i).
Proof. intros h. eexists _, _. split; [reflexivity | exact I]. Qed.

Lemma map_and_fill_total env have_nvmm buf info ty is_src cp :
  total (gst_cuda_memory_copy_map_and_fill_copy2d env have_nvmm buf info ty is_src cp).
Proof. eapply total_of_returns. intros h. apply map_and_fill_returns. Qed.

Lemma unmap_total buf ms : total (gst_cuda_memory_copy_unmap buf ms).
Proof. unfold gst_cuda_memory_copy_unmap. repeat total_step. Qed.

Lemma transform_sysmem_total env inbuf outbuf :
  total (gst_cuda_memory_copy_transform_sysmem env inbuf outbuf).
Proof. eapply total_of_returns. intros h. apply transform_sysmem_returns. Qed.

Lemma transform_cuda_total env have_nvmm self inbuf in_type outbuf out_type :
  total (gst_cuda_memory_copy_transform_cuda env have_nvmm self inbuf in_type
           outbuf out_type).
Proof. eapply total_of_returns. intros h. apply transform_cuda_returns. Qed.

Lemma ensure_resource_total env mem i :
  total (ensure_cuda_gl_graphics_resource env mem i).
Proof. unfold ensure_cuda_gl_graphics_resource. repeat total_step. Qed.

Lemma gl_prepare_planes_total env gl_buf pbo_to_cuda i n :
  total (gl_prepare_planes env gl_buf pbo_to_cuda i n).
Proof.
  revert i. induction n as [|n IH]; intros i; cbn [gl_prepare_planes];
    [apply total_ret|].
  apply total_bind; [apply ensure_resource_total|]. intros [|]; cbn [negb];
    [|apply total_ret].
  apply total_bind; [|intros _; apply IH].
  destruct pbo_to_cuda; cbn [negb]; repeat total_step.
Qed.

Lemma gl_copy_planes_total env self pbo_to_cuda cp i n :
  total (gl_copy_planes env self pbo_to_cuda cp i n).
Proof.
  revert cp i. induction n as [|n IH]; intros cp i; cbn [gl_copy_planes];
    [apply total_ret|].
  apply total_bind; [apply total_call|]. intros [|]; cbn [negb];
    [|apply total_ret].
  apply total_bind; [apply get_mapped_pointer_total|].
  intros [[|] dev_ptr]; cbn [negb]; [|repeat total_step].
  apply total_bind; [apply total_call|]. intros copy_ret.
  apply total_bind; [apply total_emit|]. intros _.
  destruct copy_ret; cbn [negb]; [apply IH | apply total_ret].
Qed.

(** The interop copy returns when the GL buffer holds a memory for every
    plane and the other buffer is a CUDA or NVMM one, as its two
    assertions demand. *)
Lemma gl_interop_total env have_nvmm (self : GstCudaMemoryCopy)
    (inbuf outbuf : GstBuffer) (pbo_to_cuda : bool)
    (cuda_mem_type : GstCudaMemoryCopyMemType) :
  (info_n_planes (in_info self)
   <= length (memories (if pbo_to_cuda then inbuf else outbuf)))%nat ->
  mem_type_eqb cuda_mem_type GST_CUDA_MEMORY_COPY_MEM_CUDA
  || mem_type_eqb cuda_mem_type GST_CUDA_MEMORY_COPY_MEM_NVMM = true ->
  total (gst_cuda_memory_copy_gl_interop env have_nvmm self inbuf outbuf
           pbo_to_cuda cuda_mem_type).
Proof.
  intros Hlen Hty. unfold gst_cuda_memory_copy_gl_interop, gl_copy_thread_func.
  rewrite Hty. apply Nat.leb_le in Hlen. rewrite Hlen.
  apply total_bind; [apply total_assert|]. intros _.
  apply total_bind; [apply total_emit|]. intros _.
  apply total_bind; [apply ensure_gl_interop_total|]. intros [|]; cbn [negb];
    [|apply total_ret].
  apply total_bind; [apply map_and_fill_total|]. intros [[[|] ms] cp]; cbn [negb];
    [|apply total_ret].
  apply total_bind; [apply total_assert|]. intros _.
  apply total_bind; [apply total_call|]. intros [|]; cbn [negb].
  - apply total_bind; [apply gl_prepare_planes_total|]. intros prepared.
    apply total_bind.
    + destruct prepared; cbn [negb];
        [apply gl_copy_planes_total | apply total_ret].
    + intros ret. apply total_bind; [apply total_emit|]. intros _.
      apply total_bind; [apply unmap_total | intros _; apply total_ret].
  - apply total_bind; [apply unmap_total | intros _; apply total_ret].
Qed.

(** The transform returns when each buffer holds a memory for every
    plane of the input format. *)
Lemma transform_total env have_nvmm have_gl self inbuf outbuf :
  (info_n_planes (in_info self) <= length (memories inbuf))%nat ->
  (info_n_planes (in_info self) <= length (memories outbuf))%nat ->
  total (gst_cuda_memory_copy_transform env have_nvmm have_gl self inbuf outbuf).
Proof.
  intros Hin Hout. unfold gst_cuda_memory_copy_transform.
  destruct (memories inbuf !! 0%nat) as [in_mem|]; [|apply total_ret].
  destruct (memories outbuf !! 0%nat) as [out_mem|]; [|apply total_ret].
  unfold classify.
  destruct (in_nvmm self), (out_nvmm self), have_gl, (gl_context self),
    (gst_is_cuda_memory in_mem), (gst_is_cuda_memory out_mem),
    (gst_is_gl_memory_pbo in_mem), (gst_is_gl_memory_pbo out_mem);
    cbn [andb orb negb mem_type_eqb];
    repeat first
      [ apply transform_sysmem_total | apply transform_cuda_total
      | apply gl_interop_total; [assumption | reflexivity]
      | total_step ].
Qed.

(** ** NVMM buffers *)

(** C6, as stated, fails: with an NVMM input and a CUDA output the
    descriptor passed to the copy carries the width and height of the
    output frame (64 by 48 here), not those of the input surface (100 by
    50). *)
Lemma nvmm_input_dimensions_counterexample :
  exists t,
    gst_cuda_memory_copy_transform env_all_ok true true nvmm_in_self
      nvmm_input cuda_output [] = Some (GST_FLOW_OK, t) /\
    ~ Forall (device_event
                (fun i p => side_from_surface true nvmm_input true true i p)) t.
Proof.
  eexists. split; [vm_compute; reflexivity|].
  intros H. rewrite Forall_forall in H.
  match type of H with
  | forall x, x ∈ ?l -> _ =>
      match l with
      | context [CuMemcpy2DAsync ?i ?p ?ok] =>
          specialize (H (CuMemcpy2DAsync i p ok))
      end
  end.
  cbn [device_event] in H.
  destruct H with (sp := mkSurfaceParams 65536
                           (mkPlaneParams 1 [100] [50] [128] [0] [1]))
    as (_ & Hdims).
  - repeat first [apply list_elem_of_here | apply list_elem_of_further].
  - reflexivity.
  - reflexivity.
  - cbn. lia.
  - unfold GST_VIDEO_MAX_PLANES. lia.
  - destruct (Hdims eq_refl) as (Hw & _). vm_compute in Hw. discriminate Hw.
Qed.

(** C6 (amended): in a build with NVMM support, when the input or the
    output is an NVMM buffer, the transform returns (given a memory for
    every plane in each buffer), and every descriptor it passed to a copy
    takes the address and pitch of the NVMM side from the planes of the
    buffer's surface, and the width and height from the surface of an NVMM
    output; the staged copy is never entered; and a surface whose plane
    count differs from the negotiated one fails the frame. *)
Theorem nvmm_transfer (env : Env) (have_gl : bool) (self : GstCudaMemoryCopy)
    (inbuf outbuf : GstBuffer) (h : list Event) :
  in_nvmm self = true \/ out_nvmm self = true ->
  ((info_n_planes (in_info self) <= length (memories inbuf))%nat ->
   (info_n_planes (in_info self) <= length (memories outbuf))%nat ->
   exists r t,
     gst_cuda_memory_copy_transform env true have_gl self inbuf outbuf h
       = Some (r, t)) /\
  (forall r t,
     gst_cuda_memory_copy_transform env true have_gl self inbuf outbuf h
       = Some (r, t) ->
     Forall (device_event
               (nvmm_descriptor (in_nvmm self) (out_nvmm self) inbuf outbuf)) t /\
     staged_attempts t = 0%nat) /\
  ((in_nvmm self = true /\ plane_count_mismatch inbuf (in_info self)) \/
   (out_nvmm self = true /\ plane_count_mismatch outbuf (out_info self)) ->
   exists t,
     gst_cuda_memory_copy_transform env true have_gl self inbuf outbuf h
       = Some (GST_FLOW_ERROR, t)).
Proof.
  intros Hnv. split; [|split].
  - intros Hin Hout.
    destruct (transform_total env true have_gl self inbuf outbuf Hin Hout h)
      as (r & t & E & _).
    exists r, t. exact E.
  - intros r t E.
    destruct (transform_nvmm_emits env have_gl self inbuf outbuf Hnv h r t E)
      as (Hall & _).
    split; [exact Hall | apply (device_events_no_staged _ _ Hall)].
  - intros Hmis.
    destruct (transform_mismatch_error env have_gl self inbuf outbuf h Hmis)
      as (r & t & E & ->).
    exists t. exact E.
Qed.

Lemma nvmm_transfer_witness :
  Forall (device_event (nvmm_descriptor false true cuda_input nvmm_output))
    [enter PATH_CUDA;
     gst_video_frame_map 1 (mkFlags true false true) true;
     gst_buffer_map 2 true;
     gst_cuda_context_push true;
     CuMemcpy2DAsync 0
       (mkCopy2D (Some CU_MEMORYTYPE_DEVICE) 0 8192 64
                 (Some CU_MEMORYTYPE_DEVICE) 0 65536 128 100 50) true;
     CuStreamSynchronize; gst_cuda_context_pop;
     gst_video_frame_unmap 1; gst_buffer_unmap 2].
Proof.
  apply (proj1 (proj2 (nvmm_transfer env_all_ok true nvmm_out_self cuda_input
                         nvmm_output [] (or_intror eq_refl))) GST_FLOW_OK).
  vm_compute. reflexivity.
Defined.

(** * Further properties of gstcudamemorycopy.c *)

(** ** The copy loop, plane by plane *)

Lemma copied_planes_S cp i n :
  copied_planes cp i (S n) = plane_copied cp i :: copied_planes cp (S i) n.
Proof. reflexivity. Qed.

Lemma in_copied_planes cp i n k p ok :
  In (CuMemcpy2DAsync k p ok) (copied_planes cp i n) ->
  (i <= k < i + n)%nat /\ ok = true /\ p = default zero_copy2d (cp !! k).
Proof.
  unfold copied_planes. rewrite in_map_iff. intros (j & E & Hj).
  apply in_seq in Hj. unfold plane_copied in E. inversion E. subst. auto.
Qed.

Lemma copied_planes_in cp i n k :
  (i <= k < i + n)%nat -> In (plane_copied cp k) (copied_planes cp i n).
Proof. intros Hk. unfold copied_planes. apply in_map, in_seq. exact Hk. Qed.

Lemma copy_planes_outcome env cp i n ret h :
  returns (copy_planes env cp i n ret) h (copy_loop_outcome cp i n ret).
Proof.
  revert i ret h. induction n as [|n IH]; intros i ret h; cbn [copy_planes].
  - step. left. split; reflexivity.
  - step. step.
    + step. eapply returns_weaken; [apply IH|].
      intros r t [(-> & ->) | (-> & k & Hk & ->)].
      * left. split; [reflexivity|]. destruct n; reflexivity.
      * right. split; [reflexivity|]. exists (S k). split; [lia|].
        rewrite copied_planes_S. replace (i + S k)%nat with (S i + k)%nat by lia.
        reflexivity.
    + repeat step. right. split; [reflexivity|]. exists 0%nat.
      split; [lia|]. rewrite Nat.add_0_r. reflexivity.
Qed.

Lemma transform_cuda_outcome env have_nvmm self inbuf in_type outbuf out_type h :
  returns (gst_cuda_memory_copy_transform_cuda env have_nvmm self inbuf in_type
             outbuf out_type) h
    (cuda_copy_outcome have_nvmm self inbuf in_type outbuf out_type).
Proof.
  unfold gst_cuda_memory_copy_transform_cuda, cuda_copy_outcome.
  step. step. step.
  eapply returns_weaken; [apply map_and_fill_returns|].
  intros [[ok1 ms1] cp1] t1
    [(-> & -> & -> & Hf1) | (-> & -> & -> & Hfail1)]; cbn [negb].
  2: { step. left. split; [reflexivity|]. exists t1. rewrite app_nil_r. auto. }
  step.
  eapply returns_weaken; [apply map_and_fill_returns|].
  intros [[ok2 ms2] cp2] t2
    [(-> & -> & -> & Hf2) | (-> & -> & -> & Hfail2)]; cbn [negb].
  2: { step. eapply returns_weaken; [apply unmap_returns|].
       intros _ t ->. step. right. left. split; [reflexivity|].
       exists t2. split; [exact Hfail2|]. cbn. rewrite app_nil_r. reflexivity. }
  step. step.
  - step. step. eapply returns_weaken; [apply copy_planes_outcome|].
    intros r copies Hloop. repeat step.
    eapply returns_weaken; [apply unmap_returns|]. intros _ ? ->.
    step. eapply returns_weaken; [apply unmap_returns|]. intros _ ? ->.
    step. right. right. right. exists cp2, copies.
    split; [exact Hloop|]. cbn. rewrite !app_nil_r. reflexivity.
  - repeat step.
    eapply returns_weaken; [apply unmap_returns|]. intros _ ? ->.
    step. eapply returns_weaken; [apply unmap_returns|]. intros _ ? ->.
    step. right. right. left. split; [reflexivity|].
    cbn. rewrite !app_nil_r. reflexivity.
Qed.

Lemma map_event_not_copy e : is_map_event e = true -> is_copy_event e = false.
Proof. destruct e; cbn; congruence. Qed.

Lemma no_copy_in (t : list Event) k p ok :
  Forall (fun e => is_copy_event e = false) t -> ~ In (CuMemcpy2DAsync k p ok) t.
Proof.
  intros H Hin. rewrite Forall_forall in H.
  specialize (H _ (proj2 (list_elem_of_In _ _) Hin)). discriminate H.
Qed.

Lemma cuda_copy_outcome_success have_nvmm (self : GstCudaMemoryCopy)
    (inbuf : GstBuffer) (in_type : GstCudaMemoryCopyMemType) (outbuf : GstBuffer)
    (out_type : GstCudaMemoryCopyMemType) (ret : bool) (t : list Event) :
  cuda_copy_outcome have_nvmm self inbuf in_type outbuf out_type ret t ->
    (ret = true <->
     (0 < info_n_planes (in_info self))%nat /\
     forall k, (k < info_n_planes (in_info self))%nat ->
               exists p, In (CuMemcpy2DAsync k p true) t) /\
    (ret = true ->
     exists cp,
       t = [enter PATH_CUDA;
            acquire_event have_nvmm inbuf in_type true;
            acquire_event have_nvmm outbuf out_type false;
            gst_cuda_context_push true]
           ++ copied_planes cp 0 (info_n_planes (in_info self))
           ++ [CuStreamSynchronize; gst_cuda_context_pop]
           ++ release_events have_nvmm inbuf in_type
           ++ release_events have_nvmm outbuf out_type).
Proof.
  intros Hshape.
  set (n := info_n_planes (in_info self)) in *.
  assert (Hmaps : forall l, Forall (fun e => is_map_event e = true) l ->
                            Forall (fun e => is_copy_event e = false) l).
  { intros l Hl. eapply Forall_impl; [exact Hl | apply map_event_not_copy]. }
  assert (Hacq : forall buf ty s,
            is_copy_event (acquire_event have_nvmm buf ty s) = false).
  { intros. apply map_event_not_copy, acquire_is_map_event. }
  unfold cuda_copy_outcome in Hshape. fold n in Hshape.
  destruct Hshape as [(-> & f & Hf & ->) | [(-> & f & Hf & ->) | [(-> & ->) |
    (cp & copies & Hloop & ->)]]].
  - split; [|discriminate]. split; [discriminate|]. intros (Hn & Hall).
    destruct (Hall 0%nat Hn) as (p & Hin). exfalso.
    revert Hin. apply no_copy_in. constructor; [reflexivity|].
    apply Hmaps, (failed_map_is_map_event _ _ Hf).
  - split; [|discriminate]. split; [discriminate|]. intros (Hn & Hall).
    destruct (Hall 0%nat Hn) as (p & Hin). exfalso.
    revert Hin. apply no_copy_in. constructor; [reflexivity|].
    constructor; [apply Hacq|]. apply Hmaps, Forall_app.
    split; [apply (failed_map_is_map_event _ _ Hf) | apply release_is_map_event].
  - split; [|discriminate]. split; [discriminate|]. intros (Hn & Hall).
    destruct (Hall 0%nat Hn) as (p & Hin). exfalso.
    revert Hin. apply no_copy_in. cbn [app]. constructor; [reflexivity|].
    constructor; [apply Hacq|]. constructor; [apply Hacq|].
    constructor; [reflexivity|]. constructor; [reflexivity|].
    apply Hmaps, Forall_app. split; apply release_is_map_event.
  - assert (Htail : Forall (fun e => is_copy_event e = false)
                      ([CuStreamSynchronize; gst_cuda_context_pop]
                       ++ release_events have_nvmm inbuf in_type
                       ++ release_events have_nvmm outbuf out_type)).
    { cbn [app]. constructor; [reflexivity|]. constructor; [reflexivity|].
      apply Hmaps, Forall_app. split; apply release_is_map_event. }
    assert (Hhead : Forall (fun e => is_copy_event e = false)
                      [enter PATH_CUDA; acquire_event have_nvmm inbuf in_type true;
                       acquire_event have_nvmm outbuf out_type false;
                       gst_cuda_context_push true]).
    { constructor; [reflexivity|]. constructor; [apply Hacq|].
      constructor; [apply Hacq|]. constructor; [reflexivity | constructor]. }
    assert (Hsplit : forall k p ok,
              In (CuMemcpy2DAsync k p ok)
                 ([enter PATH_CUDA; acquire_event have_nvmm inbuf in_type true;
                   acquire_event have_nvmm outbuf out_type false;
                   gst_cuda_context_push true] ++ copies ++
                  [CuStreamSynchronize; gst_cuda_context_pop] ++
                  release_events have_nvmm inbuf in_type ++
                  release_events have_nvmm outbuf out_type) ->
              In (CuMemcpy2DAsync k p ok) copies).
    { intros k p ok Hin. apply in_app_or in Hin as [Hin | Hin];
        [exfalso; revert Hin; apply no_copy_in, Hhead|].
      apply in_app_or in Hin as [Hin | Hin]; [exact Hin|].
      exfalso; revert Hin; apply no_copy_in, Htail. }
    destruct Hloop as [(-> & ->) | (-> & k & Hk & ->)].
    + split; [split|].
      * intros Hr. destruct n as [|n']; [discriminate|]. split; [lia|].
        intros k Hk. eexists. apply in_or_app. right. apply in_or_app. left.
        apply copied_planes_in. lia.
      * intros (Hn & _). destruct n; [lia | reflexivity].
      * intros _. exists cp. reflexivity.
    + split; [|discriminate]. split; [discriminate|]. intros (_ & Hall).
      destruct (Hall k Hk) as (p & Hin). apply Hsplit in Hin.
      apply in_app_or in Hin as [Hin | Hin].
      * apply in_copied_planes in Hin. lia.
      * destruct Hin as [Hin | []]. inversion Hin.
Qed.

(** X1: the direct device copy returns [TRUE] exactly when there is at
    least one plane and the copy of every plane succeeded; it then made
    its calls in this order: both maps, the context push, one copy per
    plane in plane order, the synchronization, the context pop and both
    unmaps.  In particular a format without planes makes it fail. *)
Theorem transform_cuda_success (env : Env) (have_nvmm : bool)
    (self : GstCudaMemoryCopy) (inbuf : GstBuffer)
    (in_type : GstCudaMemoryCopyMemType) (outbuf : GstBuffer)
    (out_type : GstCudaMemoryCopyMemType) (h : list Event) :
  exists ret t,
    gst_cuda_memory_copy_transform_cuda env have_nvmm self inbuf in_type
      outbuf out_type h = Some (ret, t) /\
    (ret = true <->
     (0 < info_n_planes (in_info self))%nat /\
     forall k, (k < info_n_planes (in_info self))%nat ->
               exists p, In (CuMemcpy2DAsync k p true) t) /\
    (ret = true ->
     exists cp,
       t = [enter PATH_CUDA;
            acquire_event have_nvmm inbuf in_type true;
            acquire_event have_nvmm outbuf out_type false;
            gst_cuda_context_push true]
           ++ copied_planes cp 0 (info_n_planes (in_info self))
           ++ [CuStreamSynchronize; gst_cuda_context_pop]
           ++ release_events have_nvmm inbuf in_type
           ++ release_events have_nvmm outbuf out_type).
Proof.
  destruct (transform_cuda_outcome env have_nvmm self inbuf in_type outbuf
              out_type h) as (ret & t & Hrun & Hshape).
  exists ret, t. split; [exact Hrun|].
  eapply cuda_copy_outcome_success; exact Hshape.
Qed.

(** ** Traces closed under sequencing *)

Section Traces.

Variable I : list Event -> Prop.
Hypothesis I_nil : I [].
Hypothesis I_app : forall t1 t2, I t1 -> I t2 -> I (t1 ++ t2).




End Traces.

(** ** Mappings *)

Lemma maps_balanced_nil : maps_balanced [].
Proof. intros acc. reflexivity. Qed.

Lemma maps_balanced_app t1 t2 :
  maps_balanced t1 -> maps_balanced t2 -> maps_balanced (t1 ++ t2).
Proof. intros H1 H2 acc. rewrite outstanding_app, H1, H2. reflexivity. Qed.

Lemma maps_balanced_skip e t :
  is_map_event e = false -> maps_balanced t -> maps_balanced (e :: t).
Proof. intros He Ht acc. rewrite outstanding_skip by exact He. apply Ht. Qed.

Lemma maps_balanced_no_maps t :
  Forall (fun e => is_map_event e = false) t -> maps_balanced t.
Proof.
  induction 1 as [|e t He _ IH]; [apply maps_balanced_nil|].
  apply maps_balanced_skip; assumption.
Qed.

Lemma maps_balanced_failed buf f : failed_map_trace buf f -> maps_balanced f.
Proof. intros Hf acc. apply (outstanding_failed_map _ _ _ Hf). Qed.

Lemma maps_balanced_bracket have_nvmm buf ty is_src t :
  maps_balanced t ->
  maps_balanced (acquire_event have_nvmm buf ty is_src
                 :: t ++ release_events have_nvmm buf ty).
Proof.
  intros Ht acc. rewrite outstanding_acquire, outstanding_app, Ht.
  rewrite outstanding_release. apply remove_head.
Qed.

Lemma maps_balanced_released t : maps_balanced t -> maps_released t.
Proof. intros H. apply H. Qed.

Lemma gl_call_not_map_event e : is_gl_call e = true -> is_map_event e = false.
Proof. destruct e; cbn; congruence. Qed.

(** ** The loops of the interop copy *)

Lemma remove_first_nat_head i l : remove_first_nat i (i :: l) = l.
Proof. cbn. rewrite Nat.eqb_refl. reflexivity. Qed.

Lemma mapped_resources_app t1 t2 acc :
  mapped_resources (t1 ++ t2) acc = mapped_resources t2 (mapped_resources t1 acc).
Proof.
  revert acc. induction t1 as [|e t1 IH]; intros acc; [reflexivity|].
  destruct e; cbn; try apply IH. destruct ok; apply IH.
Qed.

Lemma mapped_memories_app t1 t2 acc :
  mapped_memories (t1 ++ t2) acc = mapped_memories t2 (mapped_memories t1 acc).
Proof.
  revert acc. induction t1 as [|e t1 IH]; intros acc; [reflexivity|].
  destruct e; cbn; try apply IH. destruct ok; apply IH.
Qed.

Lemma gl_body_ok_nil : gl_body_ok [].
Proof. split; [constructor | split; reflexivity]. Qed.

Lemma gl_body_ok_app t1 t2 : gl_body_ok t1 -> gl_body_ok t2 -> gl_body_ok (t1 ++ t2).
Proof.
  intros (F1 & R1 & M1) (F2 & R2 & M2). split; [apply Forall_app; auto|].
  split; intros acc.
  - rewrite mapped_resources_app, R1, R2. reflexivity.
  - rewrite mapped_memories_app, M1, M2. reflexivity.
Qed.

Ltac solve_gl_body :=
  split; [repeat constructor
         | split; intros acc; cbn; rewrite ?Nat.eqb_refl; reflexivity].

Lemma ensure_resource_returns env mem i h :
  returns (ensure_cuda_gl_graphics_resource env mem i) h
    (ensure_resource_outcome mem i).
Proof.
  unfold ensure_cuda_gl_graphics_resource, ensure_resource_outcome.
  destruct mem as [m|]; [|step; left; auto].
  destruct (gst_is_gl_memory_pbo m) eqn:Hp; cbn [negb]; [|step; left; auto].
  destruct (has_graphics_resource m) eqn:Hc.
  - step. right. left. split; [reflexivity|]. split; [reflexivity|].
    exists m. auto.
  - repeat step; right; right; (split; [exists m; auto|]); auto.
Qed.

Lemma ensure_resource_body mem i r t :
  ensure_resource_outcome mem i r t -> gl_body_ok t.
Proof.
  intros [(_ & -> & _) | [(_ & -> & _) | (_ & [(_ & ->) | [(_ & ->) | (_ & ->)]])]];
    solve_gl_body.
Qed.

Lemma gl_prepare_planes_body env gl_buf pbo_to_cuda i n h :
  returns (gl_prepare_planes env gl_buf pbo_to_cuda i n) h
    (fun _ t => gl_body_ok t).
Proof.
  revert i h. induction n as [|n IH]; intros i h; cbn [gl_prepare_planes].
  - step. apply gl_body_ok_nil.
  - step. eapply returns_weaken; [apply ensure_resource_returns|].
    intros r t1 Hout. pose proof (ensure_resource_body _ _ _ _ Hout) as Hb1.
    destruct r; cbn [negb].
    + step.
      eapply returns_weaken with
        (Q := fun _ t => gl_body_ok t).
      { destruct pbo_to_cuda; cbn [negb]; repeat step; solve_gl_body. }
      intros _ t2 Hb2. eapply returns_weaken; [apply IH|].
      intros r t3 Hb3. repeat apply gl_body_ok_app; assumption.
    + step. rewrite app_nil_r. exact Hb1.
Qed.

Lemma get_mapped_pointer_returns env i h :
  returns (get_mapped_pointer env i) h
    (fun a t => t = [CuGraphicsResourceGetMappedPointer i (fst a) (snd a)]).
Proof. eexists _, _. split; reflexivity. Qed.

Lemma gl_copy_planes_body env self pbo_to_cuda cp i n h :
  returns (gl_copy_planes env self pbo_to_cuda cp i n) h
    (fun r t =>
       gl_body_ok t /\
       (r = true ->
        forall k, (i <= k < i + n)%nat -> exists p, In (CuMemcpy2DAsync k p true) t)).
Proof.
  revert cp i h. induction n as [|n IH]; intros cp i h; cbn [gl_copy_planes].
  - step. split; [apply gl_body_ok_nil|]. intros _ k Hk. lia.
  - step. step; step; [|step; split; [solve_gl_body | discriminate]].
    step. eapply returns_weaken; [apply get_mapped_pointer_returns|].
    intros [got dev_ptr] t1 ->. destruct got; cbn [negb].
    2: { repeat step. split; [solve_gl_body | discriminate]. }
    step. step; step; step; step.
    2: { step. split; [solve_gl_body | discriminate]. }
    eapply returns_weaken; [apply IH|].
    intros r t (Hb & Hall). split.
    + apply (gl_body_ok_app [_; _; _; _]); [solve_gl_body | exact Hb].
    + intros Hr k Hk. destruct (Nat.eq_dec k i) as [->|Hne].
      * eexists. right. right. left. reflexivity.
      * destruct (Hall Hr k ltac:(lia)) as (p & Hin). exists p.
        do 4 right. exact Hin.
Qed.

(** ** The interop copy *)

Lemma ensure_gl_interop_shape env h :
  returns (gst_cuda_memory_copy_ensure_gl_interop env) h
    (fun r t => exists ok count,
                  r = ok && negb (count =? 0) /\ t = [CuGLGetDevices ok count]).
Proof. eexists _, _. split; [reflexivity|]. eexists _, _. split; reflexivity. Qed.

Lemma gl_interop_yields env have_nvmm self inbuf outbuf pbo_to_cuda cuda_mem_type h :
  yields (gst_cuda_memory_copy_gl_interop env have_nvmm self inbuf outbuf
            pbo_to_cuda cuda_mem_type) h
    (gl_interop_outcome have_nvmm self inbuf outbuf pbo_to_cuda cuda_mem_type).
Proof.
  unfold gst_cuda_memory_copy_gl_interop, gl_copy_thread_func, gl_interop_outcome.
  step. step. step. step. step.
  eapply yields_weaken; [apply returns_yields, ensure_gl_interop_shape|].
  intros r t0 (ok & count & -> & ->).
  eapply yields_weaken; swap 1 2; [intros a0 t0 H0; exists ok, count; exact H0|].
  unfold gl_interop_shape.
  destruct (ok && negb (count =? 0)) eqn:Hdev; cbn [negb].
  2: { step. left. auto. }
  step. eapply yields_weaken; [apply returns_yields, map_and_fill_returns|].
  intros [[ok1 ms1] cp1] t1
    [(-> & -> & -> & Hf1) | (-> & -> & -> & Hfail1)]; cbn [negb].
  2: { step. right. left. split; [reflexivity|]. exists t1.
       split; [exact Hfail1|]. cbn. rewrite app_nil_r. reflexivity. }
  step. step. step. step.
  - (* context pushed *)
    step. step.
    eapply yields_weaken; [apply returns_yields, gl_prepare_planes_body|].
    intros prepared t2 Hb2. step.
    eapply yields_weaken with
      (Q := fun r t => gl_body_ok t /\
              (r = true -> forall k, (k < info_n_planes (in_info self))%nat ->
                           exists p, In (CuMemcpy2DAsync k p true) t)).
    { destruct prepared; cbn [negb].
      - eapply yields_weaken; [apply returns_yields, gl_copy_planes_body|].
        intros r t (Hb & Hall). split; [exact Hb|]. intros Hr k Hk.
        apply (Hall Hr). lia.
      - step. split; [apply gl_body_ok_nil | discriminate]. }
    intros r t3 (Hb3 & Hall). step. step. step.
    eapply yields_weaken; [apply returns_yields, unmap_returns|]. intros _ ? ->.
    step. right. right. right. exists (t2 ++ t3).
    split; [reflexivity|].
    split; [apply gl_body_ok_app; assumption|]. split.
    + intros Hr k Hk. destruct (Hall Hr k Hk) as (p & Hin). exists p.
      apply in_or_app. right. exact Hin.
    + cbn. rewrite !app_nil_r, <- !app_assoc. reflexivity.
  - (* push failed *)
    step. step.
    eapply yields_weaken; [apply returns_yields, unmap_returns|]. intros _ ? ->.
    step. right. right. left. split; [reflexivity|].
    cbn. rewrite !app_nil_r. reflexivity.
Qed.


Lemma gl_interop_returns env have_nvmm (self : GstCudaMemoryCopy)
    (inbuf outbuf : GstBuffer) (pbo_to_cuda : bool)
    (cuda_mem_type : GstCudaMemoryCopyMemType) h :
  (info_n_planes (in_info self)
   <= length (memories (if pbo_to_cuda then inbuf else outbuf)))%nat ->
  mem_type_eqb cuda_mem_type GST_CUDA_MEMORY_COPY_MEM_CUDA
  || mem_type_eqb cuda_mem_type GST_CUDA_MEMORY_COPY_MEM_NVMM = true ->
  returns (gst_cuda_memory_copy_gl_interop env have_nvmm self inbuf outbuf
             pbo_to_cuda cuda_mem_type) h
    (gl_interop_outcome have_nvmm self inbuf outbuf pbo_to_cuda cuda_mem_type).
Proof.
  intros Hlen Hty.
  destruct (gl_interop_total env have_nvmm self inbuf outbuf pbo_to_cuda
              cuda_mem_type Hlen Hty h) as (r & t & Hrun & _).
  exists r, t. split; [exact Hrun|].
  exact (gl_interop_yields env have_nvmm self inbuf outbuf pbo_to_cuda
           cuda_mem_type h r t Hrun).
Qed.

Lemma not_in_class (f : Event -> bool) (t : list Event) (e : Event) :
  Forall (fun x => f x = true) t -> f e = false -> ~ In e t.
Proof.
  intros H He Hin. rewrite Forall_forall in H.
  specialize (H _ (proj2 (list_elem_of_In _ _) Hin)). congruence.
Qed.

Lemma gl_body_maps_balanced t : gl_body_ok t -> maps_balanced t.
Proof.
  intros (F & _). apply maps_balanced_no_maps.
  eapply Forall_impl; [exact F | exact gl_call_not_map_event].
Qed.

Lemma mapped_resources_skip t acc :
  Forall (fun e => is_gl_call e = false) t -> mapped_resources t acc = acc.
Proof.
  induction 1 as [|e t He _ IH]; [reflexivity|].
  destruct e; cbn in He |- *; try discriminate; exact IH.
Qed.

Lemma mapped_memories_skip t acc :
  Forall (fun e => is_gl_call e = false) t -> mapped_memories t acc = acc.
Proof.
  induction 1 as [|e t He _ IH]; [reflexivity|].
  destruct e; cbn in He |- *; try discriminate; exact IH.
Qed.

Lemma map_event_not_gl_call e : is_map_event e = true -> is_gl_call e = false.
Proof. destruct e; cbn; congruence. Qed.

Lemma release_not_gl_call have_nvmm buf ty :
  Forall (fun e => is_gl_call e = false) (release_events have_nvmm buf ty).
Proof.
  eapply Forall_impl; [apply release_is_map_event | exact map_event_not_gl_call].
Qed.

Lemma failed_map_not_gl_call buf f :
  failed_map_trace buf f -> Forall (fun e => is_gl_call e = false) f.
Proof.
  intros Hf. eapply Forall_impl;
    [apply (failed_map_is_map_event _ _ Hf) | exact map_event_not_gl_call].
Qed.

Lemma acquire_not_gl_call have_nvmm buf ty is_src :
  is_gl_call (acquire_event have_nvmm buf ty is_src) = false.
Proof. apply map_event_not_gl_call, acquire_is_map_event. Qed.

(** The calls around the loops of the interop copy touch no graphics
    resource and no GL memory. *)
Lemma gl_interop_frame have_nvmm buf ty is_src ok count pushed body tail :
  Forall (fun e => is_gl_call e = false) tail ->
  gl_body_ok body ->
  mapped_resources
    ([enter PATH_GL_INTEROP; CuGLGetDevices ok count;
      acquire_event have_nvmm buf ty is_src; gst_cuda_context_push pushed]
     ++ body ++ tail) [] = [] /\
  mapped_memories
    ([enter PATH_GL_INTEROP; CuGLGetDevices ok count;
      acquire_event have_nvmm buf ty is_src; gst_cuda_context_push pushed]
     ++ body ++ tail) [] = [].
Proof.
  intros Htail (_ & HR & HM).
  assert (Hhead : Forall (fun e => is_gl_call e = false)
            [enter PATH_GL_INTEROP; CuGLGetDevices ok count;
             acquire_event have_nvmm buf ty is_src; gst_cuda_context_push pushed]).
  { repeat constructor. apply acquire_not_gl_call. }
  split.
  - rewrite !mapped_resources_app, (mapped_resources_skip _ _ Hhead), HR.
    apply mapped_resources_skip, Htail.
  - rewrite !mapped_memories_app, (mapped_memories_skip _ _ Hhead), HM.
    apply mapped_memories_skip, Htail.
Qed.

Lemma bracket_assoc (a p s : Event) (b r : list Event) :
  a :: p :: b ++ [s] ++ r = a :: ([p] ++ b ++ [s]) ++ r.
Proof. cbn. rewrite <- app_assoc. reflexivity. Qed.



Lemma acquire_not_context have_nvmm buf ty is_src (e : Event) :
  is_map_event e = false -> acquire_event have_nvmm buf ty is_src <> e.
Proof.
  intros He <-. rewrite acquire_is_map_event in He. discriminate.
Qed.

Lemma gl_interop_outcome_context have_nvmm self inbuf outbuf pbo_to_cuda ty r t :
  gl_interop_outcome have_nvmm self inbuf outbuf pbo_to_cuda ty r t ->
  ~ In gst_cuda_context_pop t /\
  (In (gst_cuda_context_push true) t <-> In CuStreamSynchronize t) /\
  (r = true -> In (gst_cuda_context_push true) t).
Proof.
  set (cuda_buf := if pbo_to_cuda then outbuf else inbuf).
  assert (Hrel : forall e, is_map_event e = false ->
                           ~ In e (release_events have_nvmm cuda_buf ty)).
  { intros e He. eapply not_in_class; [apply release_is_map_event | exact He]. }
  intros (ok & count & [(Hr & _ & ->) | [(Hr & f & Hf & ->) | [(Hr & ->) | H]]]).
  - cbn [In]. split; [|split]; [| |congruence];
      intuition discriminate.
  - assert (Hin : forall e, is_map_event e = false -> ~ In e f).
    { intros e He. eapply not_in_class;
        [eapply failed_map_is_map_event; exact Hf | exact He]. }
    pose proof (Hin gst_cuda_context_pop eq_refl).
    pose proof (Hin (gst_cuda_context_push true) eq_refl).
    pose proof (Hin CuStreamSynchronize eq_refl).
    cbn [In]. split; [|split]; [| |congruence]; intuition discriminate.
  - pose proof (Hrel gst_cuda_context_pop eq_refl).
    pose proof (Hrel (gst_cuda_context_push true) eq_refl).
    pose proof (Hrel CuStreamSynchronize eq_refl).
    pose proof (acquire_not_context have_nvmm cuda_buf ty (negb pbo_to_cuda)
                  gst_cuda_context_pop eq_refl).
    pose proof (acquire_not_context have_nvmm cuda_buf ty (negb pbo_to_cuda)
                  (gst_cuda_context_push true) eq_refl).
    pose proof (acquire_not_context have_nvmm cuda_buf ty (negb pbo_to_cuda)
                  CuStreamSynchronize eq_refl).
    rewrite !in_app_iff. cbn [In]. fold cuda_buf.
    split; [|split]; [| |congruence]; intuition discriminate.
  - destruct H as (body & _ & (F & _) & _ & ->).
    assert (Hbody : ~ In gst_cuda_context_pop body).
    { eapply not_in_class; [exact F | reflexivity]. }
    pose proof (Hrel gst_cuda_context_pop eq_refl).
    pose proof (acquire_not_context have_nvmm cuda_buf ty (negb pbo_to_cuda)
                  gst_cuda_context_pop eq_refl).
    rewrite !in_app_iff. cbn [In]. fold cuda_buf.
    split; [|split]; [intuition discriminate | intuition | intuition].
Qed.

(** X2: [ensure_cuda_gl_graphics_resource] returns a resource only for
    a PBO memory; it creates one exactly when the memory is a PBO that
    carries none yet; a resource it created is attached to the memory when
    it is returned and freed when it is not; and the GL memory it maps for
    the registration is unmapped again on every path. *)
Theorem ensure_resource_lifecycle (env : Env) (mem : option GstMemory) (i : nat)
    (h : list Event) :
  exists r t,
    ensure_cuda_gl_graphics_resource env mem i h = Some (r, t) /\
    (r = true -> exists m, mem = Some m /\ gst_is_gl_memory_pbo m = true) /\
    (In (gst_cuda_graphics_resource_new i) t <->
     exists m, mem = Some m /\ gst_is_gl_memory_pbo m = true /\
               has_graphics_resource m = false) /\
    (In (gst_cuda_graphics_resource_new i) t ->
     (r = true <-> In (gst_mini_object_set_qdata i) t) /\
     (r = false <-> In (gst_cuda_graphics_resource_free i) t)) /\
    mapped_memories t [] = [].
Proof.
  destruct (ensure_resource_returns env mem i h) as (r & t & Hrun & Hout).
  exists r, t. split; [exact Hrun|].
  split; [|split; [|split]].
  - intros ->.
    destruct Hout as [(Hr & _) | [(_ & _ & m & Hm & Hp & _)
                     | ((m & Hm & Hp & _) & _)]]; [discriminate | eauto | eauto].
  - destruct Hout as [(_ & -> & Hm) | [(_ & -> & m & -> & Hp & Hc)
                     | ((m & Hm & Hp & Hc) & Ht)]].
    + split; [intros []|]. intros (m & -> & Hp & _). congruence.
    + split; [intros []|]. intros (m' & Hm' & _ & Hc'). congruence.
    + split; [eauto|]. intros _.
      destruct Ht as [(_ & ->) | [(_ & ->) | (_ & ->)]]; left; reflexivity.
  - intros Hnew.
    destruct Hout as [(_ & -> & _) | [(_ & -> & _)
                     | (_ & [(-> & ->) | [(-> & ->) | (-> & ->)]])]];
      try destruct Hnew; cbn [In]; split; split; try discriminate; auto 10;
      intuition discriminate.
  - apply (ensure_resource_body _ _ _ _ Hout).
Qed.

(** ** Mappings across the whole transform *)

Lemma untouched_balanced t :
  Forall (fun e => touches_gl_mapping e = false) t ->
  (forall acc, mapped_resources t acc = acc) /\
  (forall acc, mapped_memories t acc = acc).
Proof.
  intros H. split; intros acc.
  - induction H as [|e t He _ IH]; [reflexivity|].
    destruct e; cbn in He |- *; try discriminate; exact IH.
  - induction H as [|e t He _ IH]; [reflexivity|].
    destruct e; cbn in He |- *; try discriminate; exact IH.
Qed.


Lemma all_balanced_app t1 t2 :
  all_balanced t1 -> all_balanced t2 -> all_balanced (t1 ++ t2).
Proof.
  intros (B1 & R1 & M1) (B2 & R2 & M2).
  split; [apply maps_balanced_app; assumption|]. split; intros acc.
  - rewrite mapped_resources_app, R1, R2. reflexivity.
  - rewrite mapped_memories_app, M1, M2. reflexivity.
Qed.

Lemma map_event_untouched e : is_map_event e = true -> touches_gl_mapping e = false.
Proof. destruct e; cbn; congruence. Qed.



Lemma copy_loop_outcome_copies cp i n ret0 r t :
  copy_loop_outcome cp i n ret0 r t -> Forall (fun e => is_copy_event e = true) t.
Proof.
  assert (Hc : forall k, Forall (fun e => is_copy_event e = true) (copied_planes cp i k)).
  { intros k. unfold copied_planes. apply Forall_forall. intros e He.
    apply list_elem_of_In, in_map_iff in He as (j & <- & _). reflexivity. }
  intros [(-> & _) | (_ & k & _ & ->)]; [apply Hc|].
  apply Forall_app. split; [apply Hc | repeat constructor].
Qed.


Lemma all_balanced_plain t :
  Forall (fun e => is_map_event e = false /\ touches_gl_mapping e = false) t ->
  all_balanced t.
Proof.
  intros H. split.
  - apply maps_balanced_no_maps. eapply Forall_impl; [exact H|]. intros e []; auto.
  - apply untouched_balanced. eapply Forall_impl; [exact H|]. intros e []; auto.
Qed.

Lemma all_balanced_bracket have_nvmm buf ty is_src t :
  all_balanced t ->
  all_balanced (acquire_event have_nvmm buf ty is_src
                :: t ++ release_events have_nvmm buf ty).
Proof.
  intros (B & R & M). split; [apply maps_balanced_bracket, B|].
  assert (Hrel := untouched_balanced (release_events have_nvmm buf ty)).
  destruct Hrel as (Rr & Mr).
  { eapply Forall_impl; [apply release_is_map_event | apply map_event_untouched]. }
  assert (Hacq := untouched_balanced [acquire_event have_nvmm buf ty is_src]).
  destruct Hacq as (Ra & Ma).
  { repeat constructor. apply map_event_untouched, acquire_is_map_event. }
  split; intros acc.
  - pose proof (mapped_resources_app [acquire_event have_nvmm buf ty is_src]
                  (t ++ release_events have_nvmm buf ty) acc) as E.
    cbn [app] in E. rewrite E, Ra, mapped_resources_app, R, Rr. reflexivity.
  - pose proof (mapped_memories_app [acquire_event have_nvmm buf ty is_src]
                  (t ++ release_events have_nvmm buf ty) acc) as E.
    cbn [app] in E. rewrite E, Ma, mapped_memories_app, M, Mr. reflexivity.
Qed.

Lemma all_balanced_failed buf f : failed_map_trace buf f -> all_balanced f.
Proof.
  intros Hf. split; [eapply maps_balanced_failed, Hf|].
  apply untouched_balanced. eapply Forall_impl;
    [apply (failed_map_is_map_event _ _ Hf) | apply map_event_untouched].
Qed.

Lemma gl_body_all_balanced t : gl_body_ok t -> all_balanced t.
Proof.
  intros Hb. split; [apply gl_body_maps_balanced, Hb|].
  destruct Hb as (_ & R & M). auto.
Qed.

Lemma gl_interop_outcome_balanced have_nvmm self inbuf outbuf pbo_to_cuda ty r t :
  gl_interop_outcome have_nvmm self inbuf outbuf pbo_to_cuda ty r t ->
  all_balanced t.
Proof.
  intros (ok & count & [(_ & _ & ->) | [(_ & f & Hf & ->) | [(_ & ->) | H]]]).
  - apply all_balanced_plain. repeat constructor.
  - apply (all_balanced_app [_; _]);
      [apply all_balanced_plain; repeat constructor
      | eapply all_balanced_failed, Hf].
  - apply (all_balanced_app [_; _]);
      [apply all_balanced_plain; repeat constructor|].
    apply (all_balanced_bracket _ _ _ _ [_]).
    apply all_balanced_plain. repeat constructor.
  - destruct H as (body & _ & Hb & _ & ->).
    apply (all_balanced_app [_; _]);
      [apply all_balanced_plain; repeat constructor|].
    rewrite bracket_assoc. apply all_balanced_bracket.
    apply (all_balanced_app [_]);
      [apply all_balanced_plain; repeat constructor|].
    apply all_balanced_app; [apply gl_body_all_balanced, Hb|].
    apply all_balanced_plain. repeat constructor.
Qed.





Lemma gl_interop_outcome_released have_nvmm self inbuf outbuf pbo_to_cuda ty r t :
  gl_interop_outcome have_nvmm self inbuf outbuf pbo_to_cuda ty r t ->
  maps_released t /\ mapped_resources t [] = [] /\ mapped_memories t [] = [].
Proof.
  intros Hout.
  destruct (gl_interop_outcome_balanced _ _ _ _ _ _ _ _ Hout) as (B & R & M).
  split; [apply maps_balanced_released, B | auto].
Qed.

(** X3: the interop copy leaves nothing mapped: on every path the CUDA
    buffer it mapped is unmapped, every graphics resource it mapped into
    the device's address space is unmapped, and every GL memory it mapped
    for a registration is unmapped. *)
Theorem gl_interop_releases (env : Env) (have_nvmm : bool) (self : GstCudaMemoryCopy)
    (inbuf outbuf : GstBuffer) (pbo_to_cuda : bool)
    (cuda_mem_type : GstCudaMemoryCopyMemType) (h : list Event) :
  (info_n_planes (in_info self)
   <= length (memories (if pbo_to_cuda then inbuf else outbuf)))%nat ->
  mem_type_eqb cuda_mem_type GST_CUDA_MEMORY_COPY_MEM_CUDA
  || mem_type_eqb cuda_mem_type GST_CUDA_MEMORY_COPY_MEM_NVMM = true ->
  exists r t,
    gst_cuda_memory_copy_gl_interop env have_nvmm self inbuf outbuf pbo_to_cuda
      cuda_mem_type h = Some (r, t) /\
    maps_released t /\ mapped_resources t [] = [] /\ mapped_memories t [] = [].
Proof.
  intros Hlen Hty.
  destruct (gl_interop_returns env have_nvmm self inbuf outbuf pbo_to_cuda
              cuda_mem_type h Hlen Hty) as (r & t & Hrun & Hout).
  exists r, t. split; [exact Hrun|].
  eapply gl_interop_outcome_released; exact Hout.
Qed.

Lemma gl_interop_releases_witness :
  exists r t,
    gst_cuda_memory_copy_gl_interop env_all_ok false gl_to_cuda_self gl_input
      cuda_output true GST_CUDA_MEMORY_COPY_MEM_CUDA [] = Some (r, t) /\
    maps_released t /\ mapped_resources t [] = [] /\ mapped_memories t [] = [].
Proof.
  apply (gl_interop_releases env_all_ok false gl_to_cuda_self gl_input
           cuda_output true GST_CUDA_MEMORY_COPY_MEM_CUDA []).
  - cbn. lia.
  - reflexivity.
Defined.

(** X4: the interop copy never pops the CUDA context: a context it pushed
    is still current when it returns.  It synchronizes the stream exactly
    when it pushed the context, and it pushed it whenever it succeeds. *)
Theorem gl_interop_keeps_context_pushed (env : Env) (have_nvmm : bool)
    (self : GstCudaMemoryCopy) (inbuf outbuf : GstBuffer) (pbo_to_cuda : bool)
    (cuda_mem_type : GstCudaMemoryCopyMemType) (h : list Event) :
  (info_n_planes (in_info self)
   <= length (memories (if pbo_to_cuda then inbuf else outbuf)))%nat ->
  mem_type_eqb cuda_mem_type GST_CUDA_MEMORY_COPY_MEM_CUDA
  || mem_type_eqb cuda_mem_type GST_CUDA_MEMORY_COPY_MEM_NVMM = true ->
  exists r t,
    gst_cuda_memory_copy_gl_interop env have_nvmm self inbuf outbuf pbo_to_cuda
      cuda_mem_type h = Some (r, t) /\
    ~ In gst_cuda_context_pop t /\
    (In (gst_cuda_context_push true) t <-> In CuStreamSynchronize t) /\
    (r = true -> In (gst_cuda_context_push true) t).
Proof.
  intros Hlen Hty.
  destruct (gl_interop_returns env have_nvmm self inbuf outbuf pbo_to_cuda
              cuda_mem_type h Hlen Hty) as (r & t & Hrun & Hout).
  exists r, t. split; [exact Hrun|].
  eapply gl_interop_outcome_context; exact Hout.
Qed.

Lemma gl_interop_keeps_context_pushed_witness :
  exists r t,
    gst_cuda_memory_copy_gl_interop env_all_ok false gl_to_cuda_self gl_input
      cuda_output true GST_CUDA_MEMORY_COPY_MEM_CUDA [] = Some (r, t) /\
    ~ In gst_cuda_context_pop t /\
    (In (gst_cuda_context_push true) t <-> In CuStreamSynchronize t) /\
    (r = true -> In (gst_cuda_context_push true) t).
Proof.
  apply (gl_interop_keeps_context_pushed env_all_ok false gl_to_cuda_self
           gl_input cuda_output true GST_CUDA_MEMORY_COPY_MEM_CUDA []).
  - cbn. lia.
  - reflexivity.
Defined.

(** X5: the interop copy returns [TRUE] only if a CUDA device is
    attached to the GL context, the context was pushed and the copy of
    every plane of the input format was enqueued with success. *)
Theorem gl_interop_success (env : Env) (have_nvmm : bool)
    (self : GstCudaMemoryCopy) (inbuf outbuf : GstBuffer) (pbo_to_cuda : bool)
    (cuda_mem_type : GstCudaMemoryCopyMemType) (h : list Event) :
  (info_n_planes (in_info self)
   <= length (memories (if pbo_to_cuda then inbuf else outbuf)))%nat ->
  mem_type_eqb cuda_mem_type GST_CUDA_MEMORY_COPY_MEM_CUDA
  || mem_type_eqb cuda_mem_type GST_CUDA_MEMORY_COPY_MEM_NVMM = true ->
  exists r t,
    gst_cuda_memory_copy_gl_interop env have_nvmm self inbuf outbuf pbo_to_cuda
      cuda_mem_type h = Some (r, t) /\
    (r = true ->
     (exists count, count <> 0 /\ In (CuGLGetDevices true count) t) /\
     In (acquire_event have_nvmm (if pbo_to_cuda then outbuf else inbuf)
           cuda_mem_type (negb pbo_to_cuda)) t /\
     forall k, (k < info_n_planes (in_info self))%nat ->
               exists p, In (CuMemcpy2DAsync k p true) t).
Proof.
  intros Hlen Hty.
  destruct (gl_interop_returns env have_nvmm self inbuf outbuf pbo_to_cuda
              cuda_mem_type h Hlen Hty) as (r & t & Hrun & Hout).
  exists r, t. split; [exact Hrun|]. intros ->.
  destruct Hout as (ok & count & [(Hr & _) | [(Hr & _) | [(Hr & _) | H]]]);
    try discriminate.
  destruct H as (body & Hdev & _ & Hall & ->).
  apply andb_true_iff in Hdev as (-> & Hcount).
  apply negb_true_iff, Z.eqb_neq in Hcount.
  split; [|split].
  - exists count. split; [exact Hcount|]. right. left. reflexivity.
  - right. right. left. reflexivity.
  - intros k Hk. destruct (Hall eq_refl k Hk) as (p & Hin). exists p.
    apply in_or_app. right. apply in_or_app. left. exact Hin.
Qed.

Lemma gl_interop_success_witness :
  exists r t,
    gst_cuda_memory_copy_gl_interop env_all_ok false gl_to_cuda_self gl_input
      cuda_output true GST_CUDA_MEMORY_COPY_MEM_CUDA [] = Some (r, t) /\
    (r = true ->
     (exists count, count <> 0 /\ In (CuGLGetDevices true count) t) /\
     In (acquire_event false cuda_output GST_CUDA_MEMORY_COPY_MEM_CUDA false) t /\
     forall k, (k < 1)%nat -> exists p, In (CuMemcpy2DAsync k p true) t).
Proof.
  apply (gl_interop_success env_all_ok false gl_to_cuda_self gl_input
           cuda_output true GST_CUDA_MEMORY_COPY_MEM_CUDA []).
  - cbn. lia.
  - reflexivity.
Defined.




(** ** When the transform succeeds *)

Lemma copy_loop_outcome_device cp i n ret0 r t :
  copy_loop_outcome cp i n ret0 r t ->
  Forall (fun e => is_device_path_event e = true) t.
Proof.
  intros H. eapply Forall_impl; [apply (copy_loop_outcome_copies _ _ _ _ _ _ H)|].
  intros e He. destruct e; cbn in He |- *; congruence.
Qed.

Lemma map_event_device e : is_map_event e = true -> is_device_path_event e = true.
Proof. destruct e; cbn; congruence. Qed.

Lemma cuda_copy_outcome_events have_nvmm self inbuf in_type outbuf out_type r t :
  cuda_copy_outcome have_nvmm self inbuf in_type outbuf out_type r t ->
  Forall (fun e => is_device_path_event e = true) t.
Proof.
  assert (Hmaps : forall l, Forall (fun e => is_map_event e = true) l ->
                            Forall (fun e => is_device_path_event e = true) l).
  { intros l Hl. eapply Forall_impl; [exact Hl | apply map_event_device]. }
  assert (Hacq : forall buf ty s,
            is_device_path_event (acquire_event have_nvmm buf ty s) = true).
  { intros. apply map_event_device, acquire_is_map_event. }
  unfold cuda_copy_outcome.
  intros [(_ & f & Hf & ->) | [(_ & f & Hf & ->) | [(_ & ->) |
    (cp & copies & Hloop & ->)]]].
  - constructor; [reflexivity|]. apply Hmaps, (failed_map_is_map_event _ _ Hf).
  - constructor; [reflexivity|]. constructor; [apply Hacq|].
    apply Hmaps, Forall_app.
    split; [apply (failed_map_is_map_event _ _ Hf) | apply release_is_map_event].
  - cbn [app]. constructor; [reflexivity|].
    constructor; [apply Hacq|]. constructor; [apply Hacq|].
    constructor; [reflexivity|]. constructor; [reflexivity|].
    apply Hmaps, Forall_app. split; apply release_is_map_event.
  - apply Forall_app. split.
    { constructor; [reflexivity|].
      constructor; [apply Hacq|]. constructor; [apply Hacq|].
      repeat constructor. }
    apply Forall_app. split; [eapply copy_loop_outcome_device, Hloop|].
    cbn [app]. constructor; [reflexivity|]. constructor; [reflexivity|].
    apply Hmaps, Forall_app. split; apply release_is_map_event.
Qed.

Lemma transform_sysmem_copied env inbuf outbuf h :
  returns (gst_cuda_memory_copy_transform_sysmem env inbuf outbuf) h
    (fun ok t =>
       (ok = true <-> frame_copied inbuf outbuf t) /\
       Forall (fun e => is_copy_event e = false) t).
Proof.
  eapply returns_weaken; [apply transform_sysmem_returns|].
  unfold frame_copied.
  intros ok t (_ & [(-> & ->) | [(-> & ->) | ->]]);
    (split; [|repeat constructor]); cbn [In].
  - intuition discriminate.
  - intuition discriminate.
  - split; [intros ->; auto 10|].
    intros [H | [H | [H | [H | [H | [H | []]]]]]]; try discriminate.
    inversion H. reflexivity.
Qed.

Lemma transform_cuda_copied env have_nvmm self inbuf in_type outbuf out_type h :
  returns (gst_cuda_memory_copy_transform_cuda env have_nvmm self inbuf in_type
             outbuf out_type) h
    (fun r t =>
       (r = true <-> planes_copied (info_n_planes (in_info self)) t) /\
       forall dst src ok, ~ In (gst_video_frame_copy dst src ok) t).
Proof.
  eapply returns_weaken; [apply transform_cuda_outcome|].
  intros r t Hout. split.
  - apply (cuda_copy_outcome_success _ _ _ _ _ _ _ _ Hout).
  - intros dst src ok. eapply not_in_class;
      [apply (cuda_copy_outcome_events _ _ _ _ _ _ _ _ Hout) | reflexivity].
Qed.

Lemma planes_copied_no_copies n t :
  Forall (fun e => is_copy_event e = false) t -> ~ planes_copied n t.
Proof.
  intros H (Hn & Hall). destruct (Hall 0%nat Hn) as (p & Hin).
  revert Hin. apply no_copy_in, H.
Qed.

Lemma flow_of_ok b : flow_of b = GST_FLOW_OK <-> b = true.
Proof. destruct b; cbn; split; congruence. Qed.

Lemma staged_branch env self inbuf outbuf h :
  returns (ok ← gst_cuda_memory_copy_transform_sysmem env inbuf outbuf;
           mret (flow_of ok)) h
    (fun r t =>
       r = GST_FLOW_OK <->
       frame_copied inbuf outbuf t
       \/ planes_copied (info_n_planes (in_info self)) t).
Proof.
  step. eapply returns_weaken; [apply transform_sysmem_copied|].
  intros ok t (Hok & Hnone). step. rewrite app_nil_r, flow_of_ok, Hok.
  pose proof (planes_copied_no_copies (info_n_planes (in_info self)) t Hnone).
  tauto.
Qed.

Lemma device_branch env have_nvmm self inbuf in_type outbuf out_type h :
  returns
    (ret ← gst_cuda_memory_copy_transform_cuda env have_nvmm self inbuf in_type
             outbuf out_type;
     ret' ← (if negb ret && negb (in_nvmm self) && negb (out_nvmm self) then
               gst_cuda_memory_copy_transform_sysmem env inbuf outbuf
             else mret ret);
     mret (flow_of ret')) h
    (fun r t =>
       r = GST_FLOW_OK <->
       frame_copied inbuf outbuf t
       \/ planes_copied (info_n_planes (in_info self)) t).
Proof.
  set (n := info_n_planes (in_info self)).
  step. eapply returns_weaken; [apply transform_cuda_copied|].
  intros ret t1 (Hret & Hnone). fold n in Hret. step.
  assert (Hfc : ~ frame_copied inbuf outbuf t1) by apply Hnone.
  destruct (negb ret && negb (in_nvmm self) && negb (out_nvmm self)) eqn:Hfb.
  - apply andb_true_iff in Hfb as (Hfb & _).
    apply andb_true_iff in Hfb as (Hfb & _).
    apply negb_true_iff in Hfb. subst ret.
    eapply returns_weaken; [apply transform_sysmem_copied|].
    intros ok t2 (Hok & Hnc). step. rewrite app_nil_r, flow_of_ok, Hok.
    assert (Hp1 : ~ planes_copied n t1).
    { intros H. apply Hret in H. discriminate. }
    unfold frame_copied in *. rewrite in_app_iff.
    assert (Hp : planes_copied n (t1 ++ t2) -> planes_copied n t1).
    { intros (Hn & Hall). split; [exact Hn|]. intros k Hk.
      destruct (Hall k Hk) as (p & Hin). exists p.
      apply in_app_or in Hin as [Hin | Hin]; [exact Hin|].
      exfalso. revert Hin. apply no_copy_in, Hnc. }
    tauto.
  - step. step. rewrite !app_nil_r, flow_of_ok, Hret. tauto.
Qed.

Lemma classify_no_gl have_gl self nvmm mem :
  have_gl && gl_context self = false ->
  mem_type_eqb (fst (classify have_gl self nvmm mem)) GST_CUDA_MEMORY_COPY_MEM_GL
  = false.
Proof.
  intros Hgl. unfold classify. rewrite Hgl.
  destruct nvmm, (gst_is_cuda_memory mem); reflexivity.
Qed.

(** X7: when the element has no GL context (or is built without GL),
    the transform returns [GST_FLOW_OK] exactly when the frame was copied:
    either the staged copy copied it, or there is at least one plane and
    the copy of every plane was enqueued on the device with success.  It
    then never aborts. *)
Theorem transform_ok_iff_copied (env : Env) (have_nvmm have_gl : bool)
    (self : GstCudaMemoryCopy) (inbuf outbuf : GstBuffer) (h : list Event) :
  have_gl && gl_context self = false ->
  exists r t,
    gst_cuda_memory_copy_transform env have_nvmm have_gl self inbuf outbuf h
    = Some (r, t) /\
    (r = GST_FLOW_OK <->
     frame_copied inbuf outbuf t
     \/ planes_copied (info_n_planes (in_info self)) t).
Proof.
  intros Hgl. unfold gst_cuda_memory_copy_transform.
  assert (Hnone : returns (mret GST_FLOW_ERROR) h
            (fun r t => r = GST_FLOW_OK <->
               frame_copied inbuf outbuf t
               \/ planes_copied (info_n_planes (in_info self)) t)).
  { step. split; [discriminate|]. intros [[] | (Hn & Hall)].
    destruct (Hall 0%nat Hn) as (p & []). }
  destruct (memories inbuf !! 0%nat) as [in_mem|]; [|exact Hnone].
  destruct (memories outbuf !! 0%nat) as [out_mem|]; [|exact Hnone].
  pose proof (classify_no_gl have_gl self (in_nvmm self) in_mem Hgl) as Hi.
  pose proof (classify_no_gl have_gl self (out_nvmm self) out_mem Hgl) as Ho.
  destruct (classify have_gl self (in_nvmm self) in_mem) as [in_type in_device].
  destruct (classify have_gl self (out_nvmm self) out_mem) as [out_type out_device].
  cbn [fst] in Hi, Ho. rewrite Hi, Ho, !andb_false_r.
  destruct (negb (in_device || out_device));
    [apply staged_branch | apply device_branch].
Qed.

Lemma transform_ok_iff_copied_witness :
  exists r t,
    gst_cuda_memory_copy_transform env_all_ok false false no_gl_self
      cuda_input cuda_output [] = Some (r, t) /\
    (r = GST_FLOW_OK <->
     frame_copied cuda_input cuda_output t \/ planes_copied 1 t).
Proof.
  apply (transform_ok_iff_copied env_all_ok false false no_gl_self
           cuda_input cuda_output []).
  reflexivity.
Defined.

(** ** The CUDA context in the direct device copy *)

Lemma count_calls_app f t1 t2 :
  count_calls f (t1 ++ t2) = (count_calls f t1 + count_calls f t2)%nat.
Proof.
  induction t1 as [|e t1 IH]; [reflexivity|]. cbn. destruct (f e); cbn; lia.
Qed.

Lemma count_calls_none f g t :
  (forall e, g e = true -> f e = false) ->
  Forall (fun e => g e = true) t -> count_calls f t = 0%nat.
Proof.
  intros Hfg. induction 1 as [|e t He _ IH]; [reflexivity|].
  cbn. rewrite (Hfg e He). exact IH.
Qed.

Lemma map_event_not_push e : is_map_event e = true -> is_context_push e = false.
Proof. destruct e; cbn; congruence. Qed.

Lemma map_event_not_pop e : is_map_event e = true -> is_context_pop e = false.
Proof. destruct e; cbn; congruence. Qed.

Lemma copy_event_not_push e : is_copy_event e = true -> is_context_push e = false.
Proof. destruct e; cbn; congruence. Qed.

Lemma copy_event_not_pop e : is_copy_event e = true -> is_context_pop e = false.
Proof. destruct e; cbn; congruence. Qed.

Lemma copy_event_not_map e : is_copy_event e = true -> is_map_event e = false.
Proof. destruct e; cbn; congruence. Qed.

Lemma count_calls_maps f t :
  (forall e, is_map_event e = true -> f e = false) ->
  Forall (fun e => is_map_event e = true) t -> count_calls f t = 0%nat.
Proof. apply count_calls_none. Qed.

Lemma count_calls_acquire f have_nvmm buf ty is_src t :
  (forall e, is_map_event e = true -> f e = false) ->
  count_calls f (acquire_event have_nvmm buf ty is_src :: t) = count_calls f t.
Proof. intros Hf. cbn. rewrite Hf by apply acquire_is_map_event. reflexivity. Qed.

Lemma count_calls_skip f e t :
  f e = false -> count_calls f (e :: t) = count_calls f t.
Proof. intros H. cbn. rewrite H. reflexivity. Qed.

Lemma count_calls_hit f e t :
  f e = true -> count_calls f (e :: t) = S (count_calls f t).
Proof. intros H. cbn. rewrite H. reflexivity. Qed.

Ltac count_step :=
  first
    [ rewrite count_calls_app
    | rewrite count_calls_skip by
        first [ reflexivity
              | apply map_event_not_pop, acquire_is_map_event
              | apply map_event_not_push, acquire_is_map_event ]
    | rewrite count_calls_hit by reflexivity
    | rewrite (count_calls_maps _ _ map_event_not_pop) by
        first [ assumption | apply release_is_map_event ]
    | rewrite (count_calls_maps _ _ map_event_not_push) by
        first [ assumption | apply release_is_map_event ]
    | rewrite (count_calls_none _ _ _ copy_event_not_pop) by assumption
    | rewrite (count_calls_none _ _ _ copy_event_not_push) by assumption ].

Lemma cuda_copy_outcome_context have_nvmm self inbuf in_type outbuf out_type r t :
  cuda_copy_outcome have_nvmm self inbuf in_type outbuf out_type r t ->
  count_calls is_context_pop t = count_calls is_context_push t /\
  (count_calls is_context_push t <= 1)%nat /\
  (In (gst_cuda_context_push false) t ->
   r = false /\ In gst_cuda_context_pop t /\
   forall k p ok, ~ In (CuMemcpy2DAsync k p ok) t).
Proof.
  assert (Hnot : forall l, Forall (fun e => is_map_event e = true) l ->
            ~ In (gst_cuda_context_push false) l).
  { intros l Hl. eapply not_in_class; [exact Hl | reflexivity]. }
  assert (Hacq : forall buf ty s,
            acquire_event have_nvmm buf ty s <> gst_cuda_context_push false).
  { intros. apply acquire_not_context. reflexivity. }
  unfold cuda_copy_outcome.
  intros [(-> & f & Hf & ->) | [(-> & f & Hf & ->) | [(-> & ->) |
    (cp & copies & Hloop & ->)]]].
  - pose proof (failed_map_is_map_event _ _ Hf) as Hm.
    repeat count_step.
    split; [reflexivity|]. split; [lia|]. cbn [In].
    intros [H | H]; [discriminate | destruct (Hnot _ Hm H)].
  - pose proof (failed_map_is_map_event _ _ Hf) as Hm.
    repeat count_step. cbn [count_calls].
    split; [reflexivity|]. split; [lia|].
    intros [H | [H | H]]; [discriminate | destruct (Hacq _ _ _ H)|].
    apply in_app_or in H as [H | H];
      [destruct (Hnot _ Hm H) | destruct (Hnot _ (release_is_map_event _ _ _) H)].
  - cbn [app]. repeat count_step. cbn [count_calls].
    split; [reflexivity|]. split; [lia|]. intros _.
    split; [reflexivity|]. split; [do 4 right; left; reflexivity|].
    intros k p ok. apply no_copy_in.
    constructor; [reflexivity|].
    constructor; [apply map_event_not_copy, acquire_is_map_event|].
    constructor; [apply map_event_not_copy, acquire_is_map_event|].
    constructor; [reflexivity|]. constructor; [reflexivity|].
    eapply Forall_impl; [|exact map_event_not_copy].
    apply Forall_app. split; apply release_is_map_event.
  - pose proof (copy_loop_outcome_copies _ _ _ _ _ _ Hloop) as Hc.
    cbn [app]. repeat count_step. cbn [count_calls].
    split; [reflexivity|]. split; [lia|].
    assert (Hcp : ~ In (gst_cuda_context_push false) copies).
    { eapply not_in_class; [exact Hc | reflexivity]. }
    pose proof (Hacq inbuf in_type true). pose proof (Hacq outbuf out_type false).
    pose proof (Hnot _ (release_is_map_event have_nvmm inbuf in_type)).
    pose proof (Hnot _ (release_is_map_event have_nvmm outbuf out_type)).
    intros Hin. exfalso.
    destruct Hin as [Hin | [Hin | [Hin | [Hin | Hin]]]];
      [discriminate | tauto | tauto | discriminate |].
    apply in_app_or in Hin as [Hin | Hin]; [tauto|].
    destruct Hin as [Hin | [Hin | Hin]]; [discriminate | discriminate|].
    apply in_app_or in Hin as [Hin | Hin]; tauto.
Qed.

(** X8: the direct device copy attempts to push the CUDA context at
    most once and pops it exactly as often as it attempted to push it: a
    push that failed is popped too, and then no plane is copied. *)
Theorem transform_cuda_pops_each_push (env : Env) (have_nvmm : bool)
    (self : GstCudaMemoryCopy) (inbuf : GstBuffer)
    (in_type : GstCudaMemoryCopyMemType) (outbuf : GstBuffer)
    (out_type : GstCudaMemoryCopyMemType) (h : list Event) :
  exists ret t,
    gst_cuda_memory_copy_transform_cuda env have_nvmm self inbuf in_type
      outbuf out_type h = Some (ret, t) /\
    count_calls is_context_pop t = count_calls is_context_push t /\
    (count_calls is_context_push t <= 1)%nat /\
    (In (gst_cuda_context_push false) t ->
     ret = false /\ In gst_cuda_context_pop t /\
     forall k p ok, ~ In (CuMemcpy2DAsync k p ok) t).
Proof.
  destruct (transform_cuda_outcome env have_nvmm self inbuf in_type outbuf
              out_type h) as (ret & t & Hrun & Hshape).
  exists ret, t. split; [exact Hrun|].
  eapply cuda_copy_outcome_context; exact Hshape.
Qed.

(** ** Buffers without memory *)






(** ** Access to NVMM surfaces *)

Section Surface.

Variable env : Env.
Variable have_nvmm : bool.
Variable P : Event -> Prop.
Hypothesis P_other : forall e, is_surface_event e = false -> P e.

Lemma plain_events (f : Event -> bool) (t : list Event) :
  (forall e, f e = true -> is_surface_event e = false) ->
  Forall (fun e => f e = true) t -> Forall P t.
Proof.
  intros Hf H. eapply Forall_impl; [exact H|]. intros e He. apply P_other, Hf, He.
Qed.

Lemma map_and_fill_surface buf info ty is_src cp :
  surface_side P have_nvmm buf ty ->
  emits P
    (gst_cuda_memory_copy_map_and_fill_copy2d env have_nvmm buf info ty is_src cp)
    (fun '(ok, ms, _) => ok = true -> ms = state_of have_nvmm ty).
Proof.
  unfold surface_side, gst_cuda_memory_copy_map_and_fill_copy2d, state_of,
    uses_surface.
  intros Hside.
  destruct (have_nvmm && mem_type_eqb ty GST_CUDA_MEMORY_COPY_MEM_NVMM).
  - specialize (Hside eq_refl).
    assert (Hfail : emits P
              (emit (gst_buffer_unmap (buf_id buf));; mret (false, unmapped, cp))
              (fun '(ok, ms, _) => ok = true -> ms = mkMapState false true)).
    { eapply emits_bind; [apply emits_emit, (Hside true)|].
      intros _ _. apply emits_ret. discriminate. }
    eapply emits_bind; [apply emits_call; intros ok; apply Hside|].
    intros [|] _; cbn [negb]; [|apply emits_ret; discriminate].
    destruct (surfaceList (nvmm_surface buf)) as [sp|]; [|exact Hfail].
    destruct (negb (num_planes (planeParams sp) =? info_n_planes info)%nat);
      [exact Hfail|].
    destruct (nvmm_memory_type (memType (nvmm_surface buf))); [|exact Hfail].
    apply emits_ret. reflexivity.
  - eapply emits_bind; [apply emits_call; intros ok; apply P_other; reflexivity|].
    intros [|] _; cbn [negb]; apply emits_ret; [reflexivity | discriminate].
Qed.

Lemma unmap_surface buf ty :
  surface_side P have_nvmm buf ty ->
  emits P (gst_cuda_memory_copy_unmap buf (state_of have_nvmm ty)) (fun _ => True).
Proof.
  intros Hside h. eapply yields_weaken; [apply returns_yields, unmap_returns|].
  intros _ t ->. split; [|exact I]. unfold release_events.
  destruct (uses_surface have_nvmm ty) eqn:Hs.
  - repeat constructor. apply (Hside Hs true).
  - repeat constructor. apply P_other. reflexivity.
Qed.

Lemma copy_planes_surface cp i n ret :
  emits P (copy_planes env cp i n ret) (fun _ => True).
Proof.
  intros h. eapply yields_weaken; [apply returns_yields, copy_planes_outcome|].
  intros r t Hloop. split; [|exact I].
  eapply plain_events; [|apply (copy_loop_outcome_copies _ _ _ _ _ _ Hloop)].
  intros e He. destruct e; cbn in He |- *; congruence.
Qed.

Lemma transform_sysmem_surface inbuf outbuf :
  emits P (gst_cuda_memory_copy_transform_sysmem env inbuf outbuf) (fun _ => True).
Proof.
  intros h. eapply yields_weaken; [apply returns_yields, transform_sysmem_returns|].
  intros ok t (_ & [(_ & ->) | [(_ & ->) | ->]]); (split; [|exact I]);
    repeat constructor; apply P_other; reflexivity.
Qed.

Lemma transform_cuda_surface self inbuf in_type outbuf out_type :
  surface_side P have_nvmm inbuf in_type ->
  surface_side P have_nvmm outbuf out_type ->
  emits P
    (gst_cuda_memory_copy_transform_cuda env have_nvmm self inbuf in_type
       outbuf out_type) (fun _ => True).
Proof.
  intros Hin Hout. unfold gst_cuda_memory_copy_transform_cuda.
  eapply emits_bind; [apply emits_emit, P_other; reflexivity|]. intros _ _.
  eapply emits_bind; [apply map_and_fill_surface, Hin|].
  intros [[[|] ms1] cp1] H1; cbn [negb]; [|apply emits_ret; exact I].
  rewrite (H1 eq_refl). clear H1.
  eapply emits_bind; [apply map_and_fill_surface, Hout|].
  intros [[[|] ms2] cp2] H2; cbn [negb].
  2: { eapply emits_bind; [apply unmap_surface, Hin|].
       intros _ _. apply emits_ret. exact I. }
  rewrite (H2 eq_refl). clear H2.
  eapply emits_bind; [apply emits_call; intros ok; apply P_other; reflexivity|].
  intros [|] _; cbn [negb].
  - eapply emits_bind; [apply copy_planes_surface|]. intros ret _.
    eapply emits_bind; [apply emits_emit, P_other; reflexivity|]. intros _ _.
    eapply emits_bind; [apply emits_emit, P_other; reflexivity|]. intros _ _.
    eapply emits_bind; [apply unmap_surface, Hin|]. intros _ _.
    eapply emits_bind; [apply unmap_surface, Hout|]. intros _ _.
    apply emits_ret. exact I.
  - eapply emits_bind; [apply emits_emit, P_other; reflexivity|]. intros _ _.
    eapply emits_bind; [apply unmap_surface, Hin|]. intros _ _.
    eapply emits_bind; [apply unmap_surface, Hout|]. intros _ _.
    apply emits_ret. exact I.
Qed.

Lemma gl_call_not_surface e : is_gl_call e = true -> is_surface_event e = false.
Proof. destruct e; cbn; congruence. Qed.

Lemma gl_interop_surface (self : GstCudaMemoryCopy) (inbuf outbuf : GstBuffer)
    (pbo_to_cuda : bool) (ty : GstCudaMemoryCopyMemType) :
  surface_side P have_nvmm (if pbo_to_cuda then outbuf else inbuf) ty ->
  emits P
    (gst_cuda_memory_copy_gl_interop env have_nvmm self inbuf outbuf pbo_to_cuda ty)
    (fun _ => True).
Proof.
  intros Hside. unfold gst_cuda_memory_copy_gl_interop, gl_copy_thread_func.
  eapply emits_bind; [apply emits_assert|]. intros _ _.
  eapply emits_bind; [apply emits_emit, P_other; reflexivity|]. intros _ _.
  eapply emits_bind with (R := fun _ => True).
  { intros h. eapply yields_weaken;
      [apply returns_yields, ensure_gl_interop_shape|].
    intros r t (ok & count & _ & ->). split; [|exact I].
    repeat constructor. apply P_other. reflexivity. }
  intros [|] _; cbn [negb]; [|apply emits_ret; exact I].
  eapply emits_bind; [apply map_and_fill_surface, Hside|].
  intros [[[|] ms] cp] Hms; cbn [negb]; [|apply emits_ret; exact I].
  rewrite (Hms eq_refl). clear Hms.
  eapply emits_bind; [apply emits_assert|]. intros _ _.
  eapply emits_bind; [apply emits_call; intros ok; apply P_other; reflexivity|].
  intros [|] _; cbn [negb].
  - eapply emits_bind with (R := fun _ => True).
    { intros h. eapply yields_weaken;
        [apply returns_yields, gl_prepare_planes_body|].
      intros r t (F & _). split; [|exact I].
      eapply plain_events; [exact gl_call_not_surface | exact F]. }
    intros prepared _.
    eapply emits_bind with (R := fun _ => True).
    { destruct prepared; cbn [negb]; [|apply emits_ret; exact I].
      intros h. eapply yields_weaken;
        [apply returns_yields, gl_copy_planes_body|].
      intros r t ((F & _) & _). split; [|exact I].
      eapply plain_events; [exact gl_call_not_surface | exact F]. }
    intros ret _.
    eapply emits_bind; [apply emits_emit, P_other; reflexivity|]. intros _ _.
    eapply emits_bind; [apply unmap_surface, Hside|]. intros _ _.
    apply emits_ret. exact I.
  - eapply emits_bind; [apply unmap_surface, Hside|]. intros _ _.
    apply emits_ret. exact I.
Qed.

End Surface.

Lemma surface_access_other have_nvmm nv_in nv_out inbuf outbuf e :
  is_surface_event e = false ->
  surface_access_ok have_nvmm nv_in nv_out inbuf outbuf e.
Proof. destruct e; cbn; intros H; try exact I; discriminate. Qed.

Lemma classify_nvmm have_gl self nvmm mem :
  mem_type_eqb (fst (classify have_gl self nvmm mem)) GST_CUDA_MEMORY_COPY_MEM_NVMM
  = nvmm.
Proof.
  unfold classify.
  destruct nvmm, (gst_is_cuda_memory mem),
    (have_gl && gl_context self && gst_is_gl_memory_pbo mem); reflexivity.
Qed.

Lemma surface_side_system P have_nvmm buf :
  surface_side P have_nvmm buf GST_CUDA_MEMORY_COPY_MEM_SYSTEM.
Proof.
  intros Hs. unfold uses_surface in Hs. cbn in Hs.
  rewrite andb_false_r in Hs. discriminate.
Qed.

Ltac surface_step Hp Hi Ho :=
  first
    [ apply emits_ret; exact I
    | apply transform_sysmem_surface; exact Hp
    | apply transform_cuda_surface;
        [ exact Hp
        | first [exact Hi | apply surface_side_system]
        | first [exact Ho | apply surface_side_system] ]
    | apply gl_interop_surface; [exact Hp | first [exact Hi | exact Ho]]
    | eapply emits_bind with (R := fun _ => True);
        [|intros [|] _; cbn [negb andb]]
    | match goal with
      | |- emits _ (if ?b then _ else _) _ => destruct b
      end ].

Lemma transform_surface env have_nvmm have_gl self inbuf outbuf :
  emits (surface_access_ok have_nvmm (in_nvmm self) (out_nvmm self) inbuf outbuf)
    (gst_cuda_memory_copy_transform env have_nvmm have_gl self inbuf outbuf)
    (fun _ => True).
Proof.
  set (P := surface_access_ok have_nvmm (in_nvmm self) (out_nvmm self) inbuf outbuf).
  assert (Hp : forall e, is_surface_event e = false -> P e).
  { intros e. apply surface_access_other. }
  unfold gst_cuda_memory_copy_transform.
  destruct (memories inbuf !! 0%nat) as [in_mem|]; [|surface_step Hp Hp Hp].
  destruct (memories outbuf !! 0%nat) as [out_mem|]; [|surface_step Hp Hp Hp].
  pose proof (classify_nvmm have_gl self (in_nvmm self) in_mem) as Hci.
  pose proof (classify_nvmm have_gl self (out_nvmm self) out_mem) as Hco.
  destruct (classify have_gl self (in_nvmm self) in_mem) as [in_type in_device].
  destruct (classify have_gl self (out_nvmm self) out_mem) as [out_type out_device].
  cbn [fst] in Hci, Hco.
  assert (Hi : surface_side P have_nvmm inbuf in_type).
  { intros Hs ok. unfold uses_surface in Hs. rewrite Hci in Hs.
    apply andb_true_iff in Hs as (Hn & Hf). unfold P. cbn. auto. }
  assert (Ho : surface_side P have_nvmm outbuf out_type).
  { intros Hs ok. unfold uses_surface in Hs. rewrite Hco in Hs.
    apply andb_true_iff in Hs as (Hn & Hf). unfold P. cbn. auto. }
  clearbody P. clear Hci Hco.
  repeat surface_step Hp Hi Ho.
Qed.

Lemma surface_access_cases have_nvmm nv_in nv_out inbuf outbuf e :
  surface_access_ok have_nvmm nv_in nv_out inbuf outbuf e ->
  is_surface_event e = true ->
  have_nvmm = true /\
  ((nv_in = true /\
    (e = gst_buffer_unmap (buf_id inbuf)
     \/ exists ok, e = gst_buffer_map (buf_id inbuf) ok)) \/
   (nv_out = true /\
    (e = gst_buffer_unmap (buf_id outbuf)
     \/ exists ok, e = gst_buffer_map (buf_id outbuf) ok))).
Proof.
  intros F He. destruct e; try discriminate He;
    destruct F as (Hn & [(Hf & ->) | (Hf & ->)]);
    (split; [exact Hn|]); [left | right | left | right];
    (split; [exact Hf|]);
    first [left; reflexivity | right; eexists; reflexivity].
Qed.

(** X10: the transform reaches the NvBufSurface of a buffer (it maps
    or unmaps the buffer itself rather than a video frame) only in a build
    with NVMM support, and only for the input buffer when the input end
    is flagged as NVMM or the output buffer when the output end is. *)
Theorem surface_access_only_for_nvmm (env : Env) (have_nvmm have_gl : bool)
    (self : GstCudaMemoryCopy) (inbuf outbuf : GstBuffer) (h : list Event)
    (r : GstFlowReturn) (t : list Event) :
  gst_cuda_memory_copy_transform env have_nvmm have_gl self inbuf outbuf h
  = Some (r, t) ->
  forall e, In e t -> is_surface_event e = true ->
    have_nvmm = true /\
    ((in_nvmm self = true /\
      (e = gst_buffer_unmap (buf_id inbuf)
       \/ exists ok, e = gst_buffer_map (buf_id inbuf) ok)) \/
     (out_nvmm self = true /\
      (e = gst_buffer_unmap (buf_id outbuf)
       \/ exists ok, e = gst_buffer_map (buf_id outbuf) ok))).
Proof.
  intros Hrun e Hin He.
  destruct (transform_surface env have_nvmm have_gl self inbuf outbuf h r t Hrun)
    as (F & _).
  rewrite Forall_forall in F. specialize (F e (proj2 (list_elem_of_In _ _) Hin)).
  exact (surface_access_cases _ _ _ _ _ _ F He).
Qed.

Lemma surface_access_only_for_nvmm_witness :
  exists r t,
    gst_cuda_memory_copy_transform env_all_ok true false nvmm_in_self
      nvmm_input cuda_output [] = Some (r, t) /\
    In (gst_buffer_map 1 true) t /\
    in_nvmm nvmm_in_self = true /\ out_nvmm nvmm_in_self = false.
Proof.
  eexists _, _. split; [vm_compute; reflexivity|].
  split; [cbn; auto|].
  destruct (surface_access_only_for_nvmm env_all_ok true false nvmm_in_self
              nvmm_input cuda_output [] GST_FLOW_OK _ eq_refl
              (gst_buffer_map 1 true)) as (_ & [(Hf & _) | (Hf & _)]).
  - cbn. auto.
  - reflexivity.
  - split; [exact Hf | reflexivity].
  - discriminate Hf.
Defined.

(** X11: after [set_info], the transform reaches the NvBufSurface of a
    buffer only if the build has NVMM support, [gst_cuda_nvmm_init_once]
    succeeded, and the caps negotiated for that buffer's end carry the
    NVMM memory feature; with NULL caps features, a failed initialisation
    or a build without NVMM (and the flags initially unset) no surface is
    ever reached. *)
Theorem negotiated_surface_access (env : Env) (have_nvmm have_gl init : bool)
    (self0 : GstCudaMemoryCopy) (incaps outcaps : GstCaps)
    (inbuf outbuf : GstBuffer) (h : list Event) (r : GstFlowReturn)
    (t : list Event) :
  in_nvmm self0 = false -> out_nvmm self0 = false ->
  gst_cuda_memory_copy_transform env have_nvmm have_gl
    (gst_cuda_memory_copy_set_info have_nvmm init self0 incaps outcaps)
    inbuf outbuf h = Some (r, t) ->
  forall e, In e t -> is_surface_event e = true ->
    have_nvmm = true /\ init = true /\
    ((caps_has_nvmm incaps = true /\
      (e = gst_buffer_unmap (buf_id inbuf)
       \/ exists ok, e = gst_buffer_map (buf_id inbuf) ok)) \/
     (caps_has_nvmm outcaps = true /\
      (e = gst_buffer_unmap (buf_id outbuf)
       \/ exists ok, e = gst_buffer_map (buf_id outbuf) ok))).
Proof.
  intros Hi0 Ho0 Hrun e Hin He.
  destruct (transform_surface env have_nvmm have_gl _ inbuf outbuf h r t Hrun)
    as (F & _).
  rewrite Forall_forall in F. specialize (F e (proj2 (list_elem_of_In _ _) Hin)).
  destruct (surface_access_cases _ _ _ _ _ _ F He) as (-> & Hside).
  split; [reflexivity|]. unfold gst_cuda_memory_copy_set_info in Hside.
  destruct init; cbn [in_nvmm out_nvmm] in Hside.
  - split; [reflexivity | exact Hside].
  - destruct Hside as [(Hf & _) | (Hf & _)]; discriminate Hf.
Qed.

Lemma negotiated_surface_access_witness :
  exists r t,
    gst_cuda_memory_copy_transform env_all_ok true false
      (gst_cuda_memory_copy_set_info true true no_gl_self
         (Some [GST_CAPS_FEATURE_MEMORY_CUDA_NVMM_MEMORY])
         (Some [GST_CAPS_FEATURE_MEMORY_CUDA_MEMORY]))
      nvmm_input cuda_output [] = Some (r, t) /\
    In (gst_buffer_map 1 true) t /\
    caps_has_nvmm (Some [GST_CAPS_FEATURE_MEMORY_CUDA_NVMM_MEMORY]) = true.
Proof.
  eexists _, _. split; [vm_compute; reflexivity|].
  split; [cbn; auto|].
  destruct (negotiated_surface_access env_all_ok true false true no_gl_self
              (Some [GST_CAPS_FEATURE_MEMORY_CUDA_NVMM_MEMORY])
              (Some [GST_CAPS_FEATURE_MEMORY_CUDA_MEMORY])
              nvmm_input cuda_output [] GST_FLOW_OK _ eq_refl eq_refl eq_refl
              (gst_buffer_map 1 true)) as (_ & _ & [(Hf & _) | (Hf & _)]).
  - cbn. auto.
  - reflexivity.
  - exact Hf.
  - discriminate Hf.
Defined.

(** * Further properties of wlwindow.c *)

Section WindowEventProperties.

Variable HAS_DCSS : bool.
Variable G_BYTE_ORDER_BIG_ENDIAN : bool.
Variable gst_util_uint64_scale_int_round : Z -> Z -> Z -> Z.
Variable wl_fixed_from_double : spec_float -> Z.
Variable gst_video_info_size : GstVideoFormat -> Z -> Z -> Z.

Local Abbreviation set_render_rectangle :=
  (gst_wl_window_set_render_rectangle G_BYTE_ORDER_BIG_ENDIAN gst_video_info_size).
Local Abbreviation render :=
  (gst_wl_window_render HAS_DCSS gst_util_uint64_scale_int_round).
Local Abbreviation configure :=
  (handle_configure G_BYTE_ORDER_BIG_ENDIAN gst_video_info_size).
Local Abbreviation ev_step :=
  (event_step HAS_DCSS G_BYTE_ORDER_BIG_ENDIAN gst_util_uint64_scale_int_round
     wl_fixed_from_double gst_video_info_size).
Local Abbreviation ev_run :=
  (event_run HAS_DCSS G_BYTE_ORDER_BIG_ENDIAN gst_util_uint64_scale_int_round
     wl_fixed_from_double gst_video_info_size).

(** ** Synchronisation of the video subsurface *)

Lemma mode_run_app m t1 t2 :
  mode_run m (t1 ++ t2)
  = match mode_run m t1 with Some m' => mode_run m' t2 | None => None end.
Proof.
  revert m. induction t1 as [|r t1 IH]; intros m; [reflexivity|].
  cbn. destruct (mode_step m r); [apply IH | reflexivity].
Qed.

Lemma resize_mode window commit :
  mode_run Sync (snd (gst_wl_window_resize_video_surface window commit))
  = Some SyncMoved.
Proof.
  unfold gst_wl_window_resize_video_surface, gst_wl_window_is_toplevel. cbn [snd].
  destruct (video_viewport window), commit, (shell_surface window);
    cbn; try reflexivity;
    destruct (negb (wl_fixed_from_int (c_div (src_width window) (scale window))
                    =? wl_fixed_from_int (-1))); reflexivity.
Qed.

Lemma mode_run_neutral m t :
  Forall (fun r => mode_neutral r = true) t -> mode_run m t = Some m.
Proof.
  induction 1 as [|r t Hr _ IH]; [reflexivity|].
  cbn. destruct r as [[] | | | | | | [] | | | | | | | | ]; try discriminate Hr;
    exact IH.
Qed.

Ltac mode_seq H :=
  rewrite mode_run_app, (mode_run_neutral _ _ H); cbv beta iota.

Lemma update_borders_neutral window :
  Forall (fun r => mode_neutral r = true)
    (snd (gst_wl_window_update_borders G_BYTE_ORDER_BIG_ENDIAN
            gst_video_info_size window)) /\
  video_width (fst (gst_wl_window_update_borders G_BYTE_ORDER_BIG_ENDIAN
                      gst_video_info_size window)) = video_width window.
Proof.
  unfold gst_wl_window_update_borders.
  destruct (no_border_update window); [split; [constructor | reflexivity]|].
  destruct (viewporter (display window)); cbn; split;
    try reflexivity; repeat constructor.
Qed.

Lemma set_render_rectangle_mode window rx ry rw rh :
  mode_run Desync (snd (set_render_rectangle window rx ry rw rh)) = Some Desync.
Proof.
  unfold gst_wl_window_set_render_rectangle.
  set (w1 := set_render_rectangle_field (mkRect rx ry rw rh) window).
  pose proof (update_borders_neutral w1) as (Hb & Hvw).
  destruct (gst_wl_window_update_borders G_BYTE_ORDER_BIG_ENDIAN
              gst_video_info_size w1) as [w2 t3].
  cbn [fst snd] in Hb, Hvw.
  assert (H1 : Forall (fun r => mode_neutral r = true)
                 (if area_subsurface w1
                  then [wl_subsurface_set_position area_surface rx ry] else [])).
  { destruct (area_subsurface w1); repeat constructor. }
  assert (H2 : Forall (fun r => mode_neutral r = true)
                 (if area_viewport w1
                  then [wp_viewport_set_destination area_surface rw rh] else [])).
  { destruct (area_viewport w1); repeat constructor. }
  pose proof (resize_mode w2 true) as Hr.
  destruct (video_width w2 =? 0) eqn:Hz; cbn [negb].
  - cbn [snd]. rewrite Hz. cbn [negb].
    mode_seq H1. mode_seq H2. mode_seq Hb. reflexivity.
  - destruct (gst_wl_window_resize_video_surface w2 true) as [w3 t4] eqn:Er.
    assert (Hw3 : video_width w3 = video_width w2).
    { pose proof (f_equal fst Er) as E. cbn in E. subst w3. reflexivity. }
    cbn [snd] in Hr |- *. rewrite Hw3, Hz. cbn [negb].
    mode_seq H1. mode_seq H2. mode_seq Hb.
    rewrite mode_run_app. cbn [mode_run mode_step]. rewrite Hr. reflexivity.
Qed.

Lemma render_mode window buffer info :
  mode_run Desync (snd (render window buffer info)) = Some Desync.
Proof.
  unfold gst_wl_window_render.
  destruct info as [i|]; [|destruct buffer; reflexivity].
  set (w1 := set_video_size _ _ window).
  pose proof (resize_mode w1 false) as Hr.
  destruct (gst_wl_window_resize_video_surface w1 false) as [w2 t]. cbn [snd] in *.
  assert (Ho : Forall (fun r => mode_neutral r = true)
                 (gst_wl_window_set_opaque HAS_DCSS w2 i)).
  { unfold gst_wl_window_set_opaque.
    destruct (negb (info_has_alpha i)), HAS_DCSS; repeat constructor. }
  rewrite mode_run_app, (mode_run_app _ [wl_subsurface_set_sync]).
  cbn [mode_run mode_step]. rewrite mode_run_app, Hr. cbv beta iota.
  rewrite (mode_run_neutral _ _ Ho). destruct buffer; reflexivity.
Qed.

Lemma event_step_mode window ev :
  mode_run Desync (snd (ev_step window ev)) = Some Desync.
Proof.
  destruct ev as [[rx ry rw rh | buffer info | crop | alpha] | width height];
    cbn [event_step window_step].
  - apply set_render_rectangle_mode.
  - apply render_mode.
  - reflexivity.
  - cbn [snd]. unfold gst_wl_window_set_alpha.
    destruct (blend_func window); reflexivity.
  - unfold handle_configure. destruct ((width =? 0) || (height =? 0));
      [reflexivity | apply set_render_rectangle_mode].
Qed.

(** X12: over the life of a window (calls of the public operations and
    [configure] events, in any order), the video subsurface is moved only
    while it is in synchronised mode, it returns to desynchronised mode
    only after the area surface has been committed since the last move,
    and it is in desynchronised mode again whenever an operation
    returns. *)
Theorem video_subsurface_moves_in_sync (window : GstWlWindow)
    (evs : list WindowEvent) :
  mode_run Desync (snd (ev_run window evs)) = Some Desync.
Proof.
  revert window. induction evs as [|ev evs IH]; intros window; [reflexivity|].
  cbn [event_run]. pose proof (event_step_mode window ev) as Hs.
  destruct (ev_step window ev) as [w1 t1]. specialize (IH w1).
  destruct (ev_run w1 evs) as [w2 t2]. cbn [snd] in *.
  rewrite mode_run_app, Hs. exact IH.
Qed.

(** ** The objects of the window *)

Lemma same_objects_refl w : same_objects w w.
Proof. repeat split. Qed.

Lemma same_objects_trans w1 w2 w3 :
  same_objects w1 w2 -> same_objects w2 w3 -> same_objects w1 w3.
Proof.
  unfold same_objects.
  intros (A1 & A2 & A3 & A4 & A5 & A6 & A7 & A8 & A9)
         (B1 & B2 & B3 & B4 & B5 & B6 & B7 & B8 & B9).
  repeat split; congruence.
Qed.

Lemma request_allowed_same w w' r :
  same_objects w w' -> request_allowed w' r = request_allowed w r.
Proof.
  intros (_ & A2 & A3 & A4 & A5 & A6 & _).
  destruct r as [[] | | | [] | | | | [] | | | | | | | ]; cbn;
    unfold gst_wl_window_is_toplevel; congruence.
Qed.

Local Abbreviation allowed w := (Forall (fun r => request_allowed w r = true)).

Lemma resize_objects window commit :
  same_objects window (fst (gst_wl_window_resize_video_surface window commit)) /\
  allowed window (snd (gst_wl_window_resize_video_surface window commit)).
Proof.
  split; [repeat split|].
  unfold gst_wl_window_resize_video_surface. cbn [snd].
  repeat apply Forall_app_2.
  - destruct (video_viewport window) eqn:Hv; [|constructor].
    constructor; [exact Hv|].
    destruct (negb _); repeat constructor. exact Hv.
  - repeat constructor.
  - destruct commit; repeat constructor.
  - destruct (gst_wl_window_is_toplevel window) eqn:Ht; repeat constructor.
    exact Ht.
Qed.

Lemma update_borders_objects window :
  same_objects window
    (fst (gst_wl_window_update_borders G_BYTE_ORDER_BIG_ENDIAN
            gst_video_info_size window)) /\
  allowed window
    (snd (gst_wl_window_update_borders G_BYTE_ORDER_BIG_ENDIAN
            gst_video_info_size window)).
Proof.
  unfold gst_wl_window_update_borders.
  destruct (no_border_update window); [split; [repeat split | constructor]|].
  destruct (viewporter (display window)); cbn; split;
    repeat split; repeat constructor.
Qed.

Lemma set_render_rectangle_objects window rx ry rw rh :
  same_objects window (fst (set_render_rectangle window rx ry rw rh)) /\
  allowed window (snd (set_render_rectangle window rx ry rw rh)).
Proof.
  unfold gst_wl_window_set_render_rectangle.
  set (w1 := set_render_rectangle_field (mkRect rx ry rw rh) window).
  assert (H01 : same_objects window w1) by (repeat split).
  pose proof (update_borders_objects w1) as (Hs2 & Ha2).
  destruct (gst_wl_window_update_borders G_BYTE_ORDER_BIG_ENDIAN
              gst_video_info_size w1) as [w2 t3].
  cbn [fst snd] in Hs2, Ha2.
  assert (H1 : allowed w1
                 (if area_subsurface w1
                  then [wl_subsurface_set_position area_surface rx ry] else [])).
  { destruct (area_subsurface w1) eqn:E; repeat constructor. exact E. }
  assert (H2 : allowed w1
                 (if area_viewport w1
                  then [wp_viewport_set_destination area_surface rw rh] else [])).
  { destruct (area_viewport w1) eqn:E; repeat constructor. exact E. }
  assert (Hw : forall t, allowed w1 t -> allowed window t).
  { intros t Ht. eapply Forall_impl; [exact Ht|]. intros r Hr.
    rewrite <- (request_allowed_same _ _ r H01). exact Hr. }
  pose proof (resize_objects w2 true) as (Hs3 & Ha3).
  assert (Hw2 : forall t, allowed w2 t -> allowed w1 t).
  { intros t Ht. eapply Forall_impl; [exact Ht|]. intros r Hr.
    rewrite <- (request_allowed_same _ _ r Hs2). exact Hr. }
  destruct (negb (video_width w2 =? 0)).
  - destruct (gst_wl_window_resize_video_surface w2 true) as [w3 t4].
    cbn [fst snd] in *. split.
    + eapply same_objects_trans; [exact H01|].
      eapply same_objects_trans; [exact Hs2 | exact Hs3].
    + apply Hw. repeat apply Forall_app_2; try assumption.
      * constructor; [reflexivity | apply Hw2, Ha3].
      * repeat constructor.
      * destruct (negb (video_width w3 =? 0)); repeat constructor.
  - cbn [fst snd]. split.
    + eapply same_objects_trans; [exact H01 | exact Hs2].
    + apply Hw. repeat apply Forall_app_2; try assumption.
      * constructor.
      * repeat constructor.
      * destruct (negb (video_width w2 =? 0)); repeat constructor.
Qed.

Lemma render_objects window buffer info :
  same_objects window (fst (render window buffer info)) /\
  allowed window (snd (render window buffer info)).
Proof.
  unfold gst_wl_window_render. destruct info as [i|].
  - set (w1 := set_video_size _ _ window).
    assert (H01 : same_objects window w1) by (repeat split).
    pose proof (resize_objects w1 false) as (Hs & Ha).
    destruct (gst_wl_window_resize_video_surface w1 false) as [w2 t].
    cbn [fst snd] in *. split.
    + eapply same_objects_trans; [exact H01 | exact Hs].
    + assert (Ha' : allowed window t).
      { eapply Forall_impl; [exact Ha|]. intros r Hr.
        rewrite <- (request_allowed_same _ _ r H01). exact Hr. }
      repeat apply Forall_app_2; try assumption.
      * repeat constructor.
      * unfold gst_wl_window_set_opaque.
        destruct (negb (info_has_alpha i)), HAS_DCSS; repeat constructor.
      * destruct buffer; repeat constructor.
      * repeat constructor.
      * repeat constructor.
  - cbn [fst snd]. split; [apply same_objects_refl|].
    destruct buffer; repeat constructor.
Qed.

Lemma event_step_objects window ev :
  same_objects window (fst (ev_step window ev)) /\
  allowed window (snd (ev_step window ev)).
Proof.
  destruct ev as [[rx ry rw rh | buffer info | crop | alpha] | width height];
    cbn [event_step window_step].
  - apply set_render_rectangle_objects.
  - apply render_objects.
  - cbn [fst snd]. split; [|constructor].
    unfold gst_wl_window_set_source_crop. destruct crop; repeat split.
  - cbn [fst snd]. split; [apply same_objects_refl|].
    unfold gst_wl_window_set_alpha.
    destruct (blend_func window) eqn:Hb; repeat constructor; exact Hb.
  - unfold handle_configure. destruct ((width =? 0) || (height =? 0)).
    + split; [apply same_objects_refl | constructor].
    + apply set_render_rectangle_objects.
Qed.

(** X13: over the life of a window, no operation and no [configure]
    event changes the objects the window was made with (display,
    subsurface of the area, viewports, blending object, shell surface) nor
    its scale and fullscreen size; and every request is sent on an object
    the window holds: viewport requests only with the matching viewport,
    blending requests only with a blending object, the position of the
    area only with its subsurface, and the input region of the area only
    for a toplevel window. *)
Theorem requests_on_held_objects (window : GstWlWindow) (evs : list WindowEvent) :
  same_objects window (fst (ev_run window evs)) /\
  Forall (fun r => request_allowed window r = true) (snd (ev_run window evs)).
Proof.
  revert window. induction evs as [|ev evs IH]; intros window.
  - split; [apply same_objects_refl | constructor].
  - cbn [event_run]. pose proof (event_step_objects window ev) as (Hs & Ha).
    destruct (ev_step window ev) as [w1 t1]. destruct (IH w1) as (Hs' & Ha').
    destruct (ev_run w1 evs) as [w2 t2]. cbn [fst snd] in *. split.
    + eapply same_objects_trans; [exact Hs | exact Hs'].
    + apply Forall_app_2; [exact Ha|].
      eapply Forall_impl; [exact Ha'|]. intros r Hr.
      rewrite <- (request_allowed_same _ _ r Hs). exact Hr.
Qed.

(** ** The video rectangle *)

Lemma resize_video_rectangle_inv window commit :
  video_rectangle_inv (fst (gst_wl_window_resize_video_surface window commit)).
Proof. intros _. reflexivity. Qed.

Lemma update_borders_video window :
  let w' := fst (gst_wl_window_update_borders G_BYTE_ORDER_BIG_ENDIAN
                   gst_video_info_size window) in
  video_width w' = video_width window /\ video_height w' = video_height window /\
  video_viewport w' = video_viewport window /\
  render_rectangle w' = render_rectangle window /\
  video_rectangle w' = video_rectangle window.
Proof.
  unfold gst_wl_window_update_borders.
  destruct (no_border_update window); [repeat split|].
  destruct (viewporter (display window)); repeat split.
Qed.

Lemma set_render_rectangle_video_inv window rx ry rw rh :
  video_rectangle_inv (fst (set_render_rectangle window rx ry rw rh)).
Proof.
  unfold gst_wl_window_set_render_rectangle.
  set (w1 := set_render_rectangle_field (mkRect rx ry rw rh) window).
  destruct (gst_wl_window_update_borders G_BYTE_ORDER_BIG_ENDIAN
              gst_video_info_size w1) as [w2 t3].
  pose proof (resize_video_rectangle_inv w2 true) as Hr.
  destruct (video_width w2 =? 0) eqn:Hz; cbn [negb].
  - cbn [fst]. intros Hne. apply Z.eqb_eq in Hz. contradiction.
  - destruct (gst_wl_window_resize_video_surface w2 true) as [w3 t4].
    exact Hr.
Qed.

Lemma event_step_video_inv window ev :
  video_rectangle_inv window -> video_rectangle_inv (fst (ev_step window ev)).
Proof.
  intros Hinv.
  destruct ev as [[rx ry rw rh | buffer info | crop | alpha] | width height];
    cbn [event_step window_step].
  - apply set_render_rectangle_video_inv.
  - unfold gst_wl_window_render. destruct info as [i|]; [|exact Hinv].
    set (w1 := set_video_size _ _ window).
    pose proof (resize_video_rectangle_inv w1 false) as Hr.
    destruct (gst_wl_window_resize_video_surface w1 false) as [w2 t]. exact Hr.
  - cbn [fst]. unfold gst_wl_window_set_source_crop. destruct crop; exact Hinv.
  - exact Hinv.
  - unfold handle_configure. destruct ((width =? 0) || (height =? 0));
      [exact Hinv | apply set_render_rectangle_video_inv].
Qed.

(** X14: the stored video rectangle never goes stale.  If, once the
    size of the video is known, the video rectangle of a window is the one
    computed from the video size and the render rectangle, the same holds
    after any sequence of operations and [configure] events: whenever the
    render rectangle or the video size changes, the video rectangle is
    computed again. *)
Theorem video_rectangle_follows (window : GstWlWindow) (evs : list WindowEvent) :
  video_rectangle_inv window ->
  video_rectangle_inv (fst (ev_run window evs)).
Proof.
  revert window. induction evs as [|ev evs IH]; intros window Hinv; [exact Hinv|].
  cbn [event_run]. pose proof (event_step_video_inv window ev Hinv) as Hs.
  destruct (ev_step window ev) as [w1 t1]. specialize (IH w1 Hs).
  destruct (ev_run w1 evs) as [w2 t2]. exact IH.
Qed.

(** ** Rendering *)

Lemma count_requests_app f t1 t2 :
  count_requests f (t1 ++ t2) = (count_requests f t1 + count_requests f t2)%nat.
Proof.
  induction t1 as [|r t1 IH]; [reflexivity|]. cbn. destruct (f r); cbn; lia.
Qed.

Lemma resize_no_video_attach window :
  count_requests is_video_attach
    (snd (gst_wl_window_resize_video_surface window false)) = 0%nat /\
  count_requests is_video_commit
    (snd (gst_wl_window_resize_video_surface window false)) = 0%nat.
Proof.
  unfold gst_wl_window_resize_video_surface, gst_wl_window_is_toplevel. cbn [snd].
  destruct (video_viewport window), (shell_surface window);
    cbn; try (split; reflexivity);
    destruct (negb (wl_fixed_from_int (c_div (src_width window) (scale window))
                    =? wl_fixed_from_int (-1))); split; reflexivity.
Qed.

(** X15: each call of [gst_wl_window_render] attaches exactly one
    buffer to the video surface (the given one, or none for NULL), sets
    the buffer scale to the scale of the window, damages the stored video
    rectangle and commits the video surface exactly once, in this order,
    and its last request is the flush of the display. *)
Theorem render_commits_video_once (window : GstWlWindow)
    (buffer : option GstWlBuffer) (info : option GstVideoInfo) :
  let w' := fst (render window buffer info) in
  let t := snd (render window buffer info) in
  count_requests is_video_attach t = 1%nat /\
  count_requests is_video_commit t = 1%nat /\
  (exists pre post,
     t = pre
         ++ [match buffer with
             | Some b => gst_wl_buffer_attach b video_surface
             | None => wl_surface_attach_null video_surface
             end;
             wl_surface_set_buffer_scale video_surface (scale window);
             wl_surface_damage video_surface 0 0
               (rect_w (video_rectangle w')) (rect_h (video_rectangle w'));
             wl_surface_commit video_surface]
         ++ post ++ [wl_display_flush]) /\
  (info = None -> w' = window).
Proof.
  unfold gst_wl_window_render. destruct info as [i|].
  - set (w1 := set_video_size _ _ window).
    pose proof (resize_no_video_attach w1) as (Ha & Hc).
    assert (Hscale : scale (fst (gst_wl_window_resize_video_surface w1 false))
                     = scale window) by reflexivity.
    destruct (gst_wl_window_resize_video_surface w1 false) as [w2 t].
    cbn [fst snd] in *.
    assert (Ho : count_requests is_video_attach
                   (gst_wl_window_set_opaque HAS_DCSS w2 i) = 0%nat /\
                 count_requests is_video_commit
                   (gst_wl_window_set_opaque HAS_DCSS w2 i) = 0%nat).
    { unfold gst_wl_window_set_opaque.
      destruct (negb (info_has_alpha i)), HAS_DCSS; split; reflexivity. }
    destruct Ho as (Hoa & Hoc).
    rewrite !count_requests_app, Ha, Hc, Hoa, Hoc, Hscale.
    split; [destruct buffer; reflexivity|].
    split; [destruct buffer; reflexivity|].
    split; [|discriminate].
    eexists _, _. reflexivity.
  - cbn [fst snd].
    split; [destruct buffer; reflexivity|].
    split; [destruct buffer; reflexivity|].
    split; [|reflexivity].
    exists [], []. reflexivity.
Qed.

End WindowEventProperties.

Lemma video_rectangle_follows_witness :
  video_rectangle_inv
    (fst (event_run false false sample_scale_int_round sample_fixed_from_double
            sample_info_size (gst_wl_window_init (mkDisplay true false))
            [EvOp (OpRender None (Some (mkInfo 1920 1080 1 1 false 1 [1920])));
             EvConfigure 800 600; EvConfigure 0 0])).
Proof.
  apply (video_rectangle_follows false false sample_scale_int_round
           sample_fixed_from_double sample_info_size
           (gst_wl_window_init (mkDisplay true false))).
  intros H. exfalso. apply H. reflexivity.
Defined.
